(** * PascalVocDataset (dataset/pascal.py): instance catalog and sample assembly

    A shallow embedding of [dataset/pascal.py].  Python exceptions are an
    explicit [result] type, numpy arrays are lists of rows, Python strings are
    lists of code points, and the dictionary [obj_dict] is a finite map. *)

From Stdlib Require Import ZArith Lia DecimalN DecimalPos DecimalFacts.
From stdpp Require Import base list gmap sorting strings.

Local Open Scope Z_scope.

(** ** Python values, exceptions and sequences *)

Module Py.

(** The exceptions the modelled code can raise.  [Unmodelled] is not a Python
    exception: it marks a cache file that is well-formed JSON but whose values
    are not arrays of integers, which the typed catalog cannot hold. *)
Inductive exn :=
| IndexError
| KeyError
| ValueError
| AttributeError
| AssertionError
| FileNotFoundError
| JSONDecodeError
| Unmodelled.

Inductive result (A : Type) :=
| Ok (a : A)
| Raise (e : exn).
Arguments Ok {A} a.
Arguments Raise {A} e.

#[export] Instance exn_eq_dec : EqDecision exn.
Proof. solve_decision. Defined.

#[export] Instance result_eq_dec {A} `{EqDecision A} : EqDecision (result A).
Proof. solve_decision. Defined.

#[export] Instance result_ret : MRet result := @Ok.
#[export] Instance result_bind : MBind result := λ A B f m,
  match m with Ok a => f a | Raise e => Raise e end.
#[export] Instance result_fmap : FMap result := λ A B f m,
  match m with Ok a => Ok (f a) | Raise e => Raise e end.

(** A Python [str]: a sequence of Unicode code points. *)
Definition char := N.
Definition str := list N.

(** [l[i]] on a Python sequence: a negative index counts from the end, an
    index outside [-len, len) raises IndexError. *)
Definition getitem {A} (l : list A) (i : Z) : result A :=
  let k := if i <? 0 then i + Z.of_nat (length l) else i in
  if k <? 0 then Raise IndexError
  else match l !! Z.to_nat k with
       | Some x => Ok x
       | None => Raise IndexError
       end.

(** [range(n)] and [range(a, b)]. *)
Definition range (n : Z) : list Z := seqZ 0 n.
Definition range2 (a b : Z) : list Z := seqZ a (b - a).

(** [s.rstrip('\n')]: the newlines at the end of [s] are removed. *)
Fixpoint lstrip_nl (s : str) : str :=
  match s with
  | c :: s' => if (c =? 10)%N then lstrip_nl s' else s
  | [] => []
  end.
Definition rstrip_nl (s : str) : str := reverse (lstrip_nl (reverse s)).

(** [s.splitlines()]: the lines of [s], without their line breaks; a break
    at the very end does not open another line. *)
Definition is_linebreak (c : N) : bool :=
  ((c =? 10) || (c =? 13) || (c =? 11) || (c =? 12) || (c =? 28) || (c =? 29)
   || (c =? 30) || (c =? 133) || (c =? 8232) || (c =? 8233))%N.

Fixpoint splitlines_from (s : str) (cur : str) : list str :=
  match s with
  | [] =>
      match cur with
      | [] => []
      | _ :: _ => [reverse cur]
      end
  | c :: s' =>
      if (c =? 13)%N then
        match s' with
        | c' :: s'' =>
            if (c' =? 10)%N
            then reverse cur :: splitlines_from s'' []
            else reverse cur :: splitlines_from s' []
        | [] => reverse cur :: splitlines_from s' []
        end
      else if is_linebreak c then reverse cur :: splitlines_from s' []
      else splitlines_from s' (c :: cur)
  end.
Definition splitlines (s : str) : list str := splitlines_from s [].

(** [d[k]] on a dict: KeyError when the key is absent. *)
Definition dict_get {V} (d : gmap str V) (k : str) : result V :=
  match d !! k with
  | Some v => Ok v
  | None => Raise KeyError
  end.

(** Lexicographic order of strings by code point, the order of [list.sort]
    and of [np.sort] on strings. *)
Fixpoint str_leb (a b : str) : bool :=
  match a, b with
  | [], _ => true
  | _ :: _, [] => false
  | x :: a', y :: b' => (x <? y)%N || ((x =? y)%N && str_leb a' b')
  end.
Definition str_le (a b : str) : Prop := str_leb a b = true.
#[export] Instance str_le_dec : RelDecision str_le.
Proof. intros a b. unfold str_le. apply _. Defined.

Definition sorted (l : list str) : list str := merge_sort str_le l.

End Py.
Export Py.

(** ** numpy arrays as lists of rows *)

Module Np.

(** A 2-D numeric array (uint8 label raster, or its float32 copy: every value
    the code handles is a small integer, exact in both). *)
Definition raster := list (list Z).
Definition bool_array := list (list bool).
(** An H x W x 3 array. *)
Definition image := list (list (list Z)).

Definition shape0 {A} (a : list (list A)) : nat := length a.
Definition shape1 {A} (a : list (list A)) : nat :=
  match a with
  | [] => O
  | row :: _ => length row
  end.

(** All rows have the same length; two arrays have the same shape. *)
Definition rect {A} (a : list (list A)) : Prop :=
  ∀ row, row ∈ a → length row = shape1 a.
Definition same_shape {A B} (a : list (list A)) (b : list (list B)) : Prop :=
  Forall2 (λ ra rb, length ra = length rb) a b.

Definition flatten (a : raster) : list Z := concat a.

(** [np.unique(a)]: the sorted distinct values of the flattened array. *)
Fixpoint insert_unique (x : Z) (l : list Z) : list Z :=
  match l with
  | [] => [x]
  | y :: l' =>
      if x <? y then x :: l
      else if x =? y then l
      else y :: insert_unique x l'
  end.
Definition unique (a : raster) : list Z :=
  foldr insert_unique [] (flatten a).

(** [a == v], elementwise. *)
Definition eq_scalar (a : raster) (v : Z) : bool_array :=
  map (map (λ x, x =? v)) a.

(** [np.where(b)] for a 2-D boolean array: the (row, column) positions of the
    true entries in row-major order; [tmp[0]] is [(np_where b).*1] and
    [tmp[1]] is [(np_where b).*2]. *)
Fixpoint where_row (r c : nat) (row : list bool) : list (nat * nat) :=
  match row with
  | [] => []
  | b :: row' => (if b then [(r, c)] else []) ++ where_row r (S c) row'
  end.
Fixpoint where_from (r : nat) (b : bool_array) : list (nat * nat) :=
  match b with
  | [] => []
  | row :: b' => where_row r O row ++ where_from (S r) b'
  end.
Definition np_where (b : bool_array) : list (nat * nat) := where_from O b.

(** [a[r, c]] *)
Definition getitem2 {A} (a : list (list A)) (r c : Z) : result A :=
  row ← getitem a r; getitem row c.

(** [a[b] = 0] for a boolean mask [b] of the same shape. *)
Definition zero_where (a : raster) (b : bool_array) : raster :=
  zip_with (zip_with (λ x (m : bool), if m then 0 else x)) a b.

Definition logical_and (a b : bool_array) : bool_array :=
  zip_with (zip_with andb) a b.
Definition logical_or (a b : bool_array) : bool_array :=
  zip_with (zip_with orb) a b.
Definition logical_not (a : bool_array) : bool_array := map (map negb) a.

(** [np.zeros(a.shape)], kept as the boolean array it is used as by
    [np.logical_or] (0.0 is false). *)
Definition zeros_like {A} (a : list (list A)) : bool_array :=
  map (map (λ _, false)) a.

(** [b.astype(np.float32)] for a boolean array: 0.0 / 1.0. *)
Definition astype_float (b : bool_array) : raster :=
  map (map (λ m : bool, if m then 1 else 0)) b.

(** [np.max(a)]: the largest element; ValueError on an array without
    elements.  The source converts it with [astype(np.int)], the builtin
    [int] in the numpy releases that define [np.int]. *)
Definition np_max (a : raster) : result Z :=
  match flatten a with
  | [] => Raise ValueError
  | x :: l => Ok (foldl Z.max x l)
  end.

End Np.
Export Np.

(** ** The Instance Index Builder: the loop body of [_preprocess] *)

Module IndexBuilder.

(** Lines 138-142: the number of objects is the largest value of the instance
    raster, skipping the boundary label 255 when it is the largest. *)
Definition n_objects (_mask : raster) : result Z :=
  let _mask_ids := unique _mask in
  last ← getitem _mask_ids (-1);
  if last =? 255 then getitem _mask_ids (-2) else Ok last.

(** Lines 148-153, for one [jj]. *)
Definition instance_category (_mask _cats : raster) (area_thres : Z)
    (jj : Z) : result Z :=
  let tmp := np_where (eq_scalar _mask (jj + 1)) in
  let obj_area := Z.of_nat (length tmp.*1) in
  if area_thres <? obj_area then
    r ← getitem tmp.*1 0;
    c ← getitem tmp.*2 0;
    getitem2 _cats (Z.of_nat r) (Z.of_nat c)
  else Ok (-1).

(** Lines 146-154: the list [_cat_ids] for [n_obj] objects. *)
Definition cat_ids_upto (_mask _cats : raster) (area_thres n_obj : Z)
    : result (list Z) :=
  mapM (instance_category _mask _cats area_thres) (range n_obj).

(** Lines 138-154 for one image. *)
Definition image_cat_ids (_mask _cats : raster) (area_thres : Z)
    : result (list Z) :=
  n_obj ← n_objects _mask;
  cat_ids_upto _mask _cats area_thres n_obj.

End IndexBuilder.
Export IndexBuilder.

(** ** The json module: [json.dumps] on a list of integers, [json.load]

    The json module belongs to Python's standard library, not to the
    repository.  Its decoder is modelled after CPython's [json.decoder] and
    [json.scanner] (the C scanner): JSON text is decoded to a [json] value,
    and every failure is the exception JSONDecodeError. *)

Module Json.

#[warnings="-register-all"]
Inductive json :=
| JNull
| JBool (b : bool)
| JInt (z : Z)
| JFloat (numstr : str)
| JStr (s : str)
| JArr (l : list json)
| JObj (kv : list (str * json)).

(** A source-code string literal as a Python [str]. *)
Definition py (s : string) : str :=
  Ascii.N_of_ascii <$> String.list_ascii_of_string s.

(** *** Decimal numerals: [str(int)] and [int(str)] *)

Fixpoint chars_of_uint (d : Decimal.uint) : str :=
  match d with
  | Decimal.Nil => []
  | Decimal.D0 d => 48%N :: chars_of_uint d
  | Decimal.D1 d => 49%N :: chars_of_uint d
  | Decimal.D2 d => 50%N :: chars_of_uint d
  | Decimal.D3 d => 51%N :: chars_of_uint d
  | Decimal.D4 d => 52%N :: chars_of_uint d
  | Decimal.D5 d => 53%N :: chars_of_uint d
  | Decimal.D6 d => 54%N :: chars_of_uint d
  | Decimal.D7 d => 55%N :: chars_of_uint d
  | Decimal.D8 d => 56%N :: chars_of_uint d
  | Decimal.D9 d => 57%N :: chars_of_uint d
  end.

(** [str(z)] for an [int]. *)
Definition str_of_int (z : Z) : str :=
  (if z <? 0 then [45%N] else []) ++ chars_of_uint (N.to_uint (Z.abs_N z)).

Definition is_digit (c : N) : bool := ((48 <=? c) && (c <=? 57))%N.

Fixpoint uint_of_chars (s : str) : Decimal.uint :=
  match s with
  | [] => Decimal.Nil
  | c :: s' =>
      let d := uint_of_chars s' in
      if (c =? 48)%N then Decimal.D0 d
      else if (c =? 49)%N then Decimal.D1 d
      else if (c =? 50)%N then Decimal.D2 d
      else if (c =? 51)%N then Decimal.D3 d
      else if (c =? 52)%N then Decimal.D4 d
      else if (c =? 53)%N then Decimal.D5 d
      else if (c =? 54)%N then Decimal.D6 d
      else if (c =? 55)%N then Decimal.D7 d
      else if (c =? 56)%N then Decimal.D8 d
      else if (c =? 57)%N then Decimal.D9 d
      else Decimal.Nil
  end.

(** [int(numstr)] on the text matched by the integer part of a JSON number. *)
Definition int_of_str (numstr : str) : Z :=
  match numstr with
  | c :: s' =>
      if (c =? 45)%N then - Z.of_N (N.of_uint (uint_of_chars s'))
      else Z.of_N (N.of_uint (uint_of_chars numstr))
  | [] => 0
  end.

(** *** [json.dumps] on a list of integers: ["[1, 2, -1]"] *)

Fixpoint join (sep : str) (l : list str) : str :=
  match l with
  | [] => []
  | [x] => x
  | x :: l' => x ++ sep ++ join sep l'
  end.

Definition dumps (cat_ids : list Z) : str :=
  [91%N] ++ join [44%N; 32%N] (str_of_int <$> cat_ids) ++ [93%N].

(** *** The decoder *)

Definition is_ws (c : N) : bool :=
  ((c =? 32) || (c =? 9) || (c =? 10) || (c =? 13))%N.

Fixpoint skip_ws (s : str) : str :=
  match s with
  | c :: s' => if is_ws c then skip_ws s' else s
  | [] => []
  end.

Definition hex_digit (c : N) : option N :=
  if ((48 <=? c) && (c <=? 57))%N then Some (c - 48)%N
  else if ((97 <=? c) && (c <=? 102))%N then Some (c - 87)%N
  else if ((65 <=? c) && (c <=? 70))%N then Some (c - 55)%N
  else None.

Definition hex4 (a b c d : N) : option N :=
  x ← hex_digit a; y ← hex_digit b; z ← hex_digit c; w ← hex_digit d;
  Some (((x * 16 + y) * 16 + z) * 16 + w)%N.

(** The character of a one-letter escape: the table BACKSLASH. *)
Definition backslash (c : N) : option N :=
  if (c =? 34)%N then Some 34%N
  else if (c =? 92)%N then Some 92%N
  else if (c =? 47)%N then Some 47%N
  else if (c =? 98)%N then Some 8%N
  else if (c =? 102)%N then Some 12%N
  else if (c =? 110)%N then Some 10%N
  else if (c =? 114)%N then Some 13%N
  else if (c =? 116)%N then Some 9%N
  else None.

Definition is_high_surrogate (c : N) : bool :=
  ((55296 <=? c) && (c <=? 56319))%N.
Definition is_low_surrogate (c : N) : bool :=
  ((56320 <=? c) && (c <=? 57343))%N.
Definition join_surrogates (hi lo : N) : N :=
  (65536 + (N.lor (N.shiftl (hi - 55296) 10) (lo - 56320)))%N.

(** [scanstring] in strict mode, from the character after the opening quote:
    the decoded string (accumulated in reverse in [acc]) and the text after the
    closing quote. *)
Fixpoint scanstring (s : str) (acc : str) : result (str * str) :=
  match s with
  | [] => Raise JSONDecodeError
  | c :: s1 =>
      if (c =? 34)%N then Ok (reverse acc, s1)
      else if (c =? 92)%N then
        match s1 with
        | [] => Raise JSONDecodeError
        | e :: s2 =>
            if (e =? 117)%N then
              match s2 with
              | h1 :: h2 :: h3 :: h4 :: s3 =>
                  match hex4 h1 h2 h3 h4 with
                  | None => Raise JSONDecodeError
                  | Some u =>
                      match s3 with
                      | b :: s4 =>
                          match s4 with
                          | v :: l1 :: l2 :: l3 :: l4 :: s5 =>
                              if is_high_surrogate u && (b =? 92)%N
                                 && (v =? 117)%N then
                                match hex4 l1 l2 l3 l4 with
                                | None => Raise JSONDecodeError
                                | Some u2 =>
                                    if is_low_surrogate u2
                                    then scanstring s5
                                           (join_surrogates u u2 :: acc)
                                    else scanstring s3 (u :: acc)
                                end
                              else scanstring s3 (u :: acc)
                          | _ => scanstring s3 (u :: acc)
                          end
                      | [] => scanstring s3 (u :: acc)
                      end
                  end
              | _ => Raise JSONDecodeError
              end
            else
              match backslash e with
              | Some x => scanstring s2 (x :: acc)
              | None => Raise JSONDecodeError
              end
        end
      else if (c <? 32)%N then Raise JSONDecodeError
      else scanstring s1 (c :: acc)
  end.

Fixpoint take_digits (s : str) : str * str :=
  match s with
  | c :: s' =>
      if is_digit c
      then let '(d, r) := take_digits s' in (c :: d, r)
      else ([], s)
  | [] => ([], [])
  end.

(** The integer part of a number: an optional minus sign, then 0 or a
    non-zero digit followed by digits. *)
Definition match_int (s : str) : option (str * str) :=
  let '(sign, s1) :=
    match s with
    | c :: s' => if (c =? 45)%N then ([c], s') else ([], s)
    | [] => ([], s)
    end in
  match s1 with
  | c :: s2 =>
      if (c =? 48)%N then Some (sign ++ [c], s2)
      else if is_digit c
      then let '(d, r) := take_digits s2 in Some (sign ++ c :: d, r)
      else None
  | [] => None
  end.

(** The fraction: a dot followed by at least one digit. *)
Definition match_frac (s : str) : str * str :=
  match s with
  | p :: c :: s' =>
      if (p =? 46)%N && is_digit c
      then let '(d, r) := take_digits s' in (p :: c :: d, r)
      else ([], s)
  | _ => ([], s)
  end.

(** The exponent: e or E, an optional sign and at least one digit. *)
Definition match_exp (s : str) : str * str :=
  match s with
  | e :: s1 =>
      if ((e =? 101) || (e =? 69))%N then
        let '(sign, s2) :=
          match s1 with
          | c :: s' => if ((c =? 45) || (c =? 43))%N then ([c], s') else ([], s1)
          | [] => ([], s1)
          end in
        let '(d, r) := take_digits s2 in
        match d with
        | [] => ([], s)
        | _ => (e :: sign ++ d, r)
        end
      else ([], s)
  | [] => ([], s)
  end.

Definition match_number (s : str) : result (json * str) :=
  match match_int s with
  | None => Raise JSONDecodeError
  | Some (i, s1) =>
      let '(f, s2) := match_frac s1 in
      let '(e, s3) := match_exp s2 in
      match f ++ e with
      | [] => Ok (JInt (int_of_str i), s3)
      | _ => Ok (JFloat (i ++ f ++ e), s3)
      end
  end.

(** [s] without the prefix [p], when it starts with [p]. *)
Fixpoint strip_prefix (p s : str) : option str :=
  match p, s with
  | [], _ => Some s
  | a :: p', b :: s' => if (a =? b)%N then strip_prefix p' s' else None
  | _ :: _, [] => None
  end.

Definition lit_null : str := Eval cbv in py "null".
Definition lit_true : str := Eval cbv in py "true".
Definition lit_false : str := Eval cbv in py "false".
Definition lit_nan : str := Eval cbv in py "NaN".
Definition lit_inf : str := Eval cbv in py "Infinity".
Definition lit_neg_inf : str := Eval cbv in py "-Infinity".

Definition scan_literal (s : str) : option (json * str) :=
  match strip_prefix lit_null s with
  | Some r => Some (JNull, r)
  | None =>
  match strip_prefix lit_true s with
  | Some r => Some (JBool true, r)
  | None =>
  match strip_prefix lit_false s with
  | Some r => Some (JBool false, r)
  | None =>
  match strip_prefix lit_nan s with
  | Some r => Some (JFloat lit_nan, r)
  | None =>
  match strip_prefix lit_inf s with
  | Some r => Some (JFloat lit_inf, r)
  | None =>
  match strip_prefix lit_neg_inf s with
  | Some r => Some (JFloat lit_neg_inf, r)
  | None => None
  end end end end end end.

(** [scan_once]: one JSON value at the start of [s] and the text after it.
    [members] reads the pairs of an object from its first key to the closing
    brace, [elements] the values of an array to the closing bracket.  The
    recursion is on [fuel]; [loads] gives more fuel than [s] has characters,
    so it never runs out. *)
Fixpoint scan_once (fuel : nat) (s : str) {struct fuel}
    : result (json * str) :=
  match fuel with
  | O => Raise JSONDecodeError
  | S fuel =>
      match s with
      | [] => Raise JSONDecodeError
      | c :: s1 =>
          if (c =? 34)%N then
            '(k, r) ← scanstring s1 []; Ok (JStr k, r)
          else if (c =? 123)%N then
            match skip_ws s1 with
            | [] => Raise JSONDecodeError
            | c2 :: s2 =>
                if (c2 =? 125)%N then Ok (JObj [], s2)
                else '(kv, r) ← members fuel (c2 :: s2); Ok (JObj kv, r)
            end
          else if (c =? 91)%N then
            match skip_ws s1 with
            | [] => Raise JSONDecodeError
            | c2 :: s2 =>
                if (c2 =? 93)%N then Ok (JArr [], s2)
                else '(l, r) ← elements fuel (c2 :: s2); Ok (JArr l, r)
            end
          else
            match scan_literal s with
            | Some v => Ok v
            | None => match_number s
            end
      end
  end
with members (fuel : nat) (s : str) {struct fuel}
    : result (list (str * json) * str) :=
  match fuel with
  | O => Raise JSONDecodeError
  | S fuel =>
      match s with
      | [] => Raise JSONDecodeError
      | q :: s1 =>
          if (q =? 34)%N then
            '(k, s2) ← scanstring s1 [];
            match skip_ws s2 with
            | [] => Raise JSONDecodeError
            | c :: s3 =>
                if (c =? 58)%N then
                  '(v, s4) ← scan_once fuel (skip_ws s3);
                  match skip_ws s4 with
                  | [] => Raise JSONDecodeError
                  | d :: s5 =>
                      if (d =? 125)%N then Ok ([(k, v)], s5)
                      else if (d =? 44)%N then
                        '(kv, r) ← members fuel (skip_ws s5);
                        Ok ((k, v) :: kv, r)
                      else Raise JSONDecodeError
                  end
                else Raise JSONDecodeError
            end
          else Raise JSONDecodeError
      end
  end
with elements (fuel : nat) (s : str) {struct fuel}
    : result (list json * str) :=
  match fuel with
  | O => Raise JSONDecodeError
  | S fuel =>
      '(v, s1) ← scan_once fuel s;
      match skip_ws s1 with
      | [] => Raise JSONDecodeError
      | d :: s2 =>
          if (d =? 93)%N then Ok ([v], s2)
          else if (d =? 44)%N then
            '(l, r) ← elements fuel (skip_ws s2);
            Ok (v :: l, r)
          else Raise JSONDecodeError
      end
  end.

(** [json.loads(s)]: one value, surrounded by optional whitespace and
    nothing else. *)
Definition loads (s : str) : result json :=
  '(v, r) ← scan_once (S (length s)) (skip_ws s);
  match skip_ws r with
  | [] => Ok v
  | _ :: _ => Raise JSONDecodeError
  end.

(** [dict(pairs)]: a later pair overrides an earlier one with the same key. *)
Definition py_dict {V} (pairs : list (str * V)) : gmap str V :=
  foldl (λ d kv, <[kv.1 := kv.2]> d) ∅ pairs.

End Json.
Export Json.

(** ** The files the dataset reads and writes *)

Module Files.

(** The directory tree under [base_dir], decoded.  Image, instance raster and
    class raster are keyed by the manifest line they are named after
    ([JPEGImages/<line>.jpg], [SegmentationObject/<line>.png],
    [SegmentationClass/<line>.png]); a manifest is keyed by its split name and
    holds the text [f.read()] returns; [obj_list_file] is the content of the
    cache file at [self.obj_list_file], if it exists. *)
Record world := World {
  split_files : gmap str str;
  jpeg_images : gmap str image;
  object_masks : gmap str raster;
  class_masks : gmap str raster;
  obj_list_file : option str
}.

(** [open(path).read()] or [Image.open(path)] on a file that may be missing. *)
Definition read_file {V} (dir : gmap str V) (name : str) : result V :=
  match dir !! name with
  | Some v => Ok v
  | None => Raise FileNotFoundError
  end.

(** [os.path.isfile] *)
Definition isfile {V} (dir : gmap str V) (name : str) : bool :=
  bool_decide (is_Some (dir !! name)).

(** [open(self.obj_list_file, 'w')] followed by the writes of [text]. *)
Definition write_obj_list_file (w : world) (text : str) : world :=
  World (split_files w) (jpeg_images w) (object_masks w) (class_masks w)
        (Some text).

End Files.
Export Files.

(** ** class PascalVocDataset *)

Module Pascal.

(** The value of [sample['meta']]: the keys [image], [object], [category]
    and [im_size]. *)
Record meta := Meta {
  meta_image : str;
  meta_object : str;
  meta_category : Z;
  meta_im_size : nat * nat
}.

(** The values a sample holds. *)
Inductive value :=
| VImage (a : image)
| VArray (a : raster)
| VMeta (m : meta).

(** The dict returned by [__getitem__]. *)
Abbreviation sample := (gmap string value).

(** The attributes of [self] that the modelled methods use.  [images],
    [categories] and [masks] hold, for each image, the manifest line its file
    is named after; an entry [[ii, jj]] of [obj_list] is a pair. *)
Record dataset := Dataset {
  area_thres : Z;
  default : bool;
  retname : bool;
  split : list str;
  transform : option (sample → sample);
  im_ids : list str;
  images : list str;
  categories : list str;
  masks : list str;
  obj_dict : gmap str (list Z);
  obj_list : list (Z * Z)
}.

(** Assignments to [self.obj_dict] and [self.obj_list]. *)
Definition set_obj_dict (d : gmap str (list Z)) (self : dataset) : dataset :=
  Dataset (area_thres self) (default self) (retname self) (split self)
    (transform self) (im_ids self) (images self) (categories self)
    (masks self) d (obj_list self).

Definition set_obj_list (l : list (Z * Z)) (self : dataset) : dataset :=
  Dataset (area_thres self) (default self) (retname self) (split self)
    (transform self) (im_ids self) (images self) (categories self)
    (masks self) (obj_dict self) l.

(** [len(l)] *)
Definition len {A} (l : list A) : Z := Z.of_nat (length l).

(** A [for] loop over a list of integers, threading the variables the body
    assigns; an exception in the body ends the loop. *)
Fixpoint for_ {S} (l : list Z) (body : Z → S → result S) (s : S) : result S :=
  match l with
  | [] => Ok s
  | i :: l' => s' ← body i s; for_ l' body s'
  end.

(** *** [__init__], lines 56-78: the identifiers of the splits *)

(** Lines 66-75 for one line of a manifest; the state is
    [(im_ids, images, categories, masks)]. *)
Definition add_line (w : world) (line : str)
    (acc : list str * list str * list str * list str)
    : result (list str * list str * list str * list str) :=
  let '(ids, imgs, cats, msks) := acc in
  if negb (isfile (jpeg_images w) line) then Raise AssertionError
  else if negb (isfile (class_masks w) line) then Raise AssertionError
  else if negb (isfile (object_masks w) line) then Raise AssertionError
  else Ok (ids ++ [rstrip_nl line], imgs ++ [line], cats ++ [line],
           msks ++ [line]).

Fixpoint add_lines (w : world) (lines : list str)
    (acc : list str * list str * list str * list str)
    : result (list str * list str * list str * list str) :=
  match lines with
  | [] => Ok acc
  | line :: lines' => acc' ← add_line w line acc; add_lines w lines' acc'
  end.

(** Lines 61-75. *)
Fixpoint load_splits (w : world) (splits : list str)
    (acc : list str * list str * list str * list str)
    : result (list str * list str * list str * list str) :=
  match splits with
  | [] => Ok acc
  | splt :: splits' =>
      text ← read_file (split_files w) splt;
      acc' ← add_lines w (splitlines text) acc;
      load_splits w splits' acc'
  end.

(** *** [_check_preprocess] *)

(** A decoded array of integers as a category list. *)
Definition as_int (v : json) : option Z :=
  match v with
  | JInt z => Some z
  | _ => None
  end.
Definition as_cat_ids (v : json) : option (list Z) :=
  match v with
  | JArr l => mapM as_int l
  | _ => None
  end.
Definition as_catalog (kv : list (str * json)) : option (list (str * list Z)) :=
  mapM (λ p, c ← as_cat_ids p.2; Some (p.1, c)) kv.

(** [d.keys()] *)
Definition keys {V} (d : gmap str V) : list str := (map_to_list d).*1.

(** Lines 123-130: the answer of the check and [self] with [obj_dict] loaded.
    The decoded cache is kept when it maps strings to arrays of integers;
    another JSON object is outside the model, anything that is not an object
    has no [keys]. *)
Definition _check_preprocess (w : world) (self : dataset)
    : result (bool * dataset) :=
  match obj_list_file w with
  | None => Ok (false, self)
  | Some text =>
      v ← loads text;
      match v with
      | JObj kv =>
          match as_catalog kv with
          | Some pairs =>
              let d := py_dict pairs in
              Ok (bool_decide (sorted (keys d) = sorted (im_ids self)),
                  set_obj_dict d self)
          | None => Raise Unmodelled
          end
      | _ => Raise AttributeError
      end
  end.

(** *** [_preprocess] *)

(** Lines 135-156: the loop over the images; the state is [obj_dict]. *)
Definition preprocess_image (w : world) (self : dataset) (ii : Z)
    (d : gmap str (list Z)) : result (gmap str (list Z)) :=
  mask_path ← getitem (masks self) ii;
  _mask ← read_file (object_masks w) mask_path;
  n_obj ← n_objects _mask;
  cat_path ← getitem (categories self) ii;
  _cats ← read_file (class_masks w) cat_path;
  _cat_ids ← cat_ids_upto _mask _cats (area_thres self) n_obj;
  im_id ← getitem (im_ids self) ii;
  Ok (<[im_id := _cat_ids]> d).

(** One [outfile.write] of lines 159 and 161: [prefix] then the key in double
    quotes, a colon, a space and the dumped list. *)
Definition entry_text (self : dataset) (d : gmap str (list Z)) (prefix : str)
    (ii : Z) : result str :=
  im_id ← getitem (im_ids self) ii;
  _cat_ids ← dict_get d im_id;
  Ok (prefix ++ [34%N] ++ im_id ++ [34%N; 58%N; 32%N] ++ dumps _cat_ids).

(** Lines 158-162: the text written to the cache file. *)
Definition cache_text (self : dataset) (d : gmap str (list Z)) : result str :=
  first ← entry_text self d [123%N; 10%N; 9%N] 0;
  body ← for_ (range2 1 (len (im_ids self)))
            (λ ii text,
               e ← entry_text self d [44%N; 10%N; 9%N] ii; Ok (text ++ e))
            first;
  Ok (body ++ [10%N; 125%N; 10%N]).

(** Lines 132-164.  The file is opened for writing, hence emptied, before
    the first entry is formatted. *)
Definition _preprocess (w : world) (self : dataset)
    : result dataset * world :=
  match for_ (range (len (im_ids self))) (preprocess_image w self) ∅ with
  | Raise e => (Raise e, w)
  | Ok d =>
      match cache_text self d with
      | Raise e => (Raise e, write_obj_list_file w [])
      | Ok text => (Ok (set_obj_dict d self), write_obj_list_file w text)
      end
  end.

(** *** [__init__], lines 86-95: the list of objects *)

(** Lines 90-93 for one [jj]; the state is [(obj_list, flag)]. *)
Definition add_object (self : dataset) (ii jj : Z)
    (acc : list (Z * Z) * bool) : result (list (Z * Z) * bool) :=
  im_id ← getitem (im_ids self) ii;
  _cat_ids ← dict_get (obj_dict self) im_id;
  c ← getitem _cat_ids jj;
  if c =? -1 then Ok acc else Ok (acc.1 ++ [(ii, jj)], true).

(** Lines 88-95 for one [ii]; the state is [(obj_list, num_images)]. *)
Definition add_image (self : dataset) (ii : Z)
    (acc : list (Z * Z) * Z) : result (list (Z * Z) * Z) :=
  im_id ← getitem (im_ids self) ii;
  _cat_ids ← dict_get (obj_dict self) im_id;
  r ← for_ (range (len _cat_ids)) (add_object self ii) (acc.1, false);
  Ok (r.1, if r.2 : bool then acc.2 + 1 else acc.2).

(** Lines 86-95: [(obj_list, num_images)]. *)
Definition build_obj_list (self : dataset) : result (list (Z * Z) * Z) :=
  for_ (range (len (im_ids self))) (add_image self) ([], 0).

(** *** [_make_img_gt_point_pair] *)

(** Lines 188-193, one iteration; the state is
    [(_other_same_class, _other_classes)]. *)
Definition add_distractor (self : dataset) (_tmp : raster)
    (_im_ii _obj_ii obj_cat : Z) (ii : Z)
    (acc : bool_array * bool_array) : result (bool_array * bool_array) :=
  im_id ← getitem (im_ids self) _im_ii;
  _cat_ids ← dict_get (obj_dict self) im_id;
  ii_cat ← getitem _cat_ids (ii - 1);
  if (obj_cat =? ii_cat) && negb (ii =? _obj_ii + 1)
  then Ok (logical_or acc.1 (eq_scalar _tmp ii), acc.2)
  else if negb (ii =? _obj_ii + 1)
  then Ok (acc.1, logical_or acc.2 (eq_scalar _tmp ii))
  else Ok acc.

(** The six values returned at lines 195-197. *)
Record pair := Pair {
  p_img : image;
  p_target : raster;
  p_void_pixels : raster;
  p_other_classes : raster;
  p_other_same_class : raster;
  p_background : raster
}.

(** Lines 166-197. *)
Definition _make_img_gt_point_pair (w : world) (self : dataset) (index : Z)
    : result pair :=
  entry ← getitem (obj_list self) index;
  let _im_ii := entry.1 in
  let _obj_ii := entry.2 in
  img_path ← getitem (images self) _im_ii;
  _img ← read_file (jpeg_images w) img_path;
  mask_path ← getitem (masks self) _im_ii;
  _tmp0 ← read_file (object_masks w) mask_path;
  let _void_pixels := eq_scalar _tmp0 255 in
  let _tmp := zero_where _tmp0 _void_pixels in
  let _other_same_class := zeros_like _tmp in
  let _other_classes := zeros_like _tmp in
  let _background :=
    logical_and (eq_scalar _tmp 0) (logical_not _void_pixels) in
  if default self then
    Ok (Pair _img _tmp (astype_float _void_pixels)
          (astype_float _other_classes) (astype_float _other_same_class)
          (astype_float _background))
  else
    let _target := astype_float (eq_scalar _tmp (_obj_ii + 1)) in
    im_id ← getitem (im_ids self) _im_ii;
    _cat_ids ← dict_get (obj_dict self) im_id;
    obj_cat ← getitem _cat_ids _obj_ii;
    top ← np_max _tmp;
    others ← for_ (range2 1 (top + 1))
                (add_distractor self _tmp _im_ii _obj_ii obj_cat)
                (_other_same_class, _other_classes);
    Ok (Pair _img _target (astype_float _void_pixels)
          (astype_float others.2) (astype_float others.1)
          (astype_float _background)).

(** *** [__init__] *)

(** Lines 39-43: [split0] is the argument [split], a string or a list of
    strings that is sorted in place. *)
Definition split_names (split0 : str + list str) : list str :=
  match split0 with
  | inl s => [s]
  | inr l => sorted l
  end.

(** Lines 16-98: everything before the last statement.  The arguments
    [base_dir] and [image_size] only name the files and are not arguments
    here; the world [w] stands for the directory. *)
Definition init_objects (w : world) (split0 : str + list str)
    (transform0 : option (sample → sample)) (area_thres0 : Z)
    (preprocess default0 retname0 : bool) : result dataset * world :=
  let splits := split_names split0 in
  match load_splits w splits ([], [], [], []) with
  | Raise e => (Raise e, w)
  | Ok (ids, imgs, cats, msks) =>
      let self :=
        Dataset area_thres0 default0 retname0 splits transform0
          ids imgs cats msks ∅ [] in
      match _check_preprocess w self with
      | Raise e => (Raise e, w)
      | Ok (valid, self1) =>
          let '(r, w') :=
            if negb valid || preprocess
            then _preprocess w self1
            else (Ok self1, w) in
          (self2 ← r;
           objs ← build_obj_list self2;
           Ok (set_obj_list objs.1 self2), w')
      end
  end.

(** Lines 16-100: line 100 assembles the sample at position 1 and drops
    it. *)
Definition __init__ (w : world) (split0 : str + list str)
    (transform0 : option (sample → sample)) (area_thres0 : Z)
    (preprocess default0 retname0 : bool) : result dataset * world :=
  let '(r, w') :=
    init_objects w split0 transform0 area_thres0 preprocess default0
      retname0 in
  (self ← r; _ ← _make_img_gt_point_pair w' self 1; Ok self, w').

(** *** [__len__] and [__getitem__] *)

Definition __len__ (self : dataset) : Z := len (obj_list self).

(** Lines 106-121. *)
Definition __getitem__ (w : world) (self : dataset) (index : Z)
    : result sample :=
  p ← _make_img_gt_point_pair w self index;
  let sample0 : sample :=
    {[ "image" := VImage (p_img p);
       "gt" := VArray (p_target p);
       "void_pixels" := VArray (p_void_pixels p) ]} in
  sample1 ←
    (if retname self then
       entry ← getitem (obj_list self) index;
       let _im_ii := entry.1 in
       let _obj_ii := entry.2 in
       im_id ← getitem (im_ids self) _im_ii;
       _cat_ids ← dict_get (obj_dict self) im_id;
       category ← getitem _cat_ids _obj_ii;
       Ok (<["meta" :=
               VMeta (Meta im_id (str_of_int _obj_ii) category
                        (shape0 (p_img p), shape1 (p_img p)))]> sample0)
     else Ok sample0);
  match transform self with
  | Some f => Ok (f sample1)
  | None => Ok sample1
  end.

End Pascal.
Export Pascal.

(** ** The names of the files: lines 27-33, 46-54 and 62-68

    The world above is keyed by manifest line and split name.  This module
    gives the paths the source computes for them.  Its names are those of the
    source, so the module is not exported: [Paths.obj_list_file] is the path
    of the cache file, [obj_list_file w] its content. *)

Module Paths.

(** [b.startswith('/')] and [path.endswith('/')]. *)
Definition startswith_sep (b : str) : bool :=
  match b with
  | c :: _ => (c =? 47)%N
  | [] => false
  end.
Definition endswith_sep (path : str) : bool :=
  match last path with
  | Some c => (c =? 47)%N
  | None => false
  end.

(** One round of the loop of [posixpath.join]: a component that starts with
    a slash replaces the path; another one is appended, after a slash unless
    the path is empty or ends with one. *)
Definition join_component (path b : str) : str :=
  if startswith_sep b then b
  else match path with
       | [] => b
       | _ :: _ =>
           if endswith_sep path then path ++ b else path ++ [47%N] ++ b
       end.

(** [os.path.join(a, *p)] on a POSIX system. *)
Definition os_path_join (a : str) (p : list str) : str :=
  foldl join_component a p.

Definition JPEGImages : str := Eval cbv in py "JPEGImages".
Definition SegmentationObject : str := Eval cbv in py "SegmentationObject".
Definition SegmentationClass : str := Eval cbv in py "SegmentationClass".
Definition ImageSets : str := Eval cbv in py "ImageSets".
Definition Segmentation : str := Eval cbv in py "Segmentation".
Definition dot_txt : str := Eval cbv in py ".txt".
Definition dot_jpg : str := Eval cbv in py ".jpg".
Definition dot_png : str := Eval cbv in py ".png".
Definition underscore : str := Eval cbv in py "_".
Definition _instances : str := Eval cbv in py "_instances".
Definition _area_thres : str := Eval cbv in py "_area_thres-".

(** Lines 29, 31 and 32. *)
Definition _image_dir (base_dir : str) : str :=
  os_path_join base_dir [JPEGImages].
Definition _mask_dir (base_dir : str) : str :=
  os_path_join base_dir [SegmentationObject].
Definition _cat_dir (base_dir : str) : str :=
  os_path_join base_dir [SegmentationClass].

(** Lines 46-48. *)
Definition area_th_str (area_thres : Z) : str :=
  if area_thres =? 0 then [] else _area_thres ++ str_of_int area_thres.

(** Lines 50-51: the path of the cache file. *)
Definition obj_list_file (base_dir : str) (split : list str) (area_thres : Z)
    : str :=
  os_path_join base_dir
    [ImageSets; Segmentation;
     join underscore split ++ _instances ++ area_th_str area_thres
       ++ dot_txt].

(** Line 54. *)
Definition _splits_dir (base_dir : str) : str :=
  os_path_join base_dir [ImageSets; Segmentation].

(** Line 62: the path of the manifest of the split [splt]. *)
Definition manifest_file (base_dir splt : str) : str :=
  os_path_join (os_path_join (_splits_dir base_dir) [splt ++ dot_txt]) [].

(** Lines 66-68. *)
Definition _image (base_dir line : str) : str :=
  os_path_join (_image_dir base_dir) [line ++ dot_jpg].
Definition _cat (base_dir line : str) : str :=
  os_path_join (_cat_dir base_dir) [line ++ dot_png].
Definition _mask (base_dir line : str) : str :=
  os_path_join (_mask_dir base_dir) [line ++ dot_png].

End Paths.

(** ** [PascalVocDataset.__str__]

    [str] of a list is the [repr] of its items between brackets, and the
    [repr] of a string depends on which code points above 127 the Unicode
    database calls printable: the table is the variable [isprintable]. *)

Module PascalStr.

Section repr.
Variable isprintable : N → bool.

(** The digit of [n < 16] in "0123456789abcdef". *)
Definition hexdigit (n : N) : N :=
  if (n <? 10)%N then (48 + n)%N else (87 + n)%N.

(** The [k] lowest hexadecimal digits of [c], the highest first. *)
Definition hexdigits (k : nat) (c : N) : str :=
  (λ i, hexdigit (N.land (N.shiftr c (4 * N.of_nat i)) 15))
    <$> reverse (seq 0 k).

(** What [repr] writes for the character [c] of a string quoted with
    [quote]. *)
Definition repr_char (quote c : N) : str :=
  if ((c =? quote) || (c =? 92))%N then [92%N; c]
  else if (c =? 9)%N then [92%N; 116%N]
  else if (c =? 10)%N then [92%N; 110%N]
  else if (c =? 13)%N then [92%N; 114%N]
  else if ((c <? 32) || (c =? 127))%N then 92%N :: 120%N :: hexdigits 2 c
  else if (c <? 127)%N then [c]
  else if isprintable c then [c]
  else if (c <=? 255)%N then 92%N :: 120%N :: hexdigits 2 c
  else if (c <=? 65535)%N then 92%N :: 117%N :: hexdigits 4 c
  else 92%N :: 85%N :: hexdigits 8 c.

(** The quote of [repr(s)]: a double quote when [s] holds a single quote and
    no double quote, a single quote otherwise. *)
Definition repr_quote (s : str) : N :=
  if bool_decide (39%N ∈ s) && negb (bool_decide (34%N ∈ s))
  then 34%N else 39%N.

(** [repr(s)] for a string. *)
Definition repr_str (s : str) : str :=
  let quote := repr_quote s in
  [quote] ++ concat (repr_char quote <$> s) ++ [quote].

(** [str(l)] for a list of strings. *)
Definition str_of_list (l : list str) : str :=
  [91%N] ++ join [44%N; 32%N] (repr_str <$> l) ++ [93%N].

Definition VOC2012_split : str := Eval cbv in py "VOC2012(split=".
Definition comma_area_thres : str := Eval cbv in py ",area_thres=".

(** Lines 199-200. *)
Definition __str__ (self : dataset) : str :=
  VOC2012_split ++ str_of_list (split self) ++ comma_area_thres
    ++ str_of_int (area_thres self) ++ [41%N].

End repr.

End PascalStr.
Export PascalStr.

(** ** class ToTensor *)

Module ToTensor.

(** [sample[k]] *)
Definition sample_get (s : sample) (k : string) : result value :=
  match s !! k with
  | Some v => Ok v
  | None => Raise KeyError
  end.

(** The number of channels of an H x W x C array, read from its first
    pixel. *)
Definition n_channels (a : image) : nat :=
  match a with
  | (px :: _) :: _ => length px
  | _ => O
  end.

(** [a.transpose((2, 0, 1))] on an H x W x C array: the C x H x W array [t]
    with [t[c][h][w] = a[h][w][c]].  An array without pixels has no channel
    here. *)
Definition transpose_2_0_1 (a : image) : image :=
  (λ c, map (map (λ px : list Z, px !!! c)) a) <$> seq 0 (n_channels a).

(** [astype(np.uint8)] on one element: the value modulo 256, which leaves a
    value of 0..255 as it is. *)
Definition astype_uint8 (x : Z) : Z := x mod 256.

(** Lines 205-211.  The values of the dict are computed in the order they
    are written: the input first.  A two-dimensional array has no axis 2 to
    transpose, and the [meta] dict has neither [transpose] nor [astype]. *)
Definition __call__ (sample0 : sample) : result sample :=
  input ← sample_get sample0 "input";
  input_t ←
    match input with
    | VImage a => Ok (VImage (transpose_2_0_1 a))
    | VArray _ => Raise ValueError
    | VMeta _ => Raise AttributeError
    end;
  annotation ← sample_get sample0 "annotation";
  annotation_t ←
    match annotation with
    | VImage a => Ok (VImage (map (map (map astype_uint8)) a))
    | VArray a => Ok (VArray (map (map astype_uint8) a))
    | VMeta _ => Raise AttributeError
    end;
  Ok ({[ "input" := input_t; "annotation" := annotation_t ]} : sample).

End ToTensor.

(** ** Specification-side notions *)

Module Spec.

(** The number of pixels of value [j]. *)
Definition pixel_count (R : raster) (j : Z) : nat :=
  length (filter (λ v, v = j) (flatten R)).

(** The value at row [r], column [c]. *)
Definition pixel {A} (a : list (list A)) (r c : nat) : option A :=
  a !! r ≫= λ row, row !! c.

(** Row-major order of positions. *)
Definition rowmajor_le (p q : nat * nat) : Prop :=
  (p.1 < q.1)%nat ∨ (p.1 = q.1 ∧ (p.2 ≤ q.2)%nat).

(** [p] is the first pixel of value [j] in row-major order. *)
Definition first_pixel (R : raster) (j : Z) (p : nat * nat) : Prop :=
  pixel R p.1 p.2 = Some j ∧
  ∀ q, pixel R q.1 q.2 = Some j → rowmajor_le p q.

(** The distinct instance ids of a raster: its values other than the
    background 0 and the boundary 255. *)
Definition instance_ids (R : raster) : gset Z :=
  list_to_set (filter (λ v, v ≠ 0 ∧ v ≠ 255) (flatten R)).

(** [n] is the largest value of the raster other than the boundary 255. *)
Definition largest_non_boundary (R : raster) (n : Z) : Prop :=
  n ∈ flatten R ∧ n ≠ 255 ∧ ∀ v, v ∈ flatten R → v ≠ 255 → v ≤ n.

(** [cats] has an entry for each j = 1..n: the category at the first pixel
    of value j when more than [t] pixels have that value, -1 otherwise. *)
Definition records_categories (R C : raster) (t n : Z) (cats : list Z)
    : Prop :=
  length cats = Z.to_nat n ∧
  ∀ j, 1 ≤ j ≤ n →
    (t < Z.of_nat (pixel_count R j) →
       ∃ p v, first_pixel R j p ∧ pixel C p.1 p.2 = Some v ∧
              cats !! Z.to_nat (j - 1) = Some v) ∧
    (Z.of_nat (pixel_count R j) ≤ t → cats !! Z.to_nat (j - 1) = Some (-1)).

(** The positions [jj] of the entries of [cats] other than -1, paired with
    the image position [ii]. *)
Definition objects_of_cats (ii : Z) (cats : list Z) : list (Z * Z) :=
  (λ jj, (ii, jj)) <$>
    filter (λ jj, cats !! Z.to_nat jj ≠ Some (-1)) (seqZ 0 (len cats)).

(** The objects of all images, image by image in the order of [ids]. *)
Definition objects_of (ids : list str) (d : gmap str (list Z))
    : list (Z * Z) :=
  concat (imap (λ i id, objects_of_cats (Z.of_nat i) (d !!! id)) ids).

(** The number of entries other than -1. *)
Definition count_valid (cats : list Z) : nat :=
  length (filter (λ c, c ≠ -1) cats).

(** The three files of a manifest line exist. *)
Definition files_exist (w : world) (line : str) : Prop :=
  is_Some (jpeg_images w !! line) ∧ is_Some (class_masks w !! line) ∧
  is_Some (object_masks w !! line).

(** What [__init__] establishes before its last statement. *)
Definition well_formed (w : world) (self : dataset) : Prop :=
  images self = im_ids self ∧ masks self = im_ids self ∧
  categories self = im_ids self ∧
  Forall (files_exist w) (im_ids self) ∧
  Forall (λ id, is_Some (obj_dict self !! id)) (im_ids self) ∧
  (∀ id, is_Some (obj_dict self !! id) → id ∈ im_ids self) ∧
  obj_list self = objects_of (im_ids self) (obj_dict self).

(** The category list the index builder computes from the rasters of the
    image [id], when both exist. *)
Definition built_cat_ids (w : world) (area_thres : Z) (id : str)
    : option (result (list Z)) :=
  m ← object_masks w !! id;
  c ← class_masks w !! id;
  Some (image_cat_ids m c area_thres).

(** Every catalog entry belongs to a loaded identifier and is what the index
    builder computes from the rasters of its image. *)
Definition catalog_agrees (w : world) (self : dataset) : Prop :=
  map_Forall (λ id cats,
      id ∈ im_ids self ∧
      built_cat_ids w (area_thres self) id = Some (Ok cats))
    (obj_dict self).

(** The raster value after line 176: the boundary label becomes 0. *)
Definition void_zeroed (x : Z) : Z := if x =? 255 then 0 else x.

(** 0.0 / 1.0 for a boolean. *)
Definition float_of_bool (b : bool) : Z := if b then 1 else 0.

(** What [_make_img_gt_point_pair] computes in per-object mode from the raw
    raster [raw], for the object at [entry]. *)
Definition per_object_masks (self : dataset) (entry : Z * Z) (raw : raster)
    (p : pair) : Prop :=
  ∃ (id : str) (cats : list Z) (obj_cat top : Z) (Fs Fo : Z → bool),
    getitem (im_ids self) entry.1 = Ok id ∧
    obj_dict self !! id = Some cats ∧
    getitem cats entry.2 = Ok obj_cat ∧
    np_max (map (map void_zeroed) raw) = Ok top ∧
    p_target p
      = map (map (λ x, float_of_bool (void_zeroed x =? entry.2 + 1))) raw ∧
    p_other_same_class p
      = map (map (λ x, float_of_bool (Fs (void_zeroed x)))) raw ∧
    p_other_classes p
      = map (map (λ x, float_of_bool (Fo (void_zeroed x)))) raw ∧
    (∀ v, Fs v = true ↔
       1 ≤ v ≤ top ∧ v ≠ entry.2 + 1 ∧
       cats !! Z.to_nat (v - 1) = Some obj_cat) ∧
    (∀ v, Fo v = true ↔
       1 ≤ v ≤ top ∧ v ≠ entry.2 + 1 ∧
       ∃ c, cats !! Z.to_nat (v - 1) = Some c ∧ c ≠ obj_cat).

(** What [_make_img_gt_point_pair] computes in default mode. *)
Definition default_masks (raw : raster) (p : pair) : Prop :=
  p_target p = map (map void_zeroed) raw ∧
  p_other_classes p = map (map (λ _, 0)) raw ∧
  p_other_same_class p = map (map (λ _, 0)) raw.

(** An identifier that the cache file can hold between double quotes as it
    is: no double quote, no backslash, no control character. *)
Definition plain_char (c : N) : Prop := c ≠ 34%N ∧ c ≠ 92%N ∧ (32 ≤ c)%N.
Definition plain_id (id : str) : Prop := Forall plain_char id.

End Spec.
Export Spec.

(** ** Notions used in the proofs *)

Module Aux.

(** The state of the loop that reads the manifests: the four lists are the
    lines read so far, and the files of every line exist. *)
Definition loaded (w : world)
    (acc : list str * list str * list str * list str) : Prop :=
  ∃ lines, acc = (lines, lines, lines, lines) ∧ Forall (files_exist w) lines.

(** The text after a number in the output of [dumps]: a comma or the closing
    bracket. *)
Definition ends_number (rest : str) : Prop :=
  match rest with
  | c :: _ => c = 44%N ∨ c = 93%N
  | [] => False
  end.

(** One entry of the cache file, followed by [tail]. *)
Definition entry_then (id : str) (zs : list Z) (tail : str) : str :=
  34%N :: id ++ 34%N :: 58%N :: 32%N :: (dumps zs ++ tail).

(** The entries of the cache file from the first key to the closing brace,
    followed by [rest]. *)
Fixpoint members_text (items : list (str * list Z)) (rest : str) : str :=
  match items with
  | [] => rest
  | it :: items' =>
      entry_then it.1 it.2
        match items' with
        | [] => 10%N :: 125%N :: rest
        | _ :: _ => 44%N :: 10%N :: 9%N :: members_text items' rest
        end
  end.

Definition json_item (it : str * list Z) : str * json :=
  (it.1, JArr (JInt <$> it.2)).

End Aux.
Export Aux.

(** ** A small dataset *)

Module Example.

Definition train : str := Eval cbv in py "train".
Definition a : str := Eval cbv in py "a".
Definition b : str := Eval cbv in py "b".

(** The manifest [train.txt]: the two lines [a] and [b]. *)
Definition manifest : str := a ++ [10%N] ++ b ++ [10%N].

Definition img_a : image := [[[10; 20; 30]; [11; 21; 31]; [12; 22; 32]; [13; 23; 33]]].
Definition img_b : image := [[[40; 50; 60]; [41; 51; 61]; [42; 52; 62]]].

(** Image [a] has the instances 1 (one pixel, category 5) and 2 (two pixels,
    category 9); image [b] has a boundary pixel and instance 1 (two pixels,
    category 5). *)
Definition ex_world : world :=
  World {[ train := manifest ]}
        {[ a := img_a; b := img_b ]}
        {[ a := [[0; 1; 2; 2]]; b := [[255; 1; 1]] ]}
        {[ a := [[0; 5; 9; 9]]; b := [[255; 5; 5]] ]}
        None.

Definition no_dataset : dataset :=
  Dataset 0 false false [] None [] [] [] [] ∅ [].

Definition dataset_of (r : result dataset * world) : dataset :=
  match r.1 with
  | Ok ds => ds
  | Raise _ => no_dataset
  end.

(** Per-object mode, threshold 0. *)
Definition ex_init : result dataset * world :=
  __init__ ex_world (inl train) None 0 false false true.
Definition ex_ds : dataset := dataset_of ex_init.
Definition ex_world' : world := ex_init.2.

(** Per-object mode, threshold 1: instance 1 of image [a] is filtered. *)
Definition ex_init_thres : result dataset * world :=
  __init__ ex_world (inl train) None 1 false false true.
Definition ex_ds_thres : dataset := dataset_of ex_init_thres.

(** The sample at position 0 of [ex_ds_thres]. *)
Definition ex_pair_thres : pair :=
  Pair img_a [[0; 0; 1; 1]] [[0; 0; 0; 0]] [[0; 1; 0; 0]] [[0; 0; 0; 0]]
    [[1; 0; 0; 0]].

(** Default mode. *)
Definition ex_init_default : result dataset * world :=
  __init__ ex_world (inl train) None 0 false true true.
Definition ex_ds_default : dataset := dataset_of ex_init_default.

(** The split [train] listed twice. *)
Definition ex_init_twice : result dataset * world :=
  __init__ ex_world (inr [train; train]) None 0 false false true.
Definition ex_ds_twice : dataset := dataset_of ex_init_twice.

(** A cache file that is not JSON. *)
Definition ex_world_malformed : world :=
  write_obj_list_file ex_world [123%N].

(** An image named [a\n]: the letter a, a backslash and the letter n. *)
Definition a_bs : str := [97%N; 92%N; 110%N].
Definition ex_world_bs : world :=
  World {[ train := a_bs ++ [10%N] ]}
        {[ a_bs := img_a ]}
        {[ a_bs := [[0; 1; 2; 2]] ]}
        {[ a_bs := [[0; 5; 9; 9]] ]}
        None.
Definition ex_init_bs : result dataset * world :=
  __init__ ex_world_bs (inl train) None 0 false false true.
Definition ex_ds_bs : dataset := dataset_of ex_init_bs.

End Example.
Export Example.

(** ** The specification's statements that fail on the code *)

Module Claims.

(** A value stored in a sample under some key. *)
Definition holds (s : sample) (v : value) : Prop := ∃ k : string, s !! k = Some v.

(** [__getitem__] returns the image, all five masks and, when enabled, the
    metadata. *)
Definition getitem_claim (w : world) (self : dataset) (index : Z) : Prop :=
  ∃ (s : sample) (p : pair),
    __getitem__ w self index = Ok s ∧
    _make_img_gt_point_pair w self index = Ok p ∧
    holds s (VImage (p_img p)) ∧
    holds s (VArray (p_target p)) ∧
    holds s (VArray (p_void_pixels p)) ∧
    holds s (VArray (p_other_classes p)) ∧
    holds s (VArray (p_other_same_class p)) ∧
    holds s (VArray (p_background p)) ∧
    (retname self = true → ∃ m, holds s (VMeta m)).

(** The index builder records the categories for every threshold. *)
Definition index_builder_claim (R C : raster) (t : Z) : Prop :=
  same_shape R C → ∀ n, largest_non_boundary R n →
  ∃ cats, image_cat_ids R C t = Ok cats ∧ records_categories R C t n cats.

(** [w] without its cache file. *)
Definition remove_obj_list_file (w : world) : world :=
  World (split_files w) (jpeg_images w) (object_masks w) (class_masks w) None.

(** A cache file that cannot be parsed as a mapping. *)
Definition malformed (text : str) : Prop := ∀ kv, loads text ≠ Ok (JObj kv).

(** Construction treats a malformed cache file as an absent one. *)
Definition malformed_cache_claim (w : world) (split0 : str + list str)
    (transform0 : option (sample → sample)) (area_thres0 : Z)
    (preprocess default0 retname0 : bool) : Prop :=
  ∀ text, obj_list_file w = Some text → malformed text →
  __init__ w split0 transform0 area_thres0 preprocess default0 retname0
  = __init__ (remove_obj_list_file w) split0 transform0 area_thres0
      preprocess default0 retname0.

(** The catalog parsed from the cache file that [_preprocess] writes is the
    catalog [_preprocess] built. *)
Definition round_trip_claim (w : world) (self : dataset) : Prop :=
  ∀ self' w', _preprocess w self = (Ok self', w') →
  ∃ valid self'', _check_preprocess w' self = Ok (valid, self'') ∧
                  obj_dict self'' = obj_dict self'.

(** The category list is as long as the image has distinct instance ids. *)
Definition cat_list_length_claim (R C : raster) (t : Z) : Prop :=
  same_shape R C →
  ∃ cats, image_cat_ids R C t = Ok cats ∧
          length cats = size (instance_ids R).

(** The entries other than -1, and all the entries, of the lists of the
    catalog. *)
Definition catalog_valid_count (d : gmap str (list Z)) : nat :=
  sum_list_with (λ kv, count_valid kv.2) (map_to_list d).
Definition catalog_instance_count (d : gmap str (list Z)) : nat :=
  sum_list_with (λ kv, length kv.2) (map_to_list d).

(** [__len__] counts the entries other than -1 of the catalog. *)
Definition size_claim (w : world) (split0 : str + list str)
    (transform0 : option (sample → sample)) (area_thres0 : Z)
    (preprocess default0 retname0 : bool) : Prop :=
  ∀ ds w',
    __init__ w split0 transform0 area_thres0 preprocess default0 retname0
    = (Ok ds, w') →
    __len__ ds = Z.of_nat (catalog_valid_count (obj_dict ds)) ∧
    __len__ ds ≤ Z.of_nat (catalog_instance_count (obj_dict ds)) ∧
    obj_list ds = objects_of (im_ids ds) (obj_dict ds).

(** The dict that [__getitem__] builds at lines 108-116. *)
Definition sample_of (retname0 : bool) (p : pair) (m : meta) : sample :=
  let sample0 : sample :=
    {[ "image" := VImage (p_img p);
       "gt" := VArray (p_target p);
       "void_pixels" := VArray (p_void_pixels p) ]} in
  if retname0 then <["meta" := VMeta m]> sample0 else sample0.

(** Lines 118-121. *)
Definition returned (transform0 : option (sample → sample)) (s : sample)
    : sample :=
  match transform0 with
  | Some f => f s
  | None => s
  end.

(** The masks that are set (1.0) at a pixel. *)
Definition masks_set_at (p : pair) (r c : nat) : list raster :=
  filter (λ m : raster, pixel m r c = Some 1)
    [p_target p; p_other_same_class p; p_other_classes p; p_void_pixels p;
     p_background p].

End Claims.
Export Claims.

(** ** Notions for the further properties *)

Module Behaviour.

(** [self] as [__init__] has it when the manifests are read: lines 27-78. *)
Definition unindexed (area_thres0 : Z) (default0 retname0 : bool)
    (splits : list str) (transform0 : option (sample → sample))
    (lines : list str) : dataset :=
  Dataset area_thres0 default0 retname0 splits transform0 lines lines lines
    lines ∅ [].

(** A raster as the decoded files hold it: every value is a byte. *)
Definition uint8_raster (R : raster) : Prop :=
  Forall (λ v, 0 ≤ v ≤ 255) (flatten R).

(** The instance rasters of the directory are arrays of bytes. *)
Definition uint8_masks (w : world) : Prop :=
  map_Forall (λ _ R, uint8_raster R) (object_masks w).

(** Every value of the array is 0.0 or 1.0. *)
Definition binary (m : raster) : Prop :=
  Forall (λ v, v = 0 ∨ v = 1) (flatten m).

(** A line of text: no character that [splitlines] breaks lines at. *)
Definition one_line (l : str) : Prop :=
  Forall (λ c, is_linebreak c = false) l.

(** The text of the lines [lines], each ended by [eol]. *)
Definition text_of_lines (eol : str) (lines : list str) : str :=
  concat ((λ l, l ++ eol) <$> lines).

(** The directory that [os.path.join(base_dir, name)] puts a relative [name]
    in: [base_dir] with a slash at its end, or nothing for an empty
    [base_dir]. *)
Definition dir_prefix (base_dir : str) : str :=
  match base_dir with
  | [] => []
  | _ :: _ =>
      if Paths.endswith_sep base_dir then base_dir else base_dir ++ [47%N]
  end.

(** A name that does not start with a slash. *)
Definition relative (name : str) : Prop := Paths.startswith_sep name = false.

(** The name of the cache file in its directory. *)
Definition cache_name (split : list str) (area_thres : Z) : str :=
  join Paths.underscore split ++ Paths._instances
    ++ Paths.area_th_str area_thres ++ Paths.dot_txt.



(** A Python string: every code point is at most 0x10FFFF. *)
Definition code_points (s : str) : Prop := Forall (λ c, (c ≤ 1114111)%N) s.

(** The value of a digit of [hexdigit], and of a hexadecimal numeral. *)
Definition unhexdigit (d : N) : N :=
  if (d <? 58)%N then (d - 48)%N else (d - 87)%N.
Definition unhex (ds : str) : N :=
  foldl (λ acc d, (acc * 16 + unhexdigit d)%N) 0%N ds.

(** The character that [repr] wrote at the start of [s] for a string quoted
    with [quote], and the text after it; nothing at the closing quote. *)
Definition unrepr_char (quote : N) (s : str) : option (N * str) :=
  match s with
  | [] => None
  | c :: r =>
      if (c =? quote)%N then None
      else if (c =? 92)%N then
        match r with
        | [] => None
        | e :: r1 =>
            if (e =? 116)%N then Some (9%N, r1)
            else if (e =? 110)%N then Some (10%N, r1)
            else if (e =? 114)%N then Some (13%N, r1)
            else if (e =? 120)%N then Some (unhex (take 2 r1), drop 2 r1)
            else if (e =? 117)%N then Some (unhex (take 4 r1), drop 4 r1)
            else if (e =? 85)%N then Some (unhex (take 8 r1), drop 8 r1)
            else Some (e, r1)
        end
      else Some (c, r)
  end.

(** The items of a list as [str] writes them, from the first one to the
    closing bracket, followed by [rest]. *)
Fixpoint items_text (isprintable : N → bool) (l : list str) (rest : str)
    : str :=
  match l with
  | [] => rest
  | x :: l' =>
      repr_str isprintable x ++
        match l' with
        | [] => 93%N :: rest
        | _ :: _ => 44%N :: 32%N :: items_text isprintable l' rest
        end
  end.

End Behaviour.
Export Behaviour.

(** ** Further scenarios *)

Module Scenarios.

Definition val : str := Eval cbv in py "val".

(** Two splits: [train] lists the image [a], [val] the image [b]. *)
Definition ex_world_splits : world :=
  World {[ train := a ++ [10%N]; val := b ++ [10%N] ]}
        (jpeg_images ex_world) (object_masks ex_world) (class_masks ex_world)
        None.

(** A split whose manifest has no line. *)
Definition ex_world_empty : world := World {[ train := [] ]} ∅ ∅ ∅ None.

(** The sample at position 0 of the example dataset, as
    [_make_img_gt_point_pair] and as [__getitem__] return it. *)
Definition ex_pair : pair :=
  Pair img_a [[0; 1; 0; 0]] [[0; 0; 0; 0]] [[0; 0; 1; 1]] [[0; 0; 0; 0]]
    [[1; 0; 0; 0]].
Definition ex_sample : sample :=
  match __getitem__ ex_world' ex_ds 0 with
  | Ok s => s
  | Raise _ => ∅
  end.


(** A base directory, and the split names [a], [b] and [a_b]. *)
Definition VOC2012 : str := Eval cbv in py "/data/VOC2012".
Definition a_b : str := Eval cbv in py "a_b".

End Scenarios.
Export Scenarios.

(** * Properties *)

Module PyFacts.

Lemma getitem_nat {A} (l : list A) (i : nat) :
  getitem l (Z.of_nat i) = match l !! i with Some x => Ok x | None => Raise IndexError end.
Proof.
  unfold getitem.
  destruct (Z.ltb_spec (Z.of_nat i) 0); [lia|].
  destruct (Z.ltb_spec (Z.of_nat i) 0); [lia|].
  by rewrite Nat2Z.id.
Qed.

Lemma getitem_ok {A} (l : list A) (i : Z) (x : A) :
  0 ≤ i → getitem l i = Ok x ↔ l !! Z.to_nat i = Some x.
Proof.
  intros Hi. rewrite <- (Z2Nat.id i) at 1 by done. rewrite getitem_nat.
  destruct (l !! Z.to_nat i); split; congruence.
Qed.

Lemma getitem_last {A} (l : list A) (x : A) :
  getitem (l ++ [x]) (-1) = Ok x.
Proof.
  unfold getitem. simpl. rewrite length_app. simpl.
  destruct (Z.ltb_spec (-1 + Z.of_nat (length l + 1)) 0); [lia|].
  rewrite list_lookup_middle; [done | lia].
Qed.

Lemma getitem_nil {A} (i : Z) : getitem (@nil A) i = Raise IndexError.
Proof.
  unfold getitem. simpl. destruct (i <? 0) eqn:E.
  - rewrite Z.add_0_r, E. done.
  - rewrite E. done.
Qed.

Lemma getitem_last2 {A} (l : list A) (x y : A) :
  getitem (l ++ [y; x]) (-2) = Ok y.
Proof.
  unfold getitem. simpl. rewrite length_app. simpl.
  destruct (Z.ltb_spec (-2 + Z.of_nat (length l + 2)) 0); [lia|].
  rewrite list_lookup_middle; [done | lia].
Qed.

Lemma getitem_single_last2 {A} (x : A) : getitem [x] (-2) = Raise IndexError.
Proof. reflexivity. Qed.

Lemma bind_ok {A B} (m : result A) (f : A → result B) (b : B) :
  m ≫= f = Ok b ↔ ∃ a, m = Ok a ∧ f a = Ok b.
Proof.
  destruct m; simpl; split.
  - eauto.
  - by intros (? & [= ->] & ?).
  - done.
  - by intros (? & ? & ?).
Qed.

(** [mapM] succeeds exactly when its function succeeds on every element. *)
Lemma mapM_ok {A B} (f : A → result B) (l : list A) (k : list B) :
  mapM f l = Ok k ↔ Forall2 (λ x y, f x = Ok y) l k.
Proof.
  revert k. induction l as [|x l IH]; intros k; simpl.
  - split; [intros [= <-]; constructor | by inversion 1].
  - split.
    + intros H. apply bind_ok in H as (y & Hy & H).
      apply bind_ok in H as (k' & Hk & [= <-]).
      constructor; [done | by apply IH].
    + inversion 1 as [|? y ? k' Hy Hk]; subst.
      apply bind_ok. exists y. split; [done|].
      apply bind_ok. exists k'. split; [by apply IH | done].
Qed.

Lemma mapM_total {A B} (f : A → result B) (l : list A) :
  (∀ x, x ∈ l → ∃ y, f x = Ok y) → ∃ k, mapM f l = Ok k.
Proof.
  induction l as [|x l IH]; intros H.
  - by exists [].
  - destruct (H x) as [y Hy]; [left|].
    destruct IH as [k Hk]; [intros; apply H; by right|].
    exists (y :: k). apply mapM_ok. constructor; [done | by apply mapM_ok].
Qed.

End PyFacts.
Import PyFacts.

Module NpFacts.

Lemma elem_of_insert_unique (x y : Z) (l : list Z) :
  y ∈ insert_unique x l ↔ y = x ∨ y ∈ l.
Proof.
  induction l as [|z l IH]; simpl.
  - rewrite elem_of_cons. tauto.
  - destruct (Z.ltb_spec x z); [by rewrite elem_of_cons|].
    destruct (Z.eqb_spec x z) as [->|].
    + rewrite elem_of_cons. tauto.
    + rewrite !elem_of_cons, IH. tauto.
Qed.

Lemma insert_unique_sorted (x : Z) (l : list Z) :
  StronglySorted Z.lt l → StronglySorted Z.lt (insert_unique x l).
Proof.
  induction 1 as [|z l Hl IH Hz]; simpl.
  - repeat constructor.
  - destruct (Z.ltb_spec x z).
    + constructor; [by constructor|].
      constructor; [done|]. eapply Forall_impl; [exact Hz|]. simpl. lia.
    + destruct (Z.eqb_spec x z); [by constructor|].
      constructor; [done|].
      apply Forall_forall. intros y Hy.
      apply elem_of_insert_unique in Hy as [->|Hy]; [lia|].
      by eapply Forall_forall in Hz.
Qed.

Lemma elem_of_unique (R : raster) (v : Z) : v ∈ unique R ↔ v ∈ flatten R.
Proof.
  unfold unique. induction (flatten R) as [|x l IH]; simpl; [done|].
  rewrite elem_of_insert_unique, IH, elem_of_cons. tauto.
Qed.

Lemma unique_sorted (R : raster) : StronglySorted Z.lt (unique R).
Proof.
  unfold unique. induction (flatten R); simpl; [constructor|].
  by apply insert_unique_sorted.
Qed.

(** *** [np.where] *)

Lemma where_row_length (r c : nat) (row : list Z) (j : Z) :
  length (where_row r c (map (λ x, x =? j) row))
  = length (filter (λ v, v = j) row).
Proof.
  revert c. induction row as [|x row IH]; intros c; simpl; [done|].
  rewrite filter_cons. destruct (Z.eqb_spec x j), (decide (x = j)); try done;
    simpl; by rewrite IH.
Qed.

Lemma where_from_length (r : nat) (R : raster) (j : Z) :
  length (where_from r (eq_scalar R j)) = pixel_count R j.
Proof.
  unfold pixel_count, flatten. revert r.
  induction R as [|row R IH]; intros r; simpl; [done|].
  rewrite length_app, filter_app, length_app, where_row_length.
  f_equal. apply IH.
Qed.

Lemma where_row_nil (r c : nat) (row : list bool) :
  where_row r c row = [] → ∀ i, row !! i ≠ Some true.
Proof.
  revert c. induction row as [|b row IH]; intros c Hnil i; [done|].
  simpl in Hnil. destruct b; [done|]. simpl in Hnil.
  destruct i as [|i]; [done|]. simpl. by eapply IH.
Qed.

Lemma where_row_head (r c : nat) (row : list bool) p l :
  where_row r c row = p :: l →
  p.1 = r ∧ (c ≤ p.2)%nat ∧ row !! (p.2 - c)%nat = Some true ∧
  ∀ i, row !! i = Some true → (p.2 ≤ c + i)%nat.
Proof.
  revert c. induction row as [|b row IH]; intros c; simpl; [done|].
  destruct b; simpl.
  - intros [= <- _]. simpl. rewrite Nat.sub_diag. split_and!; [done|lia|done|lia].
  - intros H. apply IH in H as (H1 & H2 & H3 & H4).
    split_and!; [done|lia| |].
    + replace (p.2 - c)%nat with (S (p.2 - S c)) by lia. done.
    + intros [|i]; [done|]. simpl. intros Hi. apply H4 in Hi. lia.
Qed.

Lemma where_from_head (r : nat) (b : bool_array) p l :
  where_from r b = p :: l →
  (r ≤ p.1)%nat ∧ pixel b (p.1 - r)%nat p.2 = Some true ∧
  ∀ i c, pixel b i c = Some true → rowmajor_le p ((r + i)%nat, c).
Proof.
  revert r. induction b as [|row b IH]; intros r; simpl; [done|].
  destruct (where_row r 0 row) as [|p' l'] eqn:Hrow; simpl.
  - intros H. apply IH in H as (H1 & H2 & H3).
    split; [lia|]. split.
    + replace (p.1 - r)%nat with (S (p.1 - S r)) by lia. done.
    + intros [|i] c; unfold pixel; simpl.
      * intros Hc. by eapply where_row_nil in Hrow.
      * intros Hc. specialize (H3 i c Hc).
        unfold rowmajor_le in *. simpl in *. lia.
  - intros [= -> _].
    apply where_row_head in Hrow as (H1 & H2 & H3 & H4).
    split; [lia|]. split.
    + rewrite H1, Nat.sub_diag. unfold pixel. simpl.
      by rewrite Nat.sub_0_r in H3.
    + intros [|i] c; unfold pixel, rowmajor_le; simpl.
      * intros Hc. apply H4 in Hc. lia.
      * intros _. lia.
Qed.

Lemma pixel_eq_scalar (R : list (list Z)) (j : Z) (r c : nat) :
  pixel (eq_scalar R j) r c = Some true ↔ pixel R r c = Some j.
Proof.
  unfold pixel, eq_scalar. rewrite list_lookup_fmap.
  destruct (R !! r) as [row|]; simpl; [|by split].
  rewrite list_lookup_fmap. destruct (row !! c) as [x|]; simpl; [|by split].
  destruct (Z.eqb_spec x j); split; congruence.
Qed.

(** The first position returned by [np.where(R == j)] is the first pixel of
    value [j]. *)
Lemma np_where_first (R : raster) (j : Z) p l :
  np_where (eq_scalar R j) = p :: l → first_pixel R j p.
Proof.
  intros H. apply where_from_head in H as (_ & H2 & H3).
  rewrite Nat.sub_0_r in H2. split.
  - by apply pixel_eq_scalar.
  - intros [r c] Hq. apply pixel_eq_scalar in Hq. by apply (H3 r c).
Qed.

Lemma same_shape_pixel {A B} (a : list (list A)) (b : list (list B)) r c x :
  same_shape a b → pixel a r c = Some x → ∃ y, pixel b r c = Some y.
Proof.
  unfold pixel. intros Hs Hp.
  destruct (a !! r) as [ra|] eqn:Hr; [|done]. simpl in Hp.
  eapply Forall2_lookup_l in Hs as (rb & Hrb & Hlen); [|done].
  rewrite Hrb. simpl. apply lookup_lt_is_Some. rewrite <- Hlen.
  apply lookup_lt_is_Some. eauto.
Qed.

Lemma getitem2_pixel {A} (a : list (list A)) (r c : nat) (x : A) :
  pixel a r c = Some x → getitem2 a (Z.of_nat r) (Z.of_nat c) = Ok x.
Proof.
  unfold pixel, getitem2. intros H.
  rewrite getitem_nat. destruct (a !! r); [|done]. simpl in *.
  rewrite getitem_nat. by rewrite H.
Qed.

End NpFacts.
Import NpFacts.

Module IndexFacts.

Lemma n_objects_spec (R : raster) (n : Z) :
  n_objects R = Ok n → largest_non_boundary R n.
Proof.
  unfold n_objects, largest_non_boundary.
  pose proof (unique_sorted R) as Hs.
  pose proof (elem_of_unique R) as He.
  destruct (unique R) as [|x l0 _] using rev_ind.
  { by rewrite getitem_nil. }
  rewrite getitem_last. simpl.
  apply StronglySorted_app in Hs as (Hlt & Hs0 & _).
  destruct (Z.eqb_spec x 255) as [->|Hx].
  - destruct l0 as [|y l1 _] using rev_ind; [done|].
    rewrite <- app_assoc. simpl. rewrite getitem_last2. intros [= <-].
    assert (y < 255) as Hy.
    { apply Hlt; [apply elem_of_app; right; by left | by left]. }
    apply StronglySorted_app in Hs0 as (Hlt1 & _ & _).
    split_and!.
    + apply He. rewrite !elem_of_app, !list_elem_of_singleton. tauto.
    + lia.
    + intros v Hv Hv255. apply He in Hv.
      rewrite !elem_of_app, !list_elem_of_singleton in Hv.
      destruct Hv as [[Hv| ->]| ->]; [|lia|done].
      apply Z.lt_le_incl, Hlt1; [done | by left].
  - intros [= <-]. split_and!.
    + apply He. rewrite elem_of_app, list_elem_of_singleton. tauto.
    + done.
    + intros v Hv _. apply He in Hv.
      rewrite elem_of_app, list_elem_of_singleton in Hv.
      destruct Hv as [Hv| ->]; [|lia].
      apply Z.lt_le_incl, Hlt; [done | by left].
Qed.

Lemma n_objects_total (R : raster) (v : Z) :
  v ∈ flatten R → v ≠ 255 → ∃ n, n_objects R = Ok n.
Proof.
  intros Hv Hv255. unfold n_objects.
  pose proof (elem_of_unique R) as He. apply He in Hv.
  destruct (unique R) as [|x l0 _] using rev_ind.
  { by apply elem_of_nil in Hv. }
  rewrite getitem_last. simpl.
  destruct (Z.eqb_spec x 255) as [->|Hx]; [|eauto].
  destruct l0 as [|y l1 _] using rev_ind.
  - apply list_elem_of_singleton in Hv. done.
  - rewrite <- app_assoc. simpl. rewrite getitem_last2. eauto.
Qed.

Lemma largest_non_boundary_unique (R : raster) (n m : Z) :
  largest_non_boundary R n → largest_non_boundary R m → n = m.
Proof.
  intros (Hn1 & Hn2 & Hn3) (Hm1 & Hm2 & Hm3).
  apply Z.le_antisymm; [by apply Hm3 | by apply Hn3].
Qed.

Lemma n_objects_largest (R : raster) (n : Z) :
  largest_non_boundary R n → n_objects R = Ok n.
Proof.
  intros Hn. destruct (n_objects_total R n) as [m Hm]; [apply Hn..|].
  rewrite Hm. f_equal. apply n_objects_spec in Hm.
  by eapply largest_non_boundary_unique.
Qed.

Lemma n_objects_boundary_only (R : raster) :
  (∀ v, v ∈ flatten R → v = 255) → n_objects R = Raise IndexError.
Proof.
  intros H. destruct (n_objects R) as [n|e] eqn:E.
  - apply n_objects_spec in E as (H1 & H2 & _). by apply H in H1.
  - revert E. unfold n_objects.
    destruct (getitem (unique R) (-1)) as [x|e'] eqn:E1; simpl.
    + destruct (x =? 255); [|done].
      unfold getitem. repeat case_match; congruence.
    + unfold getitem in E1. repeat case_match; congruence.
Qed.

Lemma getitem_head {A} (x : A) (l : list A) : getitem (x :: l) 0 = Ok x.
Proof. reflexivity. Qed.

(** One entry of the category list. *)
Lemma instance_category_spec (R C : raster) (t jj : Z) :
  same_shape R C →
  (pixel_count R (jj + 1) = 0%nat → 0 ≤ t) →
  ∃ v, instance_category R C t jj = Ok v ∧
    (t < Z.of_nat (pixel_count R (jj + 1)) →
       ∃ p, first_pixel R (jj + 1) p ∧ pixel C p.1 p.2 = Some v) ∧
    (Z.of_nat (pixel_count R (jj + 1)) ≤ t → v = -1).
Proof.
  intros Hshape Ht. unfold instance_category.
  rewrite length_fmap. unfold np_where at 1. rewrite where_from_length.
  destruct (Z.ltb_spec t (Z.of_nat (pixel_count R (jj + 1)))) as [Hlt|Hge].
  - destruct (np_where (eq_scalar R (jj + 1))) as [|p l] eqn:Hw.
    { pose proof (where_from_length 0 R (jj + 1)) as Hlen.
      unfold np_where in Hw. rewrite Hw in Hlen. simpl in Hlen.
      specialize (Ht (eq_sym Hlen)). lia. }
    apply np_where_first in Hw as Hfirst.
    destruct Hfirst as [Hp Hmin].
    destruct (same_shape_pixel R C p.1 p.2 _ Hshape Hp) as [v Hv].
    exists v. simpl.
    split; [by apply getitem2_pixel|]. split; [|lia].
    intros _. exists p. by repeat split.
  - exists (-1). split; [done|]. split; [lia|done].
Qed.

Lemma cat_ids_upto_spec (R C : raster) (t n : Z) :
  same_shape R C →
  (∀ j, 1 ≤ j ≤ n → pixel_count R j = 0%nat → 0 ≤ t) →
  ∃ cats, cat_ids_upto R C t n = Ok cats ∧ records_categories R C t n cats.
Proof.
  intros Hshape Ht. unfold cat_ids_upto, range.
  destruct (mapM_total (instance_category R C t) (seqZ 0 n)) as [cats Hc].
  { intros jj Hjj. apply elem_of_seqZ in Hjj.
    destruct (instance_category_spec R C t jj) as (v & Hv & _); [done| |eauto].
    apply Ht. lia. }
  exists cats. split; [done|]. apply mapM_ok in Hc.
  split.
  { apply Forall2_length in Hc. by rewrite length_seqZ in Hc. }
  intros j Hj.
  assert (seqZ 0 n !! Z.to_nat (j - 1) = Some (j - 1)) as Hl.
  { apply lookup_seqZ. lia. }
  eapply Forall2_lookup_l in Hc as (v & Hv & Hcat); [|done].
  destruct (instance_category_spec R C t (j - 1)) as (v' & Hv' & Ha & Hb);
    [done| |].
  { replace (j - 1 + 1) with j by lia. apply Ht. lia. }
  replace (j - 1 + 1) with j in * by lia.
  assert (v' = v) as -> by congruence.
  split.
  - intros Hlt. destruct (Ha Hlt) as (p & Hp & Hpc). by exists p, v.
  - intros Hge. by rewrite Hv, (Hb Hge).
Qed.

End IndexFacts.
Import IndexFacts.

Module LoopFacts.

Lemma for_app {S} (l1 l2 : list Z) (body : Z → S → result S) (s : S) :
  for_ (l1 ++ l2) body s = for_ l1 body s ≫= for_ l2 body.
Proof.
  revert s. induction l1 as [|i l1 IH]; intros s; simpl; [done|].
  destruct (body i s); simpl; [apply IH | done].
Qed.

(** A loop whose body keeps an invariant. *)
Lemma for_invariant {S} (P : S → Prop) (l : list Z)
    (body : Z → S → result S) (s r : S) :
  (∀ i a b, i ∈ l → P a → body i a = Ok b → P b) →
  P s → for_ l body s = Ok r → P r.
Proof.
  revert s. induction l as [|i l IH]; intros s Hbody Hs; simpl.
  - by intros [= <-].
  - intros H. apply bind_ok in H as (s' & Hs' & H).
    eapply IH; [|by eapply Hbody; [left|..]|done].
    intros. eapply Hbody; [by right|done..].
Qed.

(** A loop whose body cannot fail. *)
Lemma for_total {S} (P : S → Prop) (l : list Z)
    (body : Z → S → result S) (s : S) :
  (∀ i a, i ∈ l → P a → ∃ b, body i a = Ok b ∧ P b) →
  P s → ∃ r, for_ l body s = Ok r ∧ P r.
Proof.
  revert s. induction l as [|i l IH]; intros s Hbody Hs; simpl; [eauto|].
  destruct (Hbody i s) as (s' & -> & Hs'); [by left|done|]. simpl.
  apply IH; [|done]. intros. apply Hbody; [by right|done].
Qed.

End LoopFacts.
Import LoopFacts.

Module ObjListFacts.

Section objects.
Context (self : dataset).

Lemma add_object_step (ii jj : Z) (id : str) (cats : list Z) (c : Z) acc :
  getitem (im_ids self) ii = Ok id →
  obj_dict self !! id = Some cats →
  0 ≤ jj → cats !! Z.to_nat jj = Some c →
  add_object self ii jj acc
  = Ok (if c =? -1 then acc else (acc.1 ++ [(ii, jj)], true)).
Proof.
  intros Hid Hcats Hjj Hc. unfold add_object, dict_get.
  rewrite Hid. simpl. rewrite Hcats. simpl.
  assert (getitem cats jj = Ok c) as -> by by apply getitem_ok.
  simpl. by destruct (c =? -1).
Qed.

Lemma add_objects_spec (ii : Z) (id : str) (cats : list Z) (L : list Z)
    (acc : list (Z * Z)) (flag : bool) :
  getitem (im_ids self) ii = Ok id →
  obj_dict self !! id = Some cats →
  (∀ jj, jj ∈ L → 0 ≤ jj < len cats) →
  ∃ flag', for_ L (add_object self ii) (acc, flag)
           = Ok (acc ++ ((λ jj, (ii, jj)) <$>
                   filter (λ jj, cats !! Z.to_nat jj ≠ Some (-1)) L), flag').
Proof.
  intros Hid Hcats. revert acc flag.
  induction L as [|jj L IH]; intros acc flag HL; cbn [for_].
  - exists flag. by rewrite app_nil_r.
  - destruct (HL jj) as [Hjj1 Hjj2]; [by left|].
    destruct (cats !! Z.to_nat jj) as [c|] eqn:Hc.
    2: { apply lookup_ge_None in Hc. unfold len in Hjj2. lia. }
    rewrite (add_object_step ii jj id cats c) by done.
    cbn [mbind result_bind]. rewrite filter_cons.
    destruct (Z.eqb_spec c (-1)) as [->|Hne].
    + rewrite decide_False by (rewrite Hc; intros H; by apply H).
      apply IH. intros; apply HL; by right.
    + rewrite decide_True by (rewrite Hc; congruence).
      cbn [fst].
      destruct (IH (acc ++ [(ii, jj)]) true) as [flag' ->].
      { intros; apply HL; by right. }
      exists flag'. rewrite fmap_cons. simpl. by rewrite <- app_assoc.
Qed.

Lemma add_image_spec (ii : Z) (acc : list (Z * Z)) (k : Z) r :
  0 ≤ ii →
  add_image self ii (acc, k) = Ok r →
  ∃ id, im_ids self !! Z.to_nat ii = Some id ∧
        is_Some (obj_dict self !! id) ∧
        r.1 = acc ++ objects_of_cats ii (obj_dict self !!! id).
Proof.
  intros Hii H. unfold add_image in H.
  apply bind_ok in H as (id & Hid & H).
  apply bind_ok in H as (cats & Hcats & H).
  unfold dict_get in Hcats.
  destruct (obj_dict self !! id) as [cats'|] eqn:Hd; [|done].
  injection Hcats as ->.
  destruct (add_objects_spec ii id cats (range (len cats)) acc false)
    as [flag' Hloop]; [done..| |].
  { intros jj Hjj. apply elem_of_seqZ in Hjj. lia. }
  simpl in H. rewrite Hloop in H. simpl in H. injection H as <-.
  exists id. split; [by apply getitem_ok|]. split; [done|].
  rewrite lookup_total_alt, Hd. done.
Qed.

Lemma add_images_spec (pre post : list str) (acc : list (Z * Z)) (k : Z) r :
  im_ids self = pre ++ post →
  for_ (seqZ (len pre) (len post)) (add_image self) (acc, k) = Ok r →
  Forall (λ id, is_Some (obj_dict self !! id)) post ∧
  r.1 = acc ++ concat (imap (λ i id,
          objects_of_cats (Z.of_nat (length pre + i)) (obj_dict self !!! id))
          post).
Proof.
  revert pre acc k. induction post as [|id post IH]; intros pre acc k Hids.
  - simpl. intros [= <-]. split; [constructor|]. by rewrite app_nil_r.
  - unfold len. rewrite seqZ_cons by (simpl; lia). simpl for_.
    intros H. apply bind_ok in H as ([acc' k'] & Hbody & H).
    apply add_image_spec in Hbody as (id' & Hid' & Hsome & Hacc);
      [|lia].
    rewrite Hids, Nat2Z.id, list_lookup_middle in Hid' by done.
    injection Hid' as <-. simpl in Hacc.
    specialize (IH (pre ++ [id]) acc' k').
    rewrite <- app_assoc in IH. specialize (IH Hids).
    unfold len in IH. rewrite length_app in IH. simpl in IH.
    replace (Z.succ (Z.of_nat (length pre)))
      with (Z.of_nat (length pre + 1)) in H by lia.
    replace (Z.pred (Z.of_nat (S (length post))))
      with (Z.of_nat (length post)) in H by lia.
    apply IH in H as [Hall Hr]. split; [by constructor|].
    rewrite Hr, Hacc, <- app_assoc. f_equal.
    rewrite imap_cons. simpl. rewrite Nat.add_0_r. f_equal. f_equal.
    apply imap_ext. intros i x _. simpl. do 2 f_equal. lia.
Qed.

(** The list of objects that lines 86-95 build. *)
Lemma build_obj_list_spec (objs : list (Z * Z)) (num : Z) :
  build_obj_list self = Ok (objs, num) →
  Forall (λ id, is_Some (obj_dict self !! id)) (im_ids self) ∧
  objs = objects_of (im_ids self) (obj_dict self).
Proof.
  unfold build_obj_list, range. intros H.
  apply (add_images_spec [] (im_ids self)) in H as [Hall Hr]; [|done].
  split; [done|]. simpl in Hr. rewrite Hr. unfold objects_of.
  f_equal.
Qed.

End objects.

Lemma elem_of_objects_of_cats (ii : Z) (cats : list Z) (e : Z * Z) :
  e ∈ objects_of_cats ii cats ↔
  e.1 = ii ∧ 0 ≤ e.2 ∧ ∃ c, cats !! Z.to_nat e.2 = Some c ∧ c ≠ -1.
Proof.
  unfold objects_of_cats. rewrite list_elem_of_fmap. split.
  - intros (jj & -> & Hjj). apply list_elem_of_filter in Hjj as [Hne Hjj].
    apply elem_of_seqZ in Hjj. simpl. split; [done|]. split; [lia|].
    destruct (cats !! Z.to_nat jj) as [c|] eqn:Hc.
    + exists c. split; [done|]. congruence.
    + apply lookup_ge_None in Hc. unfold len in Hjj. lia.
  - intros (<- & Hge & c & Hc & Hne). exists e.2. split; [by destruct e|].
    apply list_elem_of_filter. split; [rewrite Hc; congruence|].
    apply elem_of_seqZ. apply lookup_lt_Some in Hc. unfold len. lia.
Qed.

Lemma elem_of_concat {A} (x : A) (ls : list (list A)) :
  x ∈ concat ls ↔ ∃ l, l ∈ ls ∧ x ∈ l.
Proof.
  induction ls as [|l ls IH]; simpl.
  - split; [by intros ?%elem_of_nil | by intros (? & ?%elem_of_nil & _)].
  - rewrite elem_of_app, IH. split.
    + intros [H|(l' & H1 & H2)]; [exists l; split; [by left|done]|].
      exists l'. split; [by right|done].
    + intros (l' & [->|H1]%elem_of_cons & H2); [by left|]. right. eauto.
Qed.

(** An entry of the object list names an image and one of its catalog
    entries other than -1. *)
Lemma elem_of_objects_of (ids : list str) (d : gmap str (list Z))
    (e : Z * Z) :
  e ∈ objects_of ids d ↔
  0 ≤ e.1 ∧ 0 ≤ e.2 ∧
  ∃ id c, ids !! Z.to_nat e.1 = Some id ∧
          (d !!! id) !! Z.to_nat e.2 = Some c ∧ c ≠ -1.
Proof.
  unfold objects_of. rewrite elem_of_concat. split.
  - intros (l & Hl & He). apply elem_of_lookup_imap in Hl as (i & id & -> & Hi).
    apply elem_of_objects_of_cats in He as (H1 & H2 & c & Hc & Hne).
    rewrite H1. split; [lia|]. split; [done|]. exists id, c.
    by rewrite Nat2Z.id.
  - intros (H1 & H2 & id & c & Hid & Hc & Hne).
    exists (objects_of_cats e.1 (d !!! id)). split.
    + apply elem_of_lookup_imap. exists (Z.to_nat e.1), id.
      split; [|done]. f_equal. lia.
    + apply elem_of_objects_of_cats. eauto.
Qed.

Lemma length_valid_positions_from (pre cats : list Z) :
  length (filter (λ jj, (pre ++ cats) !! Z.to_nat jj ≠ Some (-1))
            (seqZ (len pre) (len cats)))
  = count_valid cats.
Proof.
  revert pre. induction cats as [|c cats IH]; intros pre; [done|].
  unfold len. rewrite seqZ_cons by (simpl; lia).
  rewrite filter_cons. unfold count_valid. rewrite filter_cons.
  rewrite Nat2Z.id, list_lookup_middle by done.
  specialize (IH (pre ++ [c])). rewrite <- app_assoc in IH. simpl in IH.
  unfold len in IH. rewrite length_app in IH. simpl in IH.
  replace (Z.succ (Z.of_nat (length pre)))
    with (Z.of_nat (length pre + 1)) by lia.
  replace (Z.pred (Z.of_nat (length (c :: cats))))
    with (Z.of_nat (length cats)) by (simpl; lia).
  destruct (decide (c ≠ -1)).
  - rewrite decide_True by congruence. simpl. by rewrite IH.
  - rewrite decide_False by (intros H; apply H; f_equal; by apply dec_stable).
    by rewrite IH.
Qed.

Lemma length_objects_of_cats (ii : Z) (cats : list Z) :
  length (objects_of_cats ii cats) = count_valid cats.
Proof.
  unfold objects_of_cats. rewrite length_fmap.
  apply (length_valid_positions_from []).
Qed.

Lemma length_objects_of (ids : list str) (d : gmap str (list Z)) :
  length (objects_of ids d)
  = sum_list_with (λ id, count_valid (d !!! id)) ids.
Proof.
  unfold objects_of.
  assert (∀ g : nat → Z,
    length (concat (imap (λ i id, objects_of_cats (g i) (d !!! id)) ids))
    = sum_list_with (λ id, count_valid (d !!! id)) ids) as H; [|apply H].
  induction ids as [|id ids IH]; intros g; [done|].
  rewrite imap_cons. simpl. rewrite length_app, length_objects_of_cats.
  f_equal. apply (IH (λ i, g (S i))).
Qed.

End ObjListFacts.
Import ObjListFacts.

Module InitFacts.

Lemma splitlines_from_no_newline (n : nat) (s cur : str) :
  (length s ≤ n)%nat → 10%N ∉ cur →
  Forall (λ l, 10%N ∉ l) (splitlines_from s cur).
Proof.
  revert s cur. induction n as [|n IH]; intros s cur Hn Hcur.
  - destruct s; [|simpl in Hn; lia]. simpl.
    destruct cur; repeat constructor. by rewrite elem_of_reverse.
  - destruct s as [|c s]; simpl.
    { destruct cur; repeat constructor. by rewrite elem_of_reverse. }
    simpl in Hn.
    assert (10%N ∉ reverse cur) as Hrev by by rewrite elem_of_reverse.
    assert (10%N ∉ (@nil N)) as Hnil by apply not_elem_of_nil.
    destruct (N.eqb_spec c 13).
    + destruct s as [|c' s'].
      * constructor; [done|]. apply IH; [simpl; lia|done].
      * destruct (c' =? 10)%N; (constructor; [done|]);
          apply IH; simpl in *; try lia; done.
    + destruct (is_linebreak c) eqn:Hlb.
      * constructor; [done|]. apply IH; [lia|done].
      * apply IH; [lia|]. rewrite not_elem_of_cons. split; [|done].
        intros <-. done.
Qed.

Lemma splitlines_no_newline (s : str) :
  Forall (λ l, 10%N ∉ l) (splitlines s).
Proof.
  apply (splitlines_from_no_newline (length s)); [done|].
  apply not_elem_of_nil.
Qed.

Lemma rstrip_nl_id (l : str) : 10%N ∉ l → rstrip_nl l = l.
Proof.
  intros H. unfold rstrip_nl.
  assert (lstrip_nl (reverse l) = reverse l) as ->.
  { assert (10%N ∉ reverse l) as Hr by by rewrite elem_of_reverse.
    destruct (reverse l) as [|c x]; [done|]. simpl.
    destruct (N.eqb_spec c 10) as [->|]; [|done].
    exfalso. apply Hr. by left. }
  apply reverse_involutive.
Qed.

Lemma add_lines_loaded (w : world) (lines : list str) acc acc' :
  Forall (λ l, 10%N ∉ l) lines →
  loaded w acc → add_lines w lines acc = Ok acc' → loaded w acc'.
Proof.
  revert acc. induction lines as [|line lines IH]; intros acc Hl Hacc; simpl.
  - by intros [= <-].
  - intros H. apply bind_ok in H as (acc1 & H1 & H).
    inversion Hl as [|? ? Hline Hl']; subst.
    eapply IH; [done| |done].
    destruct Hacc as (L & -> & HL). unfold add_line, isfile in H1.
    repeat case_bool_decide; simpl in H1; try done.
    injection H1 as <-. exists (L ++ [line]).
    rewrite rstrip_nl_id by done. split; [done|].
    apply Forall_app. split; [done|]. by repeat constructor.
Qed.

Lemma load_splits_loaded (w : world) (splits : list str) acc acc' :
  loaded w acc → load_splits w splits acc = Ok acc' → loaded w acc'.
Proof.
  revert acc. induction splits as [|splt splits IH]; intros acc Hacc; simpl.
  - by intros [= <-].
  - intros H. apply bind_ok in H as (text & _ & H).
    apply bind_ok in H as (acc1 & H1 & H).
    eapply IH; [|done].
    eapply add_lines_loaded; [apply splitlines_no_newline|done..].
Qed.

(** *** [_preprocess] *)

Lemma preprocess_image_spec (w : world) (self : dataset)
    (pre post : list str) (id : str) d0 d1 :
  im_ids self = pre ++ id :: post →
  masks self = im_ids self → categories self = im_ids self →
  preprocess_image w self (len pre) d0 = Ok d1 →
  ∃ m c cats, object_masks w !! id = Some m ∧ class_masks w !! id = Some c ∧
              image_cat_ids m c (area_thres self) = Ok cats ∧
              d1 = <[id := cats]> d0.
Proof.
  intros Hids Hm Hc H. unfold preprocess_image in H.
  assert (∀ x, getitem (im_ids self) (len pre) = Ok x → x = id) as Hget.
  { intros x Hx. apply getitem_ok in Hx; [|unfold len; lia].
    unfold len in Hx.
    rewrite Hids, Nat2Z.id, list_lookup_middle in Hx by done. congruence. }
  rewrite Hm, Hc in H.
  apply bind_ok in H as (mp & ->%Hget & H).
  apply bind_ok in H as (m & Hmask & H).
  apply bind_ok in H as (n & Hn & H).
  apply bind_ok in H as (cp & ->%Hget & H).
  apply bind_ok in H as (c & Hcls & H).
  apply bind_ok in H as (cats & Hcats & H).
  apply bind_ok in H as (id' & ->%Hget & [= <-]).
  unfold read_file in *.
  destruct (object_masks w !! id) as [m'|]; [|done]. injection Hmask as ->.
  destruct (class_masks w !! id) as [c'|]; [|done]. injection Hcls as ->.
  exists m, c, cats. split_and!; try done.
  unfold image_cat_ids. rewrite Hn. done.
Qed.

Lemma preprocess_loop_spec (w : world) (self : dataset)
    (pre post : list str) d0 d :
  im_ids self = pre ++ post →
  masks self = im_ids self → categories self = im_ids self →
  for_ (seqZ (len pre) (len post)) (preprocess_image w self) d0 = Ok d →
  (∀ id, is_Some (d0 !! id) → is_Some (d !! id)) ∧
  Forall (λ id, is_Some (d !! id)) post ∧
  (catalog_agrees w (set_obj_dict d0 self) →
   catalog_agrees w (set_obj_dict d self)).
Proof.
  intros Hids Hm Hc. revert pre d0 Hids.
  induction post as [|id post IH]; intros pre d0 Hids.
  - simpl. intros [= <-]. split_and!; [done|constructor|done].
  - unfold len. rewrite seqZ_cons by (simpl; lia). cbn [for_].
    intros H. apply bind_ok in H as (d1 & H1 & H).
    eapply preprocess_image_spec in H1
      as (m & c & cats & Hmk & Hcl & Hcats & Hd1); [|done..].
    subst d1.
    specialize (IH (pre ++ [id]) (<[id:=cats]> d0)).
    rewrite <- app_assoc in IH. specialize (IH Hids).
    unfold len in IH. rewrite length_app in IH. simpl in IH.
    replace (Z.succ (Z.of_nat (length pre)))
      with (Z.of_nat (length pre + 1)) in H by lia.
    replace (Z.pred (Z.of_nat (length (id :: post))))
      with (Z.of_nat (length post)) in H by (simpl; lia).
    apply IH in H as (Hmono & Hall & Hagree).
    split_and!.
    + intros id' Hid'. apply Hmono.
      rewrite lookup_insert. case_decide; [by eexists|done].
    + constructor; [|done]. apply Hmono. rewrite lookup_insert_eq. by eexists.
    + intros Hag. apply Hagree. intros id' cats' Hl. simpl in Hl.
      rewrite lookup_insert in Hl. case_decide as Heq.
      * injection Hl as <-. subst id'. simpl. split.
        { rewrite Hids. apply elem_of_app. right. by left. }
        unfold built_cat_ids. rewrite Hmk, Hcl. simpl. by rewrite Hcats.
      * by apply Hag.
Qed.

Lemma preprocess_spec (w : world) (self self' : dataset) (w' : world) :
  masks self = im_ids self → categories self = im_ids self →
  _preprocess w self = (Ok self', w') →
  ∃ d text, self' = set_obj_dict d self ∧
    for_ (range (len (im_ids self))) (preprocess_image w self) ∅ = Ok d ∧
    cache_text self d = Ok text ∧
    w' = write_obj_list_file w text ∧
    Forall (λ id, is_Some (d !! id)) (im_ids self) ∧
    catalog_agrees w' self'.
Proof.
  intros Hm Hc H. unfold _preprocess in H.
  destruct (for_ _ _ _) as [d|] eqn:Hloop; [|done].
  destruct (cache_text self d) as [text|] eqn:Htext; [|done].
  injection H as <- <-. exists d, text. split_and!; try done.
  - apply (preprocess_loop_spec w self [] (im_ids self)) in Hloop
      as (_ & Hall & _); done.
  - apply (preprocess_loop_spec w self [] (im_ids self)) in Hloop
      as (_ & _ & Hag); try done.
    apply Hag. intros id cats Hl. simpl in Hl. by rewrite lookup_empty in Hl.
Qed.

End InitFacts.
Import InitFacts.

Module ConstructFacts.

Lemma check_preprocess_spec (w : world) (self self1 : dataset) (valid : bool) :
  _check_preprocess w self = Ok (valid, self1) →
  (obj_list_file w = None ∧ valid = false ∧ self1 = self) ∨
  (∃ text kv pairs,
     obj_list_file w = Some text ∧ loads text = Ok (JObj kv) ∧
     as_catalog kv = Some pairs ∧
     self1 = set_obj_dict (py_dict pairs) self ∧
     valid = bool_decide (sorted (keys (py_dict pairs))
                          = sorted (im_ids self))).
Proof.
  unfold _check_preprocess.
  destruct (obj_list_file w) as [text|]; [|intros [= <- <-]; by left].
  intros H. apply bind_ok in H as (v & Hv & H).
  destruct v as [| | | | | |kv]; try done.
  destruct (as_catalog kv) as [pairs|] eqn:Hp; [|done].
  injection H as <- <-. right. by exists text, kv, pairs.
Qed.

Lemma elem_of_keys {V} (d : gmap str V) (k : str) :
  k ∈ keys d ↔ is_Some (d !! k).
Proof.
  unfold keys. rewrite list_elem_of_fmap. split.
  - intros ([k' v] & -> & H). apply elem_of_map_to_list in H. by eexists.
  - intros [v H]. exists (k, v). split; [done|]. by apply elem_of_map_to_list.
Qed.

Lemma sorted_eq_elem_of (l k : list str) (x : str) :
  sorted l = sorted k → x ∈ k → x ∈ l.
Proof.
  unfold sorted. intros H Hx.
  rewrite <- (merge_sort_Permutation str_le l), H.
  by rewrite merge_sort_Permutation.
Qed.

Lemma files_exist_write (w : world) (text : str) (line : str) :
  files_exist (write_obj_list_file w text) line ↔ files_exist w line.
Proof. done. Qed.

Lemma init_objects_spec (w : world) split0 tr thres (pre dflt ret : bool)
    (ds : dataset) (w' : world) :
  init_objects w split0 tr thres pre dflt ret = (Ok ds, w') →
  well_formed w' ds ∧
  area_thres ds = thres ∧ default ds = dflt ∧ retname ds = ret ∧
  transform ds = tr ∧
  ((obj_list_file w = None ∨ pre = true) → catalog_agrees w' ds).
Proof.
  unfold init_objects.
  set (splits := split_names split0).
  destruct (load_splits w splits ([], [], [], [])) as [acc|] eqn:Hload;
    [|done].
  apply load_splits_loaded in Hload as (lines & -> & Hfiles).
  2: { exists []. split; [done|constructor]. }
  set (self := Dataset thres dflt ret splits tr lines lines lines lines ∅ []).
  destruct (_check_preprocess w self) as [[valid self1]|] eqn:Hcheck;
    [|done].
  apply check_preprocess_spec in Hcheck.
  assert (∃ d1, self1 = set_obj_dict d1 self ∧
                ((obj_list_file w = None ∧ valid = false) ∨
                 (valid = true →
                  ∀ id, is_Some (d1 !! id) → id ∈ lines))) as (d1 & -> & Hd1).
  { destruct Hcheck as [(Hnone & -> & ->)|
      (text & kv & pairs & Htext & _ & _ & -> & ->)].
    - exists ∅. split; [done|]. by left.
    - eexists. split; [done|]. right. intros Hv%bool_decide_eq_true.
      intros id Hid%elem_of_keys. by eapply sorted_eq_elem_of. }
  destruct (negb valid || pre) eqn:Hre.
  - destruct (_preprocess w (set_obj_dict d1 self)) as [r w1] eqn:Hp.
    intros [= Hr <-]. apply bind_ok in Hr as (self2 & -> & Hr).
    apply bind_ok in Hr as ([objs num] & Hobjs & [= <-]).
    apply preprocess_spec in Hp
      as (d & text & -> & _ & _ & -> & Hall & Hag); [|done..].
    apply build_obj_list_spec in Hobjs as [_ ->]. simpl.
    split_and!; try done.
    unfold well_formed. simpl. split_and!; try done.
    intros id [cats Hcats]. by apply (Hag id cats).
  - intros [= Hr <-].
    apply bind_ok in Hr as ([objs num] & Hobjs & [= <-]).
    apply build_obj_list_spec in Hobjs as [Hall ->]. simpl in *.
    apply orb_false_iff in Hre as [Hvalid%negb_false_iff Hpre].
    split_and!; try done.
    { unfold well_formed. simpl. split_and!; try done.
      destruct Hd1 as [[_ ->]|Hd1]; [done|]. by apply Hd1. }
    intros [Hnone| ->]; [|done].
    destruct Hcheck as [(_ & -> & _)|(? & ? & ? & ? & _)];
      [done|congruence].
Qed.

Lemma init_spec (w : world) split0 tr thres (pre dflt ret : bool)
    (ds : dataset) (w' : world) :
  __init__ w split0 tr thres pre dflt ret = (Ok ds, w') →
  init_objects w split0 tr thres pre dflt ret = (Ok ds, w') ∧
  ∃ p, _make_img_gt_point_pair w' ds 1 = Ok p.
Proof.
  unfold __init__.
  destruct (init_objects w split0 tr thres pre dflt ret) as [r w1].
  intros [= Hr <-]. apply bind_ok in Hr as (self & -> & Hr).
  apply bind_ok in Hr as (p & Hp & [= <-]). eauto.
Qed.

End ConstructFacts.
Import ConstructFacts.

Module ArrayFacts.

Lemma pixel_map {A B} (f : A → B) (a : list (list A)) (r c : nat) :
  pixel (map (map f) a) r c = f <$> pixel a r c.
Proof.
  unfold pixel. rewrite list_lookup_fmap.
  destruct (a !! r) as [row|]; simpl; [|done]. apply list_lookup_fmap.
Qed.

Lemma zip_with_map_l {A B C} (g : A → B → C) (f : A → B) (l : list A) :
  zip_with g l (map f l) = map (λ x, g x (f x)) l.
Proof. induction l; simpl; [done|]. by f_equal. Qed.

Lemma zip_with_map_both {A B C D} (g : B → C → D) (f1 : A → B) (f2 : A → C)
    (l : list A) :
  zip_with g (map f1 l) (map f2 l) = map (λ x, g (f1 x) (f2 x)) l.
Proof. induction l; simpl; [done|]. by f_equal. Qed.

Lemma zip2_map_l {A B C} (g : A → B → C) (f : A → B) (a : list (list A)) :
  zip_with (zip_with g) a (map (map f) a) = map (map (λ x, g x (f x))) a.
Proof.
  induction a as [|row a IH]; simpl; [done|].
  by rewrite zip_with_map_l, IH.
Qed.

Lemma zip2_map_both {A B C D} (g : B → C → D) (f1 : A → B) (f2 : A → C)
    (a : list (list A)) :
  zip_with (zip_with g) (map (map f1) a) (map (map f2) a)
  = map (map (λ x, g (f1 x) (f2 x))) a.
Proof.
  induction a as [|row a IH]; simpl; [done|].
  by rewrite zip_with_map_both, IH.
Qed.

Lemma map2_map {A B C} (g : B → C) (f : A → B) (a : list (list A)) :
  map (map g) (map (map f) a) = map (map (λ x, g (f x))) a.
Proof.
  rewrite map_map. apply map_ext. intros row. apply map_map.
Qed.

Lemma zero_where_void (raw : raster) :
  zero_where raw (eq_scalar raw 255) = map (map void_zeroed) raw.
Proof. unfold zero_where, eq_scalar. by rewrite zip2_map_l. Qed.

Lemma flatten_map (f : Z → Z) (a : raster) :
  flatten (map (map f) a) = map f (flatten a).
Proof.
  unfold flatten. induction a as [|row a IH]; simpl; [done|].
  by rewrite map_app, IH.
Qed.

Lemma pixel_elem_of (a : list (list Z)) (r c : nat) (v : Z) :
  pixel a r c = Some v → v ∈ flatten a.
Proof.
  unfold pixel, flatten. intros H.
  destruct (a !! r) as [row|] eqn:Hr; [|done]. simpl in H.
  apply elem_of_concat. exists row.
  split; by eapply list_elem_of_lookup_2.
Qed.

Lemma foldl_max_le (l : list Z) (x : Z) : x ≤ foldl Z.max x l.
Proof.
  revert x. induction l as [|y l IH]; intros x; simpl; [lia|].
  etrans; [|apply IH]. lia.
Qed.

Lemma foldl_max_ub (l : list Z) (x v : Z) : v ∈ l → v ≤ foldl Z.max x l.
Proof.
  revert x. induction l as [|y l IH]; intros x; simpl.
  - by intros ?%elem_of_nil.
  - intros [->|H]%elem_of_cons; [|by apply IH].
    etrans; [|apply foldl_max_le]. lia.
Qed.

Lemma foldl_max_elem (l : list Z) (x : Z) :
  foldl Z.max x l = x ∨ foldl Z.max x l ∈ l.
Proof.
  revert x. induction l as [|y l IH]; intros x; simpl; [by left|].
  destruct (IH (Z.max x y)) as [->|H]; [|right; by right].
  destruct (Z.max_spec x y) as [[_ ->]|[_ ->]]; [right; by left|by left].
Qed.

(** [np.max] returns an element that bounds all the others. *)
Lemma np_max_spec (a : raster) (top : Z) :
  np_max a = Ok top → top ∈ flatten a ∧ ∀ v, v ∈ flatten a → v ≤ top.
Proof.
  unfold np_max. destruct (flatten a) as [|x l]; [done|]. intros [= <-].
  split.
  - destruct (foldl_max_elem l x) as [->|H]; [by left|by right].
  - intros v [->|H]%elem_of_cons; [apply foldl_max_le|by apply foldl_max_ub].
Qed.

Lemma np_max_total (a : raster) (v : Z) :
  v ∈ flatten a → ∃ top, np_max a = Ok top.
Proof.
  unfold np_max. destruct (flatten a); [by intros ?%elem_of_nil|eauto].
Qed.

End ArrayFacts.
Import ArrayFacts.

Module PairFacts.

Section distractors.
Context (self : dataset) (_tmp : raster) (_im_ii _obj_ii obj_cat : Z).
Context (id : str) (cats : list Z).
Hypothesis Hid : getitem (im_ids self) _im_ii = Ok id.
Hypothesis Hcats : obj_dict self !! id = Some cats.

Lemma add_distractor_step (ii ii_cat : Z) (fs fo : Z → bool) :
  1 ≤ ii → cats !! Z.to_nat (ii - 1) = Some ii_cat →
  add_distractor self _tmp _im_ii _obj_ii obj_cat ii
    (map (map fs) _tmp, map (map fo) _tmp)
  = Ok (map (map (λ v, fs v ||
          ((v =? ii) && (obj_cat =? ii_cat) && negb (ii =? _obj_ii + 1))))
          _tmp,
        map (map (λ v, fo v ||
          ((v =? ii) && negb (obj_cat =? ii_cat) && negb (ii =? _obj_ii + 1))))
          _tmp).
Proof.
  intros Hii Hc. unfold add_distractor, dict_get.
  rewrite Hid. simpl. rewrite Hcats. simpl.
  assert (getitem cats (ii - 1) = Ok ii_cat) as ->
    by (apply getitem_ok; [lia|done]).
  simpl. unfold logical_or, eq_scalar.
  destruct (obj_cat =? ii_cat), (ii =? _obj_ii + 1); simpl;
    rewrite ?zip2_map_both; do 2 f_equal;
    apply map_ext; intros row; apply map_ext; intros v;
    rewrite ?andb_true_r, ?andb_false_r, ?orb_false_r; done.
Qed.

Lemma add_distractor_inv (ii : Z) acc acc' :
  1 ≤ ii →
  add_distractor self _tmp _im_ii _obj_ii obj_cat ii acc = Ok acc' →
  ∃ ii_cat, cats !! Z.to_nat (ii - 1) = Some ii_cat.
Proof.
  intros Hii H. unfold add_distractor, dict_get in H.
  rewrite Hid in H. simpl in H. rewrite Hcats in H. simpl in H.
  apply bind_ok in H as (ii_cat & Hc & _).
  exists ii_cat. apply getitem_ok in Hc; [done|lia].
Qed.

Lemma distractor_loop (L : list Z) (fs fo : Z → bool) s o :
  (∀ x, x ∈ L → 1 ≤ x) →
  for_ L (add_distractor self _tmp _im_ii _obj_ii obj_cat)
    (map (map fs) _tmp, map (map fo) _tmp) = Ok (s, o) →
  ∃ Fs Fo : Z → bool,
    s = map (map Fs) _tmp ∧ o = map (map Fo) _tmp ∧
    (∀ v, Fs v = true ↔
       fs v = true ∨
       (v ∈ L ∧ v ≠ _obj_ii + 1 ∧ cats !! Z.to_nat (v - 1) = Some obj_cat)) ∧
    (∀ v, Fo v = true ↔
       fo v = true ∨
       (v ∈ L ∧ v ≠ _obj_ii + 1 ∧
        ∃ c, cats !! Z.to_nat (v - 1) = Some c ∧ c ≠ obj_cat)).
Proof.
  revert fs fo. induction L as [|ii L IH]; intros fs fo HL; cbn [for_].
  - intros [= <- <-]. exists fs, fo. split_and!; try done.
    + intros v. split; [by left|]. intros [H|(H%elem_of_nil & _)]; done.
    + intros v. split; [by left|]. intros [H|(H%elem_of_nil & _)]; done.
  - intros H. apply bind_ok in H as (acc' & Hstep & H).
    assert (1 ≤ ii) as Hii by (apply HL; by left).
    destruct (add_distractor_inv _ _ _ Hii Hstep) as [ii_cat Hc].
    rewrite (add_distractor_step ii ii_cat fs fo Hii Hc) in Hstep.
    injection Hstep as <-.
    apply IH in H as (Fs & Fo & -> & -> & HFs & HFo).
    2: { intros; apply HL; by right. }
    exists Fs, Fo. split_and!; try done.
    + intros v. rewrite HFs, elem_of_cons.
      rewrite orb_true_iff, !andb_true_iff, negb_true_iff.
      rewrite !Z.eqb_eq, Z.eqb_neq. split.
      * intros [[H|[[Hv Hcat] Hne]]|(H1 & H2 & H3)].
        -- by left.
        -- subst v. right. split_and!; [by left|done|congruence].
        -- right. split_and!; [by right|done|done].
      * intros [H|[[Hv|Hv] [H2 H3]]].
        -- left. by left.
        -- subst v. left. right. split_and!; [done|congruence|done].
        -- right. done.
    + intros v. rewrite HFo, elem_of_cons.
      rewrite orb_true_iff, !andb_true_iff, !negb_true_iff.
      rewrite Z.eqb_eq, !Z.eqb_neq. split.
      * intros [[H|[[Hv Hcat] Hne]]|(H1 & H2 & H3)].
        -- by left.
        -- subst v. right. split_and!; [by left|done|].
           exists ii_cat. split; [done|congruence].
        -- right. split_and!; [by right|done|done].
      * intros [H|[[Hv|Hv] [H2 (c & H3 & H4)]]].
        -- left. by left.
        -- subst v. left. right. split_and!; [done|congruence|done].
        -- right. split_and!; [done|done|]. by exists c.
Qed.

Lemma distractor_loop_total (L : list Z) acc :
  (∀ x, x ∈ L → 1 ≤ x ≤ len cats) →
  ∃ r, for_ L (add_distractor self _tmp _im_ii _obj_ii obj_cat) acc = Ok r.
Proof.
  intros HL.
  destruct (for_total (λ _, True) L
    (add_distractor self _tmp _im_ii _obj_ii obj_cat) acc) as [r [Hr _]];
    [|done|eauto].
  intros ii a Hii _. apply HL in Hii. unfold add_distractor, dict_get.
  rewrite Hid. simpl. rewrite Hcats. simpl.
  destruct (cats !! Z.to_nat (ii - 1)) as [c|] eqn:Hc.
  2: { apply lookup_ge_None in Hc. unfold len in Hii. lia. }
  assert (getitem cats (ii - 1) = Ok c) as ->
    by (apply getitem_ok; [lia|done]).
  simpl. repeat case_match; eauto.
Qed.

End distractors.

End PairFacts.
Import PairFacts.

Module AssembleFacts.

Lemma make_pair_inv (w : world) (self : dataset) (index : Z) (p : pair) :
  _make_img_gt_point_pair w self index = Ok p →
  ∃ entry ipath mpath raw,
    getitem (obj_list self) index = Ok entry ∧
    getitem (images self) entry.1 = Ok ipath ∧
    jpeg_images w !! ipath = Some (p_img p) ∧
    getitem (masks self) entry.1 = Ok mpath ∧
    object_masks w !! mpath = Some raw ∧
    p_void_pixels p = map (map (λ x, float_of_bool (x =? 255))) raw ∧
    p_background p
      = map (map (λ x, float_of_bool
                         ((void_zeroed x =? 0) && negb (x =? 255)))) raw ∧
    if default self then default_masks raw p
    else per_object_masks self entry raw p.
Proof.
  unfold _make_img_gt_point_pair. intros H.
  apply bind_ok in H as (entry & Hentry & H).
  apply bind_ok in H as (ipath & Hipath & H).
  apply bind_ok in H as (img & Himg & H).
  apply bind_ok in H as (mpath & Hmpath & H).
  apply bind_ok in H as (raw & Hraw & H).
  unfold read_file in Himg, Hraw.
  destruct (jpeg_images w !! ipath) as [img'|] eqn:Hi; [|done].
  injection Himg as ->.
  destruct (object_masks w !! mpath) as [raw'|] eqn:Hm; [|done].
  injection Hraw as ->.
  rewrite zero_where_void in H.
  unfold logical_and, logical_not, zeros_like, astype_float, eq_scalar in H.
  rewrite !map2_map, zip2_map_both in H.
  exists entry, ipath, mpath, raw.
  destruct (default self).
  - injection H as <-. simpl. split_and!; try done.
    by rewrite map2_map.
  - apply bind_ok in H as (id & Hid & H).
    apply bind_ok in H as (cats & Hcats & H).
    apply bind_ok in H as (obj_cat & Hcat & H).
    apply bind_ok in H as (top & Htop & H).
    apply bind_ok in H as ([s o] & Hloop & [= <-]).
    unfold dict_get in Hcats.
    destruct (obj_dict self !! id) as [cats'|] eqn:Hd; [|done].
    injection Hcats as ->.
    rewrite <- (map2_map (λ _, false) void_zeroed raw) in Hloop.
    eapply distractor_loop in Hloop
      as (Fs & Fo & -> & -> & HFs & HFo); [|done..|].
    2: { intros x Hx. unfold range2 in Hx. apply elem_of_seqZ in Hx. lia. }
    simpl. split_and!; try done; [by rewrite map2_map|].
    exists id, cats, obj_cat, top, Fs, Fo.
    rewrite !map2_map. split_and!; try done.
    + intros v. rewrite HFs. unfold range2. rewrite elem_of_seqZ.
      split; [intros [?|(?&?&?)]; [done|split_and!; [lia..|done|done]]|].
      intros (?&?&?). right. split_and!; [lia..|done|done].
    + intros v. rewrite HFo. unfold range2. rewrite elem_of_seqZ.
      split; [intros [?|(?&?&?)]; [done|split_and!; [lia..|done|done]]|].
      intros (?&?&?). right. split_and!; [lia..|done|done].
Qed.

Lemma getitem_elem_of {A} (l : list A) (i : Z) (x : A) :
  getitem l i = Ok x → x ∈ l.
Proof.
  unfold getitem. destruct (_ <? 0); [done|].
  destruct (l !! _) eqn:E; [|done]. intros [= <-].
  by eapply list_elem_of_lookup_2.
Qed.

Lemma getitem_valid {A} (l : list A) (i : Z) :
  - len l ≤ i < len l → ∃ x, getitem l i = Ok x.
Proof.
  unfold getitem, len. intros Hi.
  destruct (Z.ltb_spec i 0).
  - destruct (Z.ltb_spec (i + Z.of_nat (length l)) 0); [lia|].
    destruct (l !! Z.to_nat (i + Z.of_nat (length l))) eqn:E; [eauto|].
    apply lookup_ge_None in E. lia.
  - destruct (Z.ltb_spec i 0); [lia|].
    destruct (l !! Z.to_nat i) eqn:E; [eauto|].
    apply lookup_ge_None in E. lia.
Qed.

Lemma getitem_range {A} (l : list A) (i : Z) (x : A) :
  getitem l i = Ok x → - len l ≤ i < len l.
Proof.
  unfold getitem, len.
  destruct (Z.ltb_spec i 0).
  - destruct (Z.ltb_spec (i + Z.of_nat (length l)) 0); [done|].
    destruct (l !! Z.to_nat (i + Z.of_nat (length l))) eqn:E; [|done].
    apply lookup_lt_Some in E. lia.
  - destruct (Z.ltb_spec i 0); [lia|].
    destruct (l !! Z.to_nat i) eqn:E; [|done].
    apply lookup_lt_Some in E. lia.
Qed.

(** An entry of the object list of a well-formed dataset. *)
Lemma obj_list_entry (w : world) (self : dataset) (e : Z * Z) :
  well_formed w self → e ∈ obj_list self →
  0 ≤ e.1 ∧ 0 ≤ e.2 ∧
  ∃ id cats c,
    getitem (im_ids self) e.1 = Ok id ∧ files_exist w id ∧
    obj_dict self !! id = Some cats ∧
    getitem cats e.2 = Ok c ∧ c ≠ -1.
Proof.
  intros (_ & _ & _ & Hfiles & Hall & _ & Hobjs) He.
  rewrite Hobjs in He.
  apply elem_of_objects_of in He as (H1 & H2 & id & c & Hid & Hc & Hne).
  split_and!; [done..|].
  assert (id ∈ im_ids self) as Hin by by eapply list_elem_of_lookup_2.
  rewrite Forall_forall in Hall. destruct (Hall id Hin) as [cats Hcats].
  rewrite lookup_total_alt, Hcats in Hc. simpl in Hc.
  exists id, cats, c. split_and!; try done.
  - by apply getitem_ok.
  - rewrite Forall_forall in Hfiles. by apply Hfiles.
  - by apply getitem_ok.
Qed.

(** The largest value of the void-zeroed raster is an index into the
    category list the index builder made for it. *)
Lemma np_max_within (m c : raster) (t : Z) (cats : list Z) :
  image_cat_ids m c t = Ok cats →
  ∃ top, np_max (map (map void_zeroed) m) = Ok top ∧ top ≤ len cats.
Proof.
  intros H. unfold image_cat_ids in H.
  apply bind_ok in H as (n & Hn & H).
  apply n_objects_spec in Hn as (Hn1 & Hn2 & Hn3).
  destruct (np_max_total (map (map void_zeroed) m) (void_zeroed n))
    as [top Htop].
  { rewrite flatten_map. apply list_elem_of_fmap. by exists n. }
  exists top. split; [done|].
  apply np_max_spec in Htop as [Htop _]. rewrite flatten_map in Htop.
  apply list_elem_of_fmap in Htop as (x & -> & Hx).
  unfold cat_ids_upto, range in H. apply mapM_ok in H.
  apply Forall2_length in H. rewrite length_seqZ in H.
  unfold len. rewrite <- H. unfold void_zeroed.
  destruct (Z.eqb_spec x 255); [lia|].
  specialize (Hn3 x Hx n0). lia.
Qed.

(** Assembly succeeds at every valid position of a well-formed dataset whose
    catalog agrees with the rasters. *)
Lemma make_pair_total (w : world) (self : dataset) (index : Z) :
  well_formed w self → catalog_agrees w self →
  - len (obj_list self) ≤ index < len (obj_list self) →
  ∃ p, _make_img_gt_point_pair w self index = Ok p.
Proof.
  intros Hwf Hag Hindex.
  destruct (getitem_valid _ _ Hindex) as [entry Hentry].
  pose proof (getitem_elem_of _ _ _ Hentry) as Hin.
  destruct (obj_list_entry w self entry Hwf Hin)
    as (H1 & H2 & id & cats & c & Hid & Hfiles & Hcats & Hc & Hne).
  destruct Hwf as (Himgs & Hmasks & _).
  destruct Hfiles as ([img Himg] & _ & [raw Hraw]).
  unfold _make_img_gt_point_pair.
  rewrite Hentry. simpl. rewrite Himgs, Hid. simpl.
  unfold read_file. rewrite Himg. simpl. rewrite Hmasks, Hid. simpl.
  rewrite Hraw. simpl.
  destruct (default self); [eauto|].
  unfold dict_get. rewrite Hcats. simpl. rewrite Hc. simpl.
  destruct (Hag id cats Hcats) as [_ Hbuild].
  unfold built_cat_ids in Hbuild. rewrite Hraw in Hbuild. simpl in Hbuild.
  destruct (class_masks w !! id) as [cl|]; [|done]. simpl in Hbuild.
  injection Hbuild as Hbuild.
  apply np_max_within in Hbuild as (top & Htop & Hle).
  rewrite zero_where_void, Htop. simpl.
  edestruct (distractor_loop_total self (map (map void_zeroed) raw)
    entry.1 entry.2 c id cats Hid Hcats (range2 1 (top + 1))) as [r ->].
  { intros x Hx. unfold range2 in Hx. apply elem_of_seqZ in Hx. lia. }
  simpl. eauto.
Qed.

End AssembleFacts.
Import AssembleFacts.

Module JsonFacts.

Lemma chars_of_uint_digits (d : Decimal.uint) :
  Forall (λ c, is_digit c = true) (chars_of_uint d).
Proof. induction d; simpl; constructor; done. Qed.

Lemma uint_of_chars_of_uint (d : Decimal.uint) :
  uint_of_chars (chars_of_uint d) = d.
Proof. induction d; simpl; by f_equal. Qed.

Lemma nzhead_head (d : Decimal.uint) :
  match Decimal.nzhead d with
  | Decimal.D0 _ => False
  | _ => True
  end.
Proof. induction d; simpl; done. Qed.

Lemma pos_to_uint_head (p : positive) :
  match Pos.to_uint p with
  | Decimal.Nil | Decimal.D0 _ => False
  | _ => True
  end.
Proof.
  pose proof (Unsigned.to_of (Pos.to_uint p)) as H.
  rewrite Unsigned.of_to in H. simpl in H.
  pose proof (Unsigned.to_uint_nonzero p) as Hnz.
  pose proof (nzhead_head (Pos.to_uint p)) as Hh.
  unfold Decimal.unorm in H.
  destruct (Decimal.nzhead (Pos.to_uint p)) eqn:E; rewrite H in *; done.
Qed.

(** The decimal numeral of a positive number starts with a digit other than
    0 and consists of digits. *)
Lemma chars_of_pos (p : positive) :
  ∃ c ds, chars_of_uint (Pos.to_uint p) = c :: ds ∧
          is_digit c = true ∧ c ≠ 48%N ∧ Forall (λ c, is_digit c = true) ds.
Proof.
  pose proof (pos_to_uint_head p) as H.
  pose proof (chars_of_uint_digits (Pos.to_uint p)) as Hd.
  destruct (Pos.to_uint p); try done; simpl in *;
    inversion Hd; subst; eexists _, _; split_and!; done.
Qed.

Lemma take_digits_app (ds rest : str) :
  Forall (λ c, is_digit c = true) ds → ends_number rest →
  take_digits (ds ++ rest) = (ds, rest).
Proof.
  intros Hds Hrest. induction Hds as [|c ds Hc _ IH]; simpl.
  - destruct rest as [|c rest]; [done|]. by destruct Hrest as [-> | ->].
  - by rewrite Hc, IH.
Qed.

Lemma match_frac_end (rest : str) : ends_number rest → match_frac rest = ([], rest).
Proof.
  destruct rest as [|c [|c' rest]]; try done;
    by intros [-> | ->].
Qed.

Lemma match_exp_end (rest : str) : ends_number rest → match_exp rest = ([], rest).
Proof. destruct rest as [|c rest]; [done|]. by intros [-> | ->]. Qed.

Lemma int_of_str_digits (n : N) :
  int_of_str (chars_of_uint (N.to_uint n)) = Z.of_N n.
Proof.
  unfold int_of_str.
  pose proof (uint_of_chars_of_uint (N.to_uint n)) as Hu.
  pose proof (chars_of_uint_digits (N.to_uint n)) as Hd.
  destruct (chars_of_uint (N.to_uint n)) as [|c ds] eqn:E.
  - destruct n; [done|]. simpl in E.
    destruct (chars_of_pos p) as (? & ? & ? & _). congruence.
  - inversion Hd as [|? ? Hc _]; subst.
    destruct (N.eqb_spec c 45) as [->|_]; [done|].
    by rewrite Hu, DecimalN.Unsigned.of_to.
Qed.

Lemma int_of_str_of_int (z : Z) : int_of_str (str_of_int z) = z.
Proof.
  unfold str_of_int. destruct (Z.ltb_spec z 0).
  - simpl. rewrite uint_of_chars_of_uint, DecimalN.Unsigned.of_to. lia.
  - simpl. rewrite int_of_str_digits. lia.
Qed.

Lemma match_int_of_int (z : Z) (rest : str) :
  ends_number rest →
  match_int (str_of_int z ++ rest) = Some (str_of_int z, rest).
Proof.
  intros Hrest. unfold str_of_int.
  assert (∀ n, match_int (chars_of_uint (N.to_uint n) ++ rest)
               = Some (chars_of_uint (N.to_uint n), rest)) as Hnat.
  { intros [|p]; [done|]. simpl.
    destruct (chars_of_pos p) as (c & ds & -> & Hc & Hc0 & Hds).
    unfold match_int. simpl.
    destruct (N.eqb_spec c 45) as [->|_]; [done|].
    destruct (N.eqb_spec c 48) as [->|_]; [done|].
    by rewrite Hc, take_digits_app. }
  destruct (Z.ltb_spec z 0); [|apply Hnat]. simpl.
  destruct (Z.abs_N z) as [|p] eqn:E; [lia|]. simpl.
  destruct (chars_of_pos p) as (c & ds & -> & Hc & Hc0 & Hds).
  unfold match_int. simpl.
  destruct (N.eqb_spec c 48) as [->|_]; [done|].
  by rewrite Hc, take_digits_app.
Qed.

(** The first character of a decimal numeral: a digit or a minus sign
    followed by a digit. *)
Lemma str_of_int_head (z : Z) :
  ∃ c s, str_of_int z = c :: s ∧
    (is_digit c = true ∨ (c = 45%N ∧ ∃ c' s', s = c' :: s' ∧ is_digit c' = true)).
Proof.
  unfold str_of_int.
  assert (∀ n, ∃ c s, chars_of_uint (N.to_uint n) = c :: s ∧ is_digit c = true)
    as Hnat.
  { intros [|p]; [by eexists _, _|]. simpl.
    destruct (chars_of_pos p) as (c & ds & -> & Hc & _). by eexists _, _. }
  destruct (Z.ltb_spec z 0); simpl.
  - eexists _, _. split; [done|]. right. split; [done|].
    destruct (Hnat (Z.abs_N z)) as (c & s & -> & Hc). by eexists _, _.
  - destruct (Hnat (Z.abs_N z)) as (c & s & -> & Hc). eexists _, _. eauto.
Qed.

Lemma is_digit_range (c : N) : is_digit c = true → (48 ≤ c ≤ 57)%N.
Proof.
  unfold is_digit. intros [H1 H2]%andb_true_iff.
  apply N.leb_le in H1, H2. lia.
Qed.

Lemma is_ws_above (c : N) : (33 ≤ c)%N → is_ws c = false.
Proof.
  intros H. unfold is_ws.
  by rewrite !(proj2 (N.eqb_neq c _)) by lia.
Qed.

Lemma strip_prefix_ne (k c : N) (p s : str) :
  k ≠ c → strip_prefix (k :: p) (c :: s) = None.
Proof. intros H%N.eqb_neq. simpl. by rewrite H. Qed.

Lemma strip_prefix_eq (k : N) (p s : str) :
  strip_prefix (k :: p) (k :: s) = strip_prefix p s.
Proof. simpl. by rewrite N.eqb_refl. Qed.

Lemma scan_literal_digit (c : N) (s : str) :
  is_digit c = true → scan_literal (c :: s) = None.
Proof.
  intros Hc%is_digit_range.
  unfold scan_literal, lit_null, lit_true, lit_false, lit_nan, lit_inf,
    lit_neg_inf.
  by rewrite !strip_prefix_ne by lia.
Qed.

Lemma scan_literal_of_int (z : Z) (rest : str) :
  scan_literal (str_of_int z ++ rest) = None.
Proof.
  destruct (str_of_int_head z) as (c & s & -> & [Hc|(-> & c' & s' & -> & Hc)]).
  - by apply scan_literal_digit.
  - apply is_digit_range in Hc.
    unfold scan_literal, lit_null, lit_true, lit_false, lit_nan, lit_inf,
      lit_neg_inf.
    cbn [app]. rewrite !strip_prefix_ne by lia.
    rewrite strip_prefix_eq. by rewrite strip_prefix_ne by lia.
Qed.

Lemma match_number_of_int (z : Z) (rest : str) :
  ends_number rest →
  match_number (str_of_int z ++ rest) = Ok (JInt z, rest).
Proof.
  intros Hrest. unfold match_number.
  rewrite match_int_of_int, match_frac_end, match_exp_end by done.
  simpl. by rewrite int_of_str_of_int.
Qed.

Lemma scan_once_of_int (fuel : nat) (z : Z) (rest : str) :
  ends_number rest →
  scan_once (S fuel) (str_of_int z ++ rest) = Ok (JInt z, rest).
Proof.
  intros Hrest.
  pose proof (scan_literal_of_int z rest) as Hlit.
  pose proof (match_number_of_int z rest Hrest) as Hnum.
  destruct (str_of_int_head z) as (c & s & Hs & Hc).
  rewrite Hs in *. simpl.
  assert ((c =? 34)%N = false ∧ (c =? 123)%N = false ∧ (c =? 91)%N = false)
    as (-> & -> & ->).
  { destruct Hc as [Hc%is_digit_range|[-> _]]; [|done].
    split_and!; apply N.eqb_neq; lia. }
  simpl in Hlit. by rewrite Hlit.
Qed.

Lemma skip_ws_head (c : N) (s : str) :
  is_ws c = false → skip_ws (c :: s) = c :: s.
Proof. intros H. simpl. by rewrite H. Qed.

Lemma skip_ws_of_int (z : Z) (rest : str) :
  skip_ws (str_of_int z ++ rest) = str_of_int z ++ rest.
Proof.
  destruct (str_of_int_head z) as (c & s & -> & Hc). simpl.
  assert (is_ws c = false) as ->; [|done].
  destruct Hc as [Hc%is_digit_range|[-> _]]; [|done].
  apply is_ws_above. lia.
Qed.

Lemma join_head (z : Z) (zs : list Z) :
  ∃ c s, join [44%N; 32%N] (str_of_int <$> z :: zs) = c :: s ∧
         is_ws c = false ∧ c ≠ 93%N.
Proof.
  destruct (str_of_int_head z) as (c & s & Hs & Hc).
  assert (is_ws c = false ∧ c ≠ 93%N) as [H1 H2].
  { destruct Hc as [Hc%is_digit_range|[-> _]]; [|done].
    split; [apply is_ws_above|]; lia. }
  destruct zs as [|z' zs]; simpl; rewrite Hs; eexists _, _; eauto.
Qed.

Lemma elements_last (fuel : nat) (z : Z) (rest : str) :
  elements (S (S fuel)) (str_of_int z ++ 93%N :: rest) = Ok ([JInt z], rest).
Proof.
  cbn [elements]. rewrite scan_once_of_int by (by right).
  cbn [mbind result_bind]. rewrite skip_ws_head by done.
  by rewrite N.eqb_refl.
Qed.

Lemma elements_more (fuel : nat) (z : Z) (s : str) :
  elements (S (S fuel)) (str_of_int z ++ 44%N :: 32%N :: s)
  = elements (S fuel) (skip_ws s) ≫= λ '(l, r), Ok (JInt z :: l, r).
Proof.
  cbn [elements]. rewrite scan_once_of_int by (by left).
  cbn [mbind result_bind]. rewrite skip_ws_head by done.
  change ((44 =? 93)%N) with false. cbn match.
  rewrite N.eqb_refl. done.
Qed.

(** The text between the brackets of [dumps]. *)
Lemma elements_of_ints (fuel : nat) (zs : list Z) (rest : str) :
  zs ≠ [] → (length zs < fuel)%nat →
  elements fuel (join [44%N; 32%N] (str_of_int <$> zs) ++ 93%N :: rest)
  = Ok (JInt <$> zs, rest).
Proof.
  revert fuel. induction zs as [|z zs IH]; intros fuel Hne Hfuel; [done|].
  destruct fuel as [|[|fuel]]; [simpl in Hfuel; lia..|].
  destruct zs as [|z' zs].
  - apply elements_last.
  - change (join [44%N; 32%N] (str_of_int <$> z :: z' :: zs))
      with (str_of_int z ++ [44%N; 32%N]
              ++ join [44%N; 32%N] (str_of_int <$> z' :: zs)).
    rewrite <- !app_assoc. cbn [app]. rewrite elements_more.
    rewrite (fmap_cons str_of_int z'). 
    change (join [44%N; 32%N] (str_of_int z' :: (str_of_int <$> zs)) ++ 93%N :: rest)
      with (join [44%N; 32%N] (str_of_int <$> z' :: zs) ++ 93%N :: rest).
    destruct (join_head z' zs) as (c & s & Hj & Hws & _).
    rewrite Hj. cbn [app]. rewrite skip_ws_head by done.
    change (c :: s ++ 93%N :: rest) with ((c :: s) ++ 93%N :: rest).
    rewrite <- Hj, IH; [done|done|]. simpl in *. lia.
Qed.

Lemma dumps_cons (z : Z) (zs : list Z) (rest : str) :
  dumps (z :: zs) ++ rest
  = 91%N :: (join [44%N; 32%N] (str_of_int <$> z :: zs) ++ 93%N :: rest).
Proof. unfold dumps. by rewrite <- !app_assoc. Qed.

(** [json.load] on the text of [json.dumps]. *)
Lemma scan_once_dumps (fuel : nat) (zs : list Z) (rest : str) :
  (length zs + 1 < fuel)%nat →
  scan_once fuel (dumps zs ++ rest) = Ok (JArr (JInt <$> zs), rest).
Proof.
  intros Hfuel. destruct fuel as [|fuel]; [lia|].
  destruct zs as [|z zs]; [done|].
  rewrite dumps_cons.
  pose proof (elements_of_ints fuel (z :: zs) rest) as He.
  destruct (join_head z zs) as (c & s & Hj & Hws & Hc).
  rewrite Hj in *. cbn [scan_once N.eqb Pos.eqb app].
  rewrite skip_ws_head by done.
  apply N.eqb_neq in Hc. rewrite Hc.
  change (c :: s ++ 93%N :: rest) with ((c :: s) ++ 93%N :: rest).
  rewrite He; [done|done|]. simpl in *. lia.
Qed.

Lemma scanstring_plain (id rest acc : str) :
  plain_id id →
  scanstring (id ++ 34%N :: rest) acc = Ok (reverse acc ++ id, rest).
Proof.
  intros Hid. revert acc. induction Hid as [|c id (H1 & H2 & H3) _ IH];
    intros acc; simpl.
  - by rewrite app_nil_r.
  - apply N.eqb_neq in H1, H2. rewrite H1, H2.
    destruct (N.ltb_spec c 32); [lia|].
    rewrite IH, reverse_cons, <- app_assoc. done.
Qed.

Lemma length_str_of_int (z : Z) : (1 ≤ length (str_of_int z))%nat.
Proof. destruct (str_of_int_head z) as (c & s & -> & _). simpl. lia. Qed.

Lemma length_join (zs : list Z) :
  (length zs ≤ length (join [44%N; 32%N] (str_of_int <$> zs)))%nat.
Proof.
  induction zs as [|z [|z' zs] IH]; [done|..].
  - simpl. pose proof (length_str_of_int z). lia.
  - change (join [44%N; 32%N] (str_of_int <$> z :: z' :: zs))
      with (str_of_int z ++ [44%N; 32%N]
              ++ join [44%N; 32%N] (str_of_int <$> z' :: zs)).
    rewrite !length_app. simpl in *. lia.
Qed.

Lemma length_dumps (zs : list Z) : (length zs + 2 ≤ length (dumps zs))%nat.
Proof.
  unfold dumps. rewrite !length_app. simpl.
  pose proof (length_join zs). lia.
Qed.

End JsonFacts.
Import JsonFacts.

Module CacheFacts.

Lemma dumps_head (zs : list Z) (tail : str) :
  ∃ s, dumps zs ++ tail = 91%N :: s.
Proof. unfold dumps. simpl. eauto. Qed.

Lemma members_value (f : nat) (id : str) (zs : list Z) (tail : str) :
  plain_id id → (length zs + 1 < f)%nat →
  members (S f) (entry_then id zs tail)
  = match skip_ws tail with
    | [] => Raise JSONDecodeError
    | d :: s5 =>
        if (d =? 125)%N then Ok ([json_item (id, zs)], s5)
        else if (d =? 44)%N then
          members f (skip_ws s5) ≫= λ '(kv, r), Ok (json_item (id, zs) :: kv, r)
        else Raise JSONDecodeError
    end.
Proof.
  intros Hid Hf. unfold entry_then. cbn [members].
  rewrite N.eqb_refl, scanstring_plain by done.
  cbn [mbind result_bind reverse rev_append app].
  rewrite skip_ws_head by done. rewrite N.eqb_refl.
  change (skip_ws (32%N :: ?x)) with (skip_ws x).
  destruct (dumps_head zs tail) as [s Hs].
  rewrite Hs, skip_ws_head, <- Hs by done.
  rewrite scan_once_dumps by done.
  cbn [mbind result_bind]. done.
Qed.

Lemma members_text_head (it : str * list Z) items rest :
  ∃ s, members_text (it :: items) rest = 34%N :: s.
Proof. simpl. unfold entry_then. eauto. Qed.

Lemma length_entry_then (id : str) (zs : list Z) (tail : str) :
  (length zs + length tail + 6 ≤ length (entry_then id zs tail))%nat.
Proof.
  unfold entry_then. cbn [length]. rewrite length_app. cbn [length].
  rewrite length_app. pose proof (length_dumps zs). lia.
Qed.

(** Decoding the entries gives back the identifiers and their lists. *)
Lemma members_of_items (fuel : nat) (items : list (str * list Z)) (rest : str) :
  items ≠ [] → Forall (λ it, plain_id it.1) items →
  (length (members_text items rest) ≤ fuel)%nat →
  members fuel (members_text items rest) = Ok (json_item <$> items, rest).
Proof.
  revert fuel. induction items as [|[id zs] items IH];
    intros fuel Hne Hplain Hfuel; [done|].
  inversion Hplain as [|? ? Hid Hplain']; subst. simpl in Hid.
  cbn [members_text fst snd] in *.
  pose proof (length_entry_then id zs
    match items with
    | [] => 10%N :: 125%N :: rest
    | _ :: _ => 44%N :: 10%N :: 9%N :: members_text items rest
    end) as Hlen.
  destruct fuel as [|f]; [lia|].
  rewrite members_value; [|done|lia].
  destruct items as [|it items].
  - done.
  - rewrite skip_ws_head by done.
    change ((44 =? 125)%N) with false. cbn match. rewrite N.eqb_refl.
    destruct (members_text_head it items rest) as [s Hs].
    change (skip_ws (10%N :: 9%N :: ?x)) with (skip_ws x).
    rewrite Hs, skip_ws_head, <- Hs by done.
    rewrite IH; [done|done|done|].
    change (length (44%N :: 10%N :: 9%N :: ?x))
      with (S (S (S (length x)))) in Hlen. lia.
Qed.

(** [json.load] on the text of the cache file. *)
Lemma loads_cache_text (items : list (str * list Z)) :
  items ≠ [] → Forall (λ it, plain_id it.1) items →
  loads (123%N :: 10%N :: 9%N :: members_text items [10%N])
  = Ok (JObj (json_item <$> items)).
Proof.
  intros Hne Hplain. unfold loads.
  rewrite skip_ws_head by done. cbn [scan_once length].
  change ((123 =? 34)%N) with false. cbn match. rewrite N.eqb_refl.
  change (skip_ws (10%N :: 9%N :: ?x)) with (skip_ws x).
  destruct items as [|it items]; [done|].
  destruct (members_text_head it items [10%N]) as [s Hs].
  rewrite Hs, skip_ws_head by done.
  change ((34 =? 125)%N) with false. cbn match. rewrite <- Hs.
  rewrite members_of_items; [done|done|done|]. lia.
Qed.

Lemma as_cat_ids_ints (zs : list Z) : as_cat_ids (JArr (JInt <$> zs)) = Some zs.
Proof.
  unfold as_cat_ids. induction zs as [|z zs IH]; [done|].
  rewrite fmap_cons. cbn [mapM as_int]. rewrite IH. done.
Qed.

Lemma as_catalog_items (items : list (str * list Z)) :
  as_catalog (json_item <$> items) = Some items.
Proof.
  unfold as_catalog, json_item.
  induction items as [|[id zs] items IH]; [done|].
  rewrite fmap_cons. cbn [mapM fst snd].
  rewrite as_cat_ids_ints. cbn [mbind option_bind]. by rewrite IH.
Qed.

Lemma foldl_insert_lookup {V} (f : str → V) (ids : list str)
    (d0 : gmap str V) (k : str) :
  foldl (λ d kv, <[kv.1 := kv.2]> d) d0 ((λ id, (id, f id)) <$> ids) !! k
  = if decide (k ∈ ids) then Some (f k) else d0 !! k.
Proof.
  revert d0. induction ids as [|id ids IH]; intros d0.
  - cbn [fmap list_fmap foldl]. case_decide as H; [|done].
    by apply elem_of_nil in H.
  - rewrite fmap_cons. cbn [foldl fst snd]. rewrite IH.
    destruct (decide (k ∈ ids)) as [Hin|Hnin].
    + rewrite decide_True; [done|]. by right.
    + destruct (decide (k = id)) as [->|Hne].
      * rewrite decide_True by by left. by rewrite lookup_insert_eq.
      * rewrite decide_False.
        -- by rewrite lookup_insert_ne.
        -- rewrite elem_of_cons. tauto.
Qed.

(** [dict(pairs)] on the pairs of a dictionary, listed in any order and with
    repetitions, is that dictionary. *)
Lemma py_dict_items (d : gmap str (list Z)) (ids : list str) :
  (∀ id, id ∈ ids ↔ is_Some (d !! id)) →
  py_dict ((λ id, (id, d !!! id)) <$> ids) = d.
Proof.
  intros Hdom. apply map_eq. intros k. unfold py_dict.
  rewrite foldl_insert_lookup, lookup_empty.
  destruct (decide (k ∈ ids)) as [Hin|Hnin].
  - apply Hdom in Hin as [v Hv]. by rewrite lookup_total_alt, Hv.
  - destruct (d !! k) eqn:E; [|done]. exfalso. apply Hnin, Hdom. eauto.
Qed.

Section text.
Context (self : dataset) (d : gmap str (list Z)).

Lemma entry_text_spec (prefix : str) (pre post : list str) (id : str) e :
  im_ids self = pre ++ id :: post →
  entry_text self d prefix (len pre) = Ok e →
  is_Some (d !! id) ∧ e = prefix ++ entry_then id (d !!! id) [].
Proof.
  intros Hids H. unfold entry_text in H.
  apply bind_ok in H as (id' & Hid' & H).
  apply getitem_ok in Hid'; [|unfold len; lia]. unfold len in Hid'.
  rewrite Hids, Nat2Z.id, list_lookup_middle in Hid' by done.
  injection Hid' as <-.
  apply bind_ok in H as (zs & Hzs & [= <-]).
  unfold dict_get in Hzs. destruct (d !! id) as [zs'|] eqn:E; [|done].
  injection Hzs as ->. split; [by eexists|].
  rewrite lookup_total_alt, E. unfold entry_then. simpl.
  by rewrite app_nil_r.
Qed.

Lemma cache_text_loop (pre post : list str) (text0 text : str) :
  im_ids self = pre ++ post →
  for_ (seqZ (len pre) (len post))
    (λ ii text, e ← entry_text self d [44%N; 10%N; 9%N] ii; Ok (text ++ e))
    text0 = Ok text →
  Forall (λ id, is_Some (d !! id)) post ∧
  text = text0 ++ concat ((λ id, [44%N; 10%N; 9%N]
                             ++ entry_then id (d !!! id) []) <$> post).
Proof.
  revert pre text0. induction post as [|id post IH]; intros pre text0 Hids.
  - simpl. intros [= <-]. split; [constructor|]. by rewrite app_nil_r.
  - unfold len. rewrite seqZ_cons by (simpl; lia). cbn [for_].
    intros H. apply bind_ok in H as (text1 & H1 & H).
    apply bind_ok in H1 as (e & He & [= <-]).
    eapply entry_text_spec in He as [Hsome He]; [|done]. subst e.
    specialize (IH (pre ++ [id]) (text0 ++ [44%N; 10%N; 9%N]
                                   ++ entry_then id (d !!! id) [])).
    rewrite <- app_assoc in IH. specialize (IH Hids).
    unfold len in IH. rewrite length_app in IH. simpl in IH.
    replace (Z.succ (Z.of_nat (length pre)))
      with (Z.of_nat (length pre + 1)) in H by lia.
    replace (Z.pred (Z.of_nat (length (id :: post))))
      with (Z.of_nat (length post)) in H by (simpl; lia).
    apply IH in H as [Hall Ht]. subst text. split; [by constructor|].
    rewrite fmap_cons. cbn [concat]. rewrite <- (app_assoc text0).
    reflexivity.
Qed.

Lemma entry_then_app (id : str) (zs : list Z) (tail : str) :
  entry_then id zs [] ++ tail = entry_then id zs tail.
Proof.
  unfold entry_then. simpl. rewrite <- app_assoc. simpl.
  by rewrite <- app_assoc.
Qed.

Lemma members_text_concat (id : str) (post : list str) (rest : str) :
  entry_then id (d !!! id) []
    ++ concat ((λ id, [44%N; 10%N; 9%N] ++ entry_then id (d !!! id) [])
                 <$> post)
    ++ 10%N :: 125%N :: rest
  = members_text ((λ id, (id, d !!! id)) <$> id :: post) rest.
Proof.
  revert id. induction post as [|id' post IH]; intros id.
  - cbn [fmap list_fmap concat app]. by rewrite entry_then_app.
  - rewrite entry_then_app. rewrite fmap_cons. cbn [concat].
    rewrite <- !app_assoc. rewrite IH. done.
Qed.

(** The text written at lines 158-162. *)
Lemma cache_text_spec (text : str) :
  cache_text self d = Ok text →
  im_ids self ≠ [] ∧
  Forall (λ id, is_Some (d !! id)) (im_ids self) ∧
  text = 123%N :: 10%N :: 9%N ::
           members_text ((λ id, (id, d !!! id)) <$> im_ids self) [10%N].
Proof.
  unfold cache_text. intros H.
  apply bind_ok in H as (first & Hfirst & H).
  apply bind_ok in H as (body & Hbody & [= <-]).
  destruct (im_ids self) as [|id0 post] eqn:Hids.
  { unfold entry_text in Hfirst. by rewrite Hids in Hfirst. }
  apply (entry_text_spec _ [] post id0) in Hfirst as [Hsome Hf]; [|done].
  subst first.
  unfold range2 in Hbody.
  replace (len (id0 :: post) - 1) with (len post) in Hbody
    by (unfold len; simpl; lia).
  apply (cache_text_loop [id0] post) in Hbody as [Hall Hb]; [|done].
  subst body.
  split; [done|]. split; [by constructor|].
  rewrite <- members_text_concat. simpl. by rewrite <- !app_assoc.
Qed.

End text.

End CacheFacts.
Import CacheFacts.

Module SortFacts.

Lemma str_leb_cons (x y : N) (a b : str) :
  str_leb (x :: a) (y :: b) = true ↔
  (x < y)%N ∨ (x = y ∧ str_leb a b = true).
Proof.
  simpl. rewrite orb_true_iff, andb_true_iff, N.ltb_lt, N.eqb_eq. tauto.
Qed.

Lemma str_leb_total (a b : str) : str_leb a b = true ∨ str_leb b a = true.
Proof.
  revert b. induction a as [|x a IH]; intros [|y b]; try (by left);
    try (by right).
  rewrite !str_leb_cons. destruct (IH b); destruct (N.lt_total x y) as [|[|]];
    subst; tauto.
Qed.

Lemma str_leb_trans (a b c : str) :
  str_leb a b = true → str_leb b c = true → str_leb a c = true.
Proof.
  revert b c. induction a as [|x a IH]; intros [|y b] [|z c]; try done.
  rewrite !str_leb_cons. intros [H1|[-> H1]] [H2|[-> H2]].
  - left. lia.
  - by left.
  - by left.
  - right. split; [done|]. by eapply IH.
Qed.

Lemma str_leb_antisym (a b : str) :
  str_leb a b = true → str_leb b a = true → a = b.
Proof.
  revert b. induction a as [|x a IH]; intros [|y b]; try done.
  rewrite !str_leb_cons. intros [H1|[-> H1]] [H2|[H2 H3]]; try lia.
  f_equal. by apply IH.
Qed.

#[export] Instance str_le_total : Total str_le.
Proof. intros a b. apply str_leb_total. Qed.
#[export] Instance str_le_trans : Transitive str_le.
Proof. intros a b c. apply str_leb_trans. Qed.
#[export] Instance str_le_antisym : AntiSymm (=) str_le.
Proof. intros a b. apply str_leb_antisym. Qed.

(** Sorting forgets the order of a list. *)
Lemma sorted_perm (l k : list str) : l ≡ₚ k → sorted l = sorted k.
Proof.
  intros H. unfold sorted.
  apply (StronglySorted_unique str_le).
  - apply StronglySorted_merge_sort; apply _.
  - apply StronglySorted_merge_sort; apply _.
  - by rewrite !merge_sort_Permutation.
Qed.

Lemma keys_perm {V} (d : gmap str V) (ids : list str) :
  NoDup ids → (∀ id, id ∈ ids ↔ is_Some (d !! id)) → keys d ≡ₚ ids.
Proof.
  intros Hnd Hdom. apply NoDup_Permutation.
  - unfold keys. apply NoDup_fst_map_to_list.
  - done.
  - intros k. rewrite elem_of_keys. symmetry. apply Hdom.
Qed.

End SortFacts.
Import SortFacts.

Module SizeFacts.

Lemma sum_list_with_le {A} (f g : A → nat) (l : list A) :
  (∀ x, f x ≤ g x)%nat → (sum_list_with f l ≤ sum_list_with g l)%nat.
Proof.
  intros H. induction l as [|x l IH]; simpl; [lia|]. specialize (H x). lia.
Qed.

Lemma count_valid_le (cats : list Z) : (count_valid cats ≤ length cats)%nat.
Proof. apply length_filter. Qed.

Lemma sum_over_catalog (f : list Z → nat) (d : gmap str (list Z)) :
  sum_list_with (λ kv, f kv.2) (map_to_list d)
  = sum_list_with (λ id, f (d !!! id)) (keys d).
Proof.
  unfold keys.
  assert (Forall (λ kv, d !! kv.1 = Some kv.2) (map_to_list d)) as H.
  { apply Forall_forall. intros [k v] Hkv. by apply elem_of_map_to_list. }
  induction H as [|[k v] l Hkv _ IH]; simpl; [done|].
  rewrite IH. simpl in Hkv. by rewrite lookup_total_alt, Hkv.
Qed.

Lemma sum_over_ids (f : list Z → nat) (d : gmap str (list Z))
    (ids : list str) :
  NoDup ids → (∀ id, id ∈ ids ↔ is_Some (d !! id)) →
  sum_list_with (λ id, f (d !!! id)) ids
  = sum_list_with (λ kv, f kv.2) (map_to_list d).
Proof.
  intros Hnd Hdom. rewrite sum_over_catalog.
  by rewrite (keys_perm d ids Hnd Hdom).
Qed.

Lemma well_formed_dom (w : world) (self : dataset) (id : str) :
  well_formed w self → id ∈ im_ids self ↔ is_Some (obj_dict self !! id).
Proof.
  intros (_ & _ & _ & _ & Hall & Hdom & _). split; [|apply Hdom].
  rewrite Forall_forall in Hall. apply Hall.
Qed.

Lemma init_well_formed (w : world) split0 tr thres (pre dflt ret : bool)
    (ds : dataset) (w' : world) :
  __init__ w split0 tr thres pre dflt ret = (Ok ds, w') →
  well_formed w' ds ∧ default ds = dflt ∧ retname ds = ret ∧
  transform ds = tr ∧ area_thres ds = thres.
Proof.
  intros [H _]%init_spec.
  apply init_objects_spec in H as (? & ? & ? & ? & ? & _). done.
Qed.

Lemma size_seqZ_set (n : Z) : size (list_to_set (seqZ 1 n) : gset Z) = Z.to_nat n.
Proof. rewrite size_list_to_set by apply NoDup_seqZ. apply length_seqZ. Qed.

End SizeFacts.
Import SizeFacts.

Module DisjointFacts.

Lemma float_of_bool_one (b : bool) : float_of_bool b = 1 ↔ b = true.
Proof. destruct b; simpl; split; (done || lia). Qed.

Lemma pixel_mask (F : Z → bool) (raw : list (list Z)) (r c : nat) (x : Z) :
  pixel raw r c = Some x →
  pixel (map (map (λ x, float_of_bool (F x))) raw) r c = Some 1 ↔ F x = true.
Proof.
  intros H. rewrite pixel_map, H. simpl. rewrite <- float_of_bool_one.
  split; congruence.
Qed.

Lemma pixel_mask_none (F : Z → bool) (raw : list (list Z)) (r c : nat) :
  pixel raw r c = None →
  pixel (map (map (λ x, float_of_bool (F x))) raw) r c ≠ Some 1.
Proof. intros H. by rewrite pixel_map, H. Qed.

(** The masks set at a pixel of value [x], for masks given by conditions on
    the pixel value. *)
Lemma filter_masks (raw : list (list Z)) (r c : nat) (x : Z)
    (Fs : list (Z → bool)) :
  pixel raw r c = Some x →
  length (filter (λ m : raster, pixel m r c = Some 1)
            ((λ F, map (map (λ x, float_of_bool (F x))) raw) <$> Fs))
  = length (filter (λ F : Z → bool, F x = true) Fs).
Proof.
  intros Hx. induction Fs as [|F Fs IH]; [done|].
  rewrite fmap_cons, !filter_cons.
  pose proof (pixel_mask F raw r c x Hx) as HF.
  destruct (decide (F x = true)) as [H|H].
  - rewrite decide_True by by apply HF. cbn [length]. f_equal. exact IH.
  - rewrite decide_False by (by rewrite HF). exact IH.
Qed.

Lemma length_filter_bool {A} (x : A) (Fs : list (A → bool)) :
  length (filter (λ F : A → bool, F x = true) Fs)
  = sum_list_with (λ F : A → bool, if F x then 1%nat else 0%nat) Fs.
Proof.
  induction Fs as [|F Fs IH]; [done|]. rewrite filter_cons.
  cbn [sum_list_with]. destruct (F x); simpl; by rewrite IH.
Qed.

Lemma filter_masks_none (raw : list (list Z)) (r c : nat)
    (Fs : list (Z → bool)) :
  pixel raw r c = None →
  filter (λ m : raster, pixel m r c = Some 1)
    ((λ F, map (map (λ x, float_of_bool (F x))) raw) <$> Fs) = [].
Proof.
  intros Hx. induction Fs as [|F Fs IH]; [done|].
  rewrite fmap_cons, filter_cons.
  by rewrite decide_False by by apply pixel_mask_none.
Qed.

End DisjointFacts.
Import DisjointFacts.

Module RoundTripFacts.

Lemma preprocess_image_key (w : world) (self : dataset) (ii : Z) d0 d1 :
  preprocess_image w self ii d0 = Ok d1 →
  ∃ id cats, id ∈ im_ids self ∧ d1 = <[id := cats]> d0.
Proof.
  intros H. unfold preprocess_image in H.
  apply bind_ok in H as (mp & _ & H).
  apply bind_ok in H as (m & _ & H).
  apply bind_ok in H as (n & _ & H).
  apply bind_ok in H as (cp & _ & H).
  apply bind_ok in H as (c & _ & H).
  apply bind_ok in H as (cats & _ & H).
  apply bind_ok in H as (id & Hid & [= <-]).
  exists id, cats. split; [by eapply getitem_elem_of|done].
Qed.

(** The keys of the catalog that [_preprocess] builds are loaded
    identifiers. *)
Lemma preprocess_loop_keys (w : world) (self : dataset) (L : list Z) d :
  for_ L (preprocess_image w self) ∅ = Ok d →
  ∀ id, is_Some (d !! id) → id ∈ im_ids self.
Proof.
  apply (for_invariant (λ d, ∀ id, is_Some (d !! id) → id ∈ im_ids self)).
  - intros ii d0 d1 _ Hd0 (id & cats & Hid & ->)%preprocess_image_key id'.
    rewrite lookup_insert. case_decide as Heq; [by subst|apply Hd0].
  - intros id. rewrite lookup_empty. by intros [? ?].
Qed.

End RoundTripFacts.
Import RoundTripFacts.

(** ** Reading the manifests *)

Module ManifestFacts.

Lemma add_line_spec (w : world) (line : str) (L : list str) :
  10%N ∉ line →
  add_line w line (L, L, L, L)
  = if bool_decide (files_exist w line)
    then Ok (L ++ [line], L ++ [line], L ++ [line], L ++ [line])
    else Raise AssertionError.
Proof.
  intros Hnl. unfold add_line, isfile, files_exist.
  rewrite rstrip_nl_id by done.
  repeat case_bool_decide; simpl; try done; tauto.
Qed.

Lemma add_lines_spec (w : world) (lines L : list str) :
  Forall (λ l, 10%N ∉ l) lines →
  add_lines w lines (L, L, L, L)
  = if bool_decide (Forall (files_exist w) lines)
    then Ok (L ++ lines, L ++ lines, L ++ lines, L ++ lines)
    else Raise AssertionError.
Proof.
  revert L. induction lines as [|line lines IH]; intros L Hnl.
  - simpl. by rewrite app_nil_r.
  - inversion Hnl as [|? ? Hline Hnl']; subst. cbn [add_lines].
    rewrite add_line_spec by done.
    destruct (decide (files_exist w line)) as [Hf|Hf].
    + rewrite (bool_decide_eq_true_2 _ Hf). simpl. rewrite IH by done.
      rewrite <- !(assoc_L (++)). simpl.
      destruct (decide (Forall (files_exist w) lines)) as [Hfs|Hfs].
      * rewrite (bool_decide_eq_true_2 _ Hfs).
        by rewrite bool_decide_eq_true_2 by by constructor.
      * rewrite (bool_decide_eq_false_2 _ Hfs).
        rewrite bool_decide_eq_false_2; [done|].
        by intros [_ ?]%Forall_cons.
    + rewrite (bool_decide_eq_false_2 _ Hf). simpl.
      rewrite bool_decide_eq_false_2; [done|].
      by intros [? _]%Forall_cons.
Qed.

Lemma load_splits_raise (w : world) (splits : list str) (L : list str) e :
  load_splits w splits (L, L, L, L) = Raise e →
  e = FileNotFoundError ∨ e = AssertionError.
Proof.
  revert L. induction splits as [|splt splits IH]; intros L; simpl; [done|].
  unfold read_file.
  destruct (split_files w !! splt) as [text|]; [|intros [= <-]; by left].
  simpl. rewrite add_lines_spec by apply splitlines_no_newline.
  case_bool_decide; simpl; [apply IH|intros [= <-]; by right].
Qed.

End ManifestFacts.
Import ManifestFacts.

(** ** Rebuilding and reusing the cache *)

Module RebuildFacts.

Lemma load_splits_write (w : world) (text : str) (splits : list str) acc :
  load_splits (write_obj_list_file w text) splits acc = load_splits w splits acc.
Proof.
  revert acc. induction splits as [|splt splits IH]; intros acc; [done|].
  simpl. destruct (read_file (split_files w) splt) as [t|]; [|done]. simpl.
  assert (∀ lines a, add_lines (write_obj_list_file w text) lines a
                     = add_lines w lines a) as ->.
  { induction lines as [|l lines IHl]; intros a; [done|]. simpl.
    change (add_line (write_obj_list_file w text) l a) with (add_line w l a).
    destruct (add_line w l a); [|done]. simpl. apply IHl. }
  destruct (add_lines w (splitlines t) acc); [|done]. simpl. apply IH.
Qed.

(** What [init_objects] did when it succeeds. *)
Lemma init_objects_inv (w : world) split0 tr thres (pre dflt ret : bool)
    (ds : dataset) (w' : world) :
  init_objects w split0 tr thres pre dflt ret = (Ok ds, w') →
  ∃ lines valid d1 d objs num,
    let self := unindexed thres dflt ret (split_names split0) tr lines in
    load_splits w (split_names split0) ([], [], [], [])
    = Ok (lines, lines, lines, lines) ∧
    _check_preprocess w self = Ok (valid, set_obj_dict d1 self) ∧
    build_obj_list (set_obj_dict d self) = Ok (objs, num) ∧
    ds = set_obj_list objs (set_obj_dict d self) ∧
    ((negb valid || pre = true ∧
      _preprocess w (set_obj_dict d1 self) = (Ok (set_obj_dict d self), w'))
     ∨ (negb valid || pre = false ∧ d = d1 ∧ w' = w)).
Proof.
  unfold init_objects.
  set (splits := split_names split0).
  destruct (load_splits w splits ([], [], [], [])) as [acc|] eqn:Hload;
    [|done].
  apply load_splits_loaded in Hload as Hl.
  2: { exists []. split; [done|constructor]. }
  destruct Hl as (lines & -> & _).
  fold (unindexed thres dflt ret splits tr lines).
  set (self := unindexed thres dflt ret splits tr lines).
  destruct (_check_preprocess w self) as [[valid self1]|] eqn:Hcheck;
    [|done].
  assert (∃ d1, self1 = set_obj_dict d1 self) as [d1 ->].
  { apply check_preprocess_spec in Hcheck
      as [(_ & _ & ->)|(? & ? & ? & _ & _ & _ & -> & _)].
    - by exists ∅.
    - by eexists. }
  destruct (negb valid || pre) eqn:Hre.
  - destruct (_preprocess w (set_obj_dict d1 self)) as [r w1] eqn:Hp.
    intros [= Hr <-]. apply bind_ok in Hr as (self2 & -> & Hr).
    apply bind_ok in Hr as ([objs num] & Hobjs & [= <-]).
    apply preprocess_spec in Hp as Hp'; [|done..].
    destruct Hp' as (d & text & -> & _).
    exists lines, valid, d1, d, objs, num. simpl. split_and!; try done.
    left. done.
  - intros [= Hr <-].
    apply bind_ok in Hr as ([objs num] & Hobjs & [= <-]).
    exists lines, valid, d1, d1, objs, num. simpl. split_and!; try done.
    by right.
Qed.

(** The check does not depend on anything of [self] but its identifiers. *)
Lemma check_preprocess_ids (w : world) (self self' : dataset) :
  im_ids self = im_ids self' → is_Some (obj_list_file w) →
  _check_preprocess w self'
  = '(valid, self1) ← _check_preprocess w self;
    Ok (valid, set_obj_dict (obj_dict self1) self').
Proof.
  intros Hids [text Htext]. unfold _check_preprocess. rewrite Htext.
  destruct (loads text) as [v|]; [|done]. simpl.
  destruct v; try done. destruct (as_catalog kv); [|done]. simpl.
  by rewrite Hids.
Qed.

Lemma sorted_eq_perm (l k : list str) : sorted l = sorted k ↔ l ≡ₚ k.
Proof.
  split; [|apply sorted_perm]. unfold sorted. intros H.
  by rewrite <- (merge_sort_Permutation str_le l), H, merge_sort_Permutation.
Qed.

Lemma keys_NoDup {V} (d : gmap str V) : NoDup (keys d).
Proof. apply NoDup_fst_map_to_list. Qed.

Lemma keys_perm_iff {V} (d : gmap str V) (ids : list str) :
  keys d ≡ₚ ids ↔ NoDup ids ∧ ∀ id, id ∈ ids ↔ is_Some (d !! id).
Proof.
  split.
  - intros Hperm. split.
    + rewrite <- Hperm. apply keys_NoDup.
    + intros id. by rewrite <- Hperm, elem_of_keys.
  - intros [Hnd Hdom]. by apply keys_perm.
Qed.

(** The check on the file that [_preprocess] wrote. *)
Lemma check_written_cache (w : world) (self self' : dataset) (w' : world)
    (self0 : dataset) :
  Forall plain_id (im_ids self) →
  _preprocess w self = (Ok self', w') →
  im_ids self0 = im_ids self →
  _check_preprocess w' self0
  = Ok (bool_decide (NoDup (im_ids self)),
        set_obj_dict (obj_dict self') self0).
Proof.
  intros Hplain H Hids. unfold _preprocess in H.
  destruct (for_ _ _ _) as [d|] eqn:Hloop; [|done].
  destruct (cache_text self d) as [text|] eqn:Htext; [|done].
  injection H as <- <-.
  apply cache_text_spec in Htext as (Hne & Hall & ->).
  pose proof (preprocess_loop_keys _ _ _ _ Hloop) as Hkeys.
  assert (∀ id, id ∈ im_ids self ↔ is_Some (d !! id)) as Hdom.
  { intros id. split; [|apply Hkeys]. rewrite Forall_forall in Hall.
    apply Hall. }
  unfold _check_preprocess. simpl.
  rewrite loads_cache_text.
  2: { by destruct (im_ids self). }
  2: { rewrite Forall_fmap. eapply Forall_impl; [exact Hplain|]. done. }
  simpl. rewrite as_catalog_items, py_dict_items by done.
  do 2 f_equal. rewrite Hids. apply bool_decide_ext.
  rewrite sorted_eq_perm, keys_perm_iff. tauto.
Qed.

End RebuildFacts.
Import RebuildFacts.

(** ** Listing the objects *)

Module ListingFacts.

Lemma getitem_negative {A} (l : list A) (i : Z) :
  0 ≤ i < len l → getitem l (i - len l) = getitem l i.
Proof.
  intros Hi. unfold getitem, len in *.
  destruct (Z.ltb_spec (i - Z.of_nat (length l)) 0); [|lia].
  destruct (Z.ltb_spec i 0); [lia|].
  replace (i - Z.of_nat (length l) + Z.of_nat (length l)) with i by lia.
  done.
Qed.

Lemma getitem_outside {A} (l : list A) (i : Z) :
  i < - len l ∨ len l ≤ i → getitem l i = Raise IndexError.
Proof.
  intros Hi. destruct (getitem l i) as [x|e] eqn:H.
  - apply getitem_range in H. lia.
  - unfold getitem in H. repeat case_match; congruence.
Qed.

Section objects.
Context (self : dataset).

(** The flag of lines 89-93 is set when an object was added. *)
Lemma add_objects_flag (ii : Z) (id : str) (cats : list Z) (L : list Z)
    (acc : list (Z * Z)) (flag : bool) :
  getitem (im_ids self) ii = Ok id →
  obj_dict self !! id = Some cats →
  (∀ jj, jj ∈ L → 0 ≤ jj < len cats) →
  for_ L (add_object self ii) (acc, flag)
  = Ok (acc ++ ((λ jj, (ii, jj)) <$>
                  filter (λ jj, cats !! Z.to_nat jj ≠ Some (-1)) L),
        flag || negb (bool_decide
                        (filter (λ jj, cats !! Z.to_nat jj ≠ Some (-1)) L
                         = []))).
Proof.
  intros Hid Hcats. revert acc flag.
  induction L as [|jj L IH]; intros acc flag HL; cbn [for_].
  - rewrite app_nil_r. by destruct flag.
  - destruct (HL jj) as [Hjj1 Hjj2]; [by left|].
    destruct (cats !! Z.to_nat jj) as [c|] eqn:Hc.
    2: { apply lookup_ge_None in Hc. unfold len in Hjj2. lia. }
    rewrite (add_object_step self ii jj id cats c) by done.
    cbn [mbind result_bind]. rewrite filter_cons.
    destruct (Z.eqb_spec c (-1)) as [->|Hne].
    + rewrite decide_False by (rewrite Hc; intros H; by apply H).
      apply IH. intros; apply HL; by right.
    + rewrite decide_True by (rewrite Hc; congruence).
      cbn [fst]. rewrite IH by (intros; apply HL; by right).
      rewrite fmap_cons. simpl. rewrite <- app_assoc. simpl.
      by rewrite orb_true_r.
Qed.

Lemma add_image_count (ii : Z) (acc : list (Z * Z)) (k : Z) r :
  0 ≤ ii →
  add_image self ii (acc, k) = Ok r →
  ∃ id, im_ids self !! Z.to_nat ii = Some id ∧
        r.2 = if decide (count_valid (obj_dict self !!! id) = 0%nat)
              then k else k + 1.
Proof.
  intros Hii H. unfold add_image in H.
  apply bind_ok in H as (id & Hid & H).
  apply bind_ok in H as (cats & Hcats & H).
  unfold dict_get in Hcats.
  destruct (obj_dict self !! id) as [cats'|] eqn:Hd; [|done].
  injection Hcats as ->. simpl in H.
  rewrite (add_objects_flag ii id cats) in H; [|done..|].
  2: { intros jj Hjj. apply elem_of_seqZ in Hjj. lia. }
  simpl in H. injection H as <-.
  exists id. split; [by apply getitem_ok|]. simpl.
  rewrite lookup_total_alt, Hd. simpl.
  rewrite <- (length_objects_of_cats ii cats). unfold objects_of_cats.
  rewrite length_fmap. unfold range.
  destruct (filter _ (seqZ 0 (len cats))) as [|x l]; done.
Qed.

Lemma add_images_count (pre post : list str) (acc : list (Z * Z)) (k : Z) r :
  im_ids self = pre ++ post →
  for_ (seqZ (len pre) (len post)) (add_image self) (acc, k) = Ok r →
  r.2 = k + Z.of_nat (length (filter
                 (λ id, count_valid (obj_dict self !!! id) ≠ 0%nat) post)).
Proof.
  revert pre acc k. induction post as [|id post IH]; intros pre acc k Hids.
  - simpl. intros [= <-]. simpl. lia.
  - unfold len. rewrite seqZ_cons by (simpl; lia). simpl for_.
    intros H. apply bind_ok in H as ([acc' k'] & Hbody & H).
    apply add_image_count in Hbody as (id' & Hid' & Hk); [|lia].
    rewrite Hids, Nat2Z.id, list_lookup_middle in Hid' by done.
    injection Hid' as <-. simpl in Hk.
    specialize (IH (pre ++ [id]) acc' k').
    rewrite <- app_assoc in IH. specialize (IH Hids).
    unfold len in IH. rewrite length_app in IH. simpl in IH.
    replace (Z.succ (Z.of_nat (length pre)))
      with (Z.of_nat (length pre + 1)) in H by lia.
    replace (Z.pred (Z.of_nat (S (length post))))
      with (Z.of_nat (length post)) in H by lia.
    apply IH in H. rewrite H, Hk, filter_cons.
    destruct (decide (count_valid (obj_dict self !!! id) = 0%nat)) as [E|E].
    + by rewrite decide_False by (intros H'; by apply H').
    + rewrite decide_True by done. simpl. lia.
Qed.

End objects.

Lemma NoDup_objects_of_cats (ii : Z) (cats : list Z) :
  NoDup (objects_of_cats ii cats).
Proof.
  unfold objects_of_cats. apply NoDup_fmap_2.
  - intros x y [= ->]. done.
  - apply NoDup_filter, NoDup_seqZ.
Qed.

Lemma NoDup_objects_from (k : nat) (ids : list str) (d : gmap str (list Z)) :
  NoDup (concat (imap (λ i id, objects_of_cats (Z.of_nat (k + i)) (d !!! id))
                   ids)) ∧
  ∀ e, e ∈ concat (imap (λ i id, objects_of_cats (Z.of_nat (k + i)) (d !!! id))
                     ids) → Z.of_nat k ≤ e.1.
Proof.
  revert k. induction ids as [|id ids IH]; intros k.
  - simpl. split; [constructor|]. by intros e ?%elem_of_nil.
  - rewrite imap_cons. simpl.
    assert (imap ((λ i id0, objects_of_cats (Z.of_nat (k + i)) (d !!! id0))
                    ∘ S) ids
            = imap (λ i id0, objects_of_cats (Z.of_nat (S k + i)) (d !!! id0))
                ids) as ->.
    { apply imap_ext. intros i x _. simpl. do 2 f_equal. lia. }
    destruct (IH (S k)) as [IH1 IH2]. split.
    + apply NoDup_app. split_and!; [apply NoDup_objects_of_cats| |done].
      intros e [He _]%elem_of_objects_of_cats Hin%IH2. lia.
    + intros e [[He _]%elem_of_objects_of_cats|Hin%IH2]%elem_of_app; lia.
Qed.

Lemma NoDup_objects_of (ids : list str) (d : gmap str (list Z)) :
  NoDup (objects_of ids d).
Proof. apply (NoDup_objects_from 0). Qed.

End ListingFacts.
Import ListingFacts.

(** ** Assembled samples *)

Module SampleFacts.

Lemma same_shape_map {A B} (f : A → B) (a : list (list A)) :
  same_shape (map (map f) a) a.
Proof.
  unfold same_shape. induction a as [|row a IH]; constructor; [|done].
  apply length_map.
Qed.

Lemma binary_mask (F : Z → bool) (raw : raster) :
  binary (map (map (λ x, float_of_bool (F x))) raw).
Proof.
  unfold binary. rewrite flatten_map, Forall_fmap. apply Forall_true.
  intros x. simpl. destruct (F x); simpl; lia.
Qed.

Lemma pixel_count_mask (F : Z → bool) (raw : raster) :
  pixel_count (map (map (λ x, float_of_bool (F x))) raw) 1
  = length (filter (λ x, F x = true) (flatten raw)).
Proof.
  unfold pixel_count. rewrite flatten_map.
  induction (flatten raw) as [|x l IH]; [done|].
  rewrite fmap_cons, !filter_cons.
  destruct (F x) eqn:E; cbn [float_of_bool].
  - rewrite !decide_True by done. cbn [length]. f_equal. apply IH.
  - rewrite !decide_False by done. apply IH.
Qed.

Lemma filter_ext_in {A} (P Q : A → Prop) `{∀ x, Decision (P x)}
    `{∀ x, Decision (Q x)} (l : list A) :
  (∀ x, x ∈ l → P x ↔ Q x) → filter P l = filter Q l.
Proof.
  induction l as [|x l IH]; intros HPQ; [done|].
  rewrite !filter_cons.
  destruct (decide (P x)) as [HP|HP].
  - rewrite decide_True by (apply HPQ; [by left|done]).
    f_equal. apply IH. intros y Hy. apply HPQ. by right.
  - rewrite decide_False by (rewrite <- HPQ; [done|by left]).
    apply IH. intros y Hy. apply HPQ. by right.
Qed.

Lemma getitem2_pixel_inv {A} (a : list (list A)) (r c : nat) (x : A) :
  getitem2 a (Z.of_nat r) (Z.of_nat c) = Ok x → pixel a r c = Some x.
Proof.
  unfold getitem2, pixel. rewrite getitem_nat.
  destruct (a !! r) as [row|]; [|done]. simpl. rewrite getitem_nat.
  destruct (row !! c); [|done]. by intros [= ->].
Qed.

(** An entry other than -1 of the list of the index builder. *)
Lemma instance_category_inv (R C : raster) (t jj v : Z) :
  instance_category R C t jj = Ok v → v ≠ -1 →
  t < Z.of_nat (pixel_count R (jj + 1)) ∧
  ∃ p, first_pixel R (jj + 1) p ∧ pixel C p.1 p.2 = Some v.
Proof.
  unfold instance_category. rewrite length_fmap.
  unfold np_where at 1. rewrite where_from_length.
  destruct (Z.ltb_spec t (Z.of_nat (pixel_count R (jj + 1)))) as [Hlt|Hge].
  2: { intros [= <-]. done. }
  intros H _. split; [done|].
  destruct (np_where (eq_scalar R (jj + 1))) as [|p l] eqn:Hw.
  { done. }
  apply np_where_first in Hw. exists p. split; [done|].
  simpl in H. by apply getitem2_pixel_inv.
Qed.

Lemma image_cat_ids_entry (R C : raster) (t : Z) (cats : list Z)
    (jj v : Z) :
  image_cat_ids R C t = Ok cats → 0 ≤ jj →
  cats !! Z.to_nat jj = Some v →
  instance_category R C t jj = Ok v ∧
  ∃ n, largest_non_boundary R n ∧ jj < n.
Proof.
  intros H Hjj Hv. unfold image_cat_ids in H.
  apply bind_ok in H as (n & Hn & H).
  apply n_objects_spec in Hn.
  unfold cat_ids_upto, range in H. apply mapM_ok in H.
  destruct (Forall2_lookup_r _ _ _ _ _ H Hv) as (x & Hx & Hcat).
  apply lookup_seqZ in Hx as [-> Hlt].
  replace (0 + Z.of_nat (Z.to_nat jj)) with jj in Hcat by lia.
  split; [done|]. exists n. split; [done|lia].
Qed.

Lemma for_each_ok {S} (l : list Z) (body : Z → S → result S) (s r : S) :
  for_ l body s = Ok r → ∀ i, i ∈ l → ∃ a b, body i a = Ok b.
Proof.
  revert s. induction l as [|j l IH]; intros s H i Hi.
  - by apply elem_of_nil in Hi.
  - simpl in H. apply bind_ok in H as (s' & Hbody & H).
    apply elem_of_cons in Hi as [->|Hi]; [eauto|]. by eapply IH.
Qed.

(** The loop of lines 188-193 reads the catalog entry of every value from 1
    to the largest value of the raster. *)
Lemma make_pair_reads_catalog (w : world) (self : dataset) (index : Z)
    (p : pair) (entry : Z * Z) (mpath : str) (raw : raster) (id : str)
    (cats : list Z) (top : Z) :
  _make_img_gt_point_pair w self index = Ok p →
  default self = false →
  getitem (obj_list self) index = Ok entry →
  getitem (masks self) entry.1 = Ok mpath →
  object_masks w !! mpath = Some raw →
  getitem (im_ids self) entry.1 = Ok id →
  obj_dict self !! id = Some cats →
  np_max (map (map void_zeroed) raw) = Ok top →
  ∀ v, 1 ≤ v ≤ top → is_Some (cats !! Z.to_nat (v - 1)).
Proof.
  unfold _make_img_gt_point_pair.
  intros H Hmode Hentry Hmpath Hraw Hid Hcats Htop v Hv.
  rewrite Hentry in H. simpl in H.
  apply bind_ok in H as (ipath & _ & H).
  apply bind_ok in H as (img & _ & H).
  rewrite Hmpath in H. simpl in H. unfold read_file in H.
  rewrite Hraw in H. simpl in H. rewrite Hmode, Hid in H. simpl in H.
  unfold dict_get in H. rewrite Hcats in H. simpl in H.
  apply bind_ok in H as (obj_cat & _ & H).
  rewrite zero_where_void, Htop in H. simpl in H.
  apply bind_ok in H as (others & Hloop & _).
  destruct (for_each_ok _ _ _ _ Hloop v) as (acc & acc' & Hstep).
  { unfold range2. apply elem_of_seqZ. lia. }
  eapply add_distractor_inv in Hstep as [ii_cat Hc]; [by eexists|done..|lia].
Qed.

End SampleFacts.
Import SampleFacts.

(** ** The area threshold *)

Module ThresholdFacts.

Lemma Forall2_results {A B} (f g : A → result B) (P : B → B → Prop)
    (l : list A) (k : list B) :
  Forall2 (λ x y, f x = Ok y) l k →
  (∀ x y, f x = Ok y → ∃ y', g x = Ok y' ∧ P y y') →
  ∃ k', Forall2 (λ x y', g x = Ok y') l k' ∧ Forall2 P k k'.
Proof.
  intros H Hfg. induction H as [|x y l k Hxy _ (k' & IH1 & IH2)].
  - exists []. split; constructor.
  - destruct (Hfg x y Hxy) as (y' & Hy' & HP).
    exists (y' :: k'). split; by constructor.
Qed.

Lemma instance_category_raise (R C : raster) (t t' jj v : Z) :
  instance_category R C t jj = Ok v → t ≤ t' →
  ∃ v', instance_category R C t' jj = Ok v' ∧ (v' = -1 ∨ v' = v).
Proof.
  unfold instance_category. intros H Hle.
  destruct (Z.ltb_spec t' (Z.of_nat (length (np_where (eq_scalar R (jj + 1))).*1))).
  - destruct (Z.ltb_spec t (Z.of_nat (length (np_where (eq_scalar R (jj + 1))).*1)));
      [|lia].
    exists v. split; [done|by right].
  - exists (-1). split; [done|by left].
Qed.

Lemma count_valid_filtered (cats cats' : list Z) :
  Forall2 (λ y y', y' = -1 ∨ y' = y) cats cats' →
  (count_valid cats' ≤ count_valid cats)%nat.
Proof.
  unfold count_valid. induction 1 as [|y y' k k' Hy _ IH]; [done|].
  rewrite !filter_cons.
  destruct Hy as [->| ->].
  - rewrite decide_False by (intros H; by apply H).
    case_decide; simpl; lia.
  - case_decide; simpl; lia.
Qed.

Lemma sum_list_with_le_in {A} (f g : A → nat) (l : list A) :
  Forall (λ x, (f x ≤ g x)%nat) l →
  (sum_list_with f l ≤ sum_list_with g l)%nat.
Proof. induction 1; simpl; lia. Qed.

(** The catalog that a rebuild leaves, at a loaded identifier. *)
Lemma rebuilt_entry (w : world) split0 tr thres (pre dflt ret : bool)
    (ds : dataset) (w' : world) (id : str) :
  __init__ w split0 tr thres pre dflt ret = (Ok ds, w') →
  obj_list_file w = None ∨ pre = true →
  id ∈ im_ids ds →
  ∃ R C cats, object_masks w !! id = Some R ∧ class_masks w !! id = Some C ∧
              obj_dict ds !! id = Some cats ∧
              image_cat_ids R C thres = Ok cats.
Proof.
  intros [Hinit _]%init_spec Hre Hid.
  apply init_objects_spec in Hinit as Hspec.
  destruct Hspec as (Hwf & Hthres & _ & _ & _ & Hag).
  specialize (Hag Hre).
  apply init_objects_inv in Hinit
    as (lines & valid & d1 & d & objs & num & _ & Hcheck & _ & _ & Hcase).
  assert (∃ text, w' = write_obj_list_file w text) as [text ->].
  { destruct Hcase as [[_ Hp]|(Hno & _ & _)].
    - apply preprocess_spec in Hp as (? & text & _ & _ & _ & -> & _);
        [by eexists|done..].
    - apply orb_false_iff in Hno as [Hvalid%negb_false_iff ->].
      destruct Hre as [Hnone|[=]]. subst valid.
      apply check_preprocess_spec in Hcheck
        as [(_ & [=] & _)|(? & ? & ? & ? & _)]. congruence. }
  apply (well_formed_dom _ _ id Hwf) in Hid as [cats Hcats].
  destruct (Hag id cats Hcats) as [_ Hbuild].
  unfold built_cat_ids in Hbuild. simpl in Hbuild.
  destruct (object_masks w !! id) as [R|]; [|done].
  destruct (class_masks w !! id) as [C|]; [|done].
  simpl in Hbuild. injection Hbuild as Hbuild. rewrite Hthres in Hbuild.
  by exists R, C, cats.
Qed.

End ThresholdFacts.
Import ThresholdFacts.

(** ** Paths *)

Module PathFacts.
Import Paths.

Lemma join_component_relative (path b : str) :
  relative b → join_component path b = dir_prefix path ++ b.
Proof.
  unfold relative, join_component, dir_prefix. intros ->.
  destruct path; [done|]. destruct (endswith_sep _); [done|].
  by rewrite <- app_assoc.
Qed.

Lemma relative_app_nil (a b : str) : relative a → relative b → relative (a ++ b).
Proof. by destruct a. Qed.

Lemma endswith_sep_app (a b : str) :
  b ≠ [] → endswith_sep (a ++ b) = endswith_sep b.
Proof.
  intros Hb. destruct (exists_last Hb) as (b' & x & ->).
  unfold endswith_sep. by rewrite app_assoc, !last_snoc.
Qed.

(** A directory of the dataset: a path that ends with a name. *)
Lemma dir_prefix_app (p name : str) :
  name ≠ [] → endswith_sep name = false →
  dir_prefix (p ++ name) = p ++ name ++ [47%N].
Proof.
  intros Hne Hname. unfold dir_prefix.
  destruct (p ++ name) as [|c l] eqn:E.
  { by destruct p, name. }
  rewrite <- E, endswith_sep_app, Hname by done. by rewrite <- app_assoc.
Qed.

Lemma last_join_component (path b : str) :
  b ≠ [] → last (join_component path b) = last b.
Proof.
  intros Hb. unfold join_component.
  destruct (startswith_sep b); [done|].
  destruct (exists_last Hb) as (b' & x & ->).
  destruct path as [|c path]; [done|].
  destruct (endswith_sep _).
  - by rewrite app_assoc, !last_snoc.
  - by rewrite !app_assoc, !last_snoc.
Qed.

Lemma join_component_suffix (path b : str) :
  ∃ pre, join_component path b = pre ++ b.
Proof.
  unfold join_component. destruct (startswith_sep b); [by exists []|].
  destruct path as [|c path]; [by exists []|].
  destruct (endswith_sep _); [by eexists|].
  exists ((c :: path) ++ [47%N]). by rewrite <- app_assoc.
Qed.

(** A relative name under [ImageSets/Segmentation]. *)
Lemma splits_join (base_dir name : str) :
  relative name →
  os_path_join base_dir [ImageSets; Segmentation; name]
  = dir_prefix base_dir ++ ImageSets ++ [47%N] ++ Segmentation ++ [47%N]
      ++ name.
Proof.
  intros Hrel. unfold os_path_join. cbn [foldl].
  rewrite (join_component_relative base_dir) by done.
  rewrite (join_component_relative _ Segmentation) by done.
  rewrite (join_component_relative _ name) by done.
  rewrite !dir_prefix_app by done. by rewrite <- !app_assoc.
Qed.

(** A file named after the relative [name] in a directory of the dataset. *)
Lemma dir_join (base_dir dir name : str) :
  dir ≠ [] → endswith_sep dir = false → relative dir → relative name →
  os_path_join (os_path_join base_dir [dir]) [name]
  = dir_prefix base_dir ++ dir ++ [47%N] ++ name.
Proof.
  intros Hne Hend Hdir Hrel. unfold os_path_join. cbn [foldl].
  rewrite (join_component_relative base_dir) by done.
  rewrite (join_component_relative _ name) by done.
  rewrite dir_prefix_app by done. by rewrite <- !app_assoc.
Qed.

Lemma length_join_ge (sep x : str) (l : list str) :
  x ∈ l → (length x ≤ length (join sep l))%nat.
Proof.
  induction l as [|y l IH]; [by intros ?%elem_of_nil|].
  intros [->|Hx]%elem_of_cons.
  - destruct l; simpl; [done|]. rewrite length_app. lia.
  - specialize (IH Hx). destruct l as [|z l]; [by apply elem_of_nil in Hx|].
    change (join sep (y :: z :: l)) with (y ++ sep ++ join sep (z :: l)).
    rewrite !length_app. lia.
Qed.

Lemma relative_join (sep : str) (l : list str) :
  relative sep → Forall relative l → relative (join sep l).
Proof.
  intros Hsep. induction 1 as [|x l Hx Hl IH]; [done|].
  destruct l as [|y l]; [done|].
  change (join sep (x :: y :: l)) with (x ++ sep ++ join sep (y :: l)).
  apply relative_app_nil; [done|]. by apply relative_app_nil.
Qed.

Lemma obj_list_file_eq (base_dir : str) (split : list str) (t : Z) :
  relative (join underscore split) →
  obj_list_file base_dir split t
  = dir_prefix base_dir ++ ImageSets ++ [47%N] ++ Segmentation ++ [47%N]
      ++ cache_name split t.
Proof.
  intros H. apply splits_join. unfold cache_name.
  by apply relative_app_nil.
Qed.

Lemma manifest_file_eq (base_dir splt : str) :
  relative splt →
  manifest_file base_dir splt
  = dir_prefix base_dir ++ ImageSets ++ [47%N] ++ Segmentation ++ [47%N]
      ++ splt ++ dot_txt.
Proof.
  intros H.
  change (manifest_file base_dir splt)
    with (os_path_join base_dir [ImageSets; Segmentation; splt ++ dot_txt]).
  apply splits_join. by apply relative_app_nil.
Qed.

(** The digits at the end of a name, last digit first. *)
Lemma take_digits_stop (ds rest : str) :
  Forall (λ c, is_digit c = true) ds →
  match rest with c :: _ => is_digit c = false | [] => True end →
  take_digits (ds ++ rest) = (ds, rest).
Proof.
  intros Hds Hrest. induction Hds as [|c ds Hc _ IH]; simpl.
  - destruct rest as [|c rest]; [done|]. simpl. by rewrite Hrest.
  - by rewrite Hc, IH.
Qed.

Lemma str_of_int_parts (z : Z) :
  ∃ ds, str_of_int z = (if z <? 0 then [45%N] else []) ++ ds ∧
        ds ≠ [] ∧ Forall (λ c, is_digit c = true) ds.
Proof.
  exists (chars_of_uint (N.to_uint (Z.abs_N z))). split_and!; [done| |].
  - intros E. destruct (str_of_int_head z) as (c & s & Hs & Hc).
    unfold str_of_int in Hs. rewrite E, app_nil_r in Hs.
    destruct (z <? 0); [|done]. injection Hs as <- <-.
    by destruct Hc as [Hc|(_ & c' & s' & [=] & _)].
  - apply chars_of_uint_digits.
Qed.

Lemma str_of_int_inj (z1 z2 : Z) : str_of_int z1 = str_of_int z2 → z1 = z2.
Proof.
  intros H. by rewrite <- (int_of_str_of_int z1), H, int_of_str_of_int.
Qed.

(** The threshold can be read off the end of the name. *)
Lemma area_th_str_end (a1 a2 : str) (t1 t2 : Z) :
  a1 ++ _instances ++ area_th_str t1 = a2 ++ _instances ++ area_th_str t2 →
  t1 = t2.
Proof.
  intros H. apply (f_equal reverse) in H.
  rewrite !reverse_app, <- !app_assoc in H.
  apply (f_equal take_digits) in H. unfold area_th_str in H.
  assert (∀ a, take_digits (reverse [] ++ reverse _instances ++ reverse a)
               = ([], reverse _instances ++ reverse a)) as H0 by done.
  assert (∀ t a, t ≠ 0 →
    ∃ ds, ds ≠ [] ∧
      take_digits (reverse (_area_thres ++ str_of_int t)
                     ++ reverse _instances ++ reverse a)
      = (ds, (if t <? 0 then [45%N] else [])
               ++ reverse _area_thres ++ reverse _instances ++ reverse a) ∧
      str_of_int t = (if t <? 0 then [45%N] else []) ++ reverse ds) as Ht.
  { intros t a Hne. destruct (str_of_int_parts t) as (ds & Hds & Hnil & Hdig).
    exists (reverse ds). split_and!.
    - intros E. apply (f_equal reverse) in E.
      by rewrite reverse_involutive in E.
    - rewrite Hds, !reverse_app, <- !app_assoc.
      destruct (t <? 0);
        (apply take_digits_stop; [by apply Forall_reverse|done]).
    - by rewrite reverse_involutive. }
  destruct (Z.eqb_spec t1 0) as [E1|H1]; destruct (Z.eqb_spec t2 0) as [E2|H2].
  - congruence.
  - destruct (Ht t2 a2 H2) as (ds & Hnil & Hds & _).
    rewrite H0, Hds in H. injection H as H _. congruence.
  - destruct (Ht t1 a1 H1) as (ds & Hnil & Hds & _).
    rewrite H0, Hds in H. injection H as H _. congruence.
  - destruct (Ht t1 a1 H1) as (ds1 & _ & Hds1 & Hs1).
    destruct (Ht t2 a2 H2) as (ds2 & _ & Hds2 & Hs2).
    rewrite Hds1, Hds2 in H. injection H as -> Hrest.
    apply str_of_int_inj. rewrite Hs1, Hs2. f_equal.
    destruct (t1 <? 0), (t2 <? 0); done.
Qed.

End PathFacts.
Import PathFacts.

(** ** Lines of text *)

Module TextFacts.

Lemma splitlines_from_line (l eol rest cur : str) :
  one_line l → eol = [10%N] ∨ eol = [13%N; 10%N] →
  splitlines_from (l ++ eol ++ rest) cur
  = (reverse cur ++ l) :: splitlines_from rest [].
Proof.
  intros Hl Heol. revert cur.
  induction Hl as [|c l Hc _ IH]; intros cur.
  - rewrite app_nil_r. destruct Heol as [-> | ->]; done.
  - simpl. destruct (N.eqb_spec c 13) as [->|_]; [done|].
    rewrite Hc, IH, reverse_cons, <- app_assoc. done.
Qed.

Lemma splitlines_text_of_lines (eol : str) (lines : list str) :
  Forall one_line lines → eol = [10%N] ∨ eol = [13%N; 10%N] →
  splitlines (text_of_lines eol lines) = lines.
Proof.
  intros Hl Heol. unfold splitlines, text_of_lines.
  induction Hl as [|l lines Hone _ IH]; [done|].
  rewrite fmap_cons. simpl. rewrite <- app_assoc.
  rewrite splitlines_from_line by done. by rewrite IH.
Qed.

End TextFacts.
Import TextFacts.

(** ** Transposed arrays *)

Module TensorFacts.



End TensorFacts.
Import TensorFacts.

(** ** [repr] of strings *)

Module ReprFacts.

Lemma hexdigits_S (k : nat) (c : N) :
  hexdigits (S k) c
  = hexdigit (N.land (N.shiftr c (4 * N.of_nat k)) 15) :: hexdigits k c.
Proof.
  unfold hexdigits. by rewrite seq_S, reverse_app.
Qed.

Lemma length_hexdigits (k : nat) (c : N) : length (hexdigits k c) = k.
Proof.
  unfold hexdigits. by rewrite length_fmap, length_reverse, length_seq.
Qed.

Lemma unhexdigit_hexdigit (n : N) : (n < 16)%N → unhexdigit (hexdigit n) = n.
Proof.
  intros Hn. unfold unhexdigit, hexdigit.
  destruct (N.ltb_spec n 10).
  - destruct (N.ltb_spec (48 + n) 58); lia.
  - destruct (N.ltb_spec (87 + n) 58); lia.
Qed.

Lemma unhex_from (ds : str) (a : N) :
  foldl (λ acc d, (acc * 16 + unhexdigit d)%N) a ds
  = (a * 16 ^ N.of_nat (length ds) + unhex ds)%N.
Proof.
  unfold unhex. revert a. induction ds as [|d ds IH]; intros a.
  - simpl. lia.
  - cbn [foldl length]. rewrite IH, (IH (0 * 16 + unhexdigit d)%N).
    rewrite Nat2N.inj_succ, N.pow_succ_r'. lia.
Qed.

Lemma unhex_hexdigits (k : nat) (c : N) :
  unhex (hexdigits k c) = (c mod 16 ^ N.of_nat k)%N.
Proof.
  induction k as [|k IH].
  - simpl. by rewrite N.mod_1_r.
  - rewrite hexdigits_S. unfold unhex. cbn [foldl].
    rewrite unhex_from, length_hexdigits, IH.
    change 15%N with (N.ones 4). rewrite N.land_ones, N.shiftr_div_pow2.
    rewrite unhexdigit_hexdigit by (apply N.mod_upper_bound; lia).
    rewrite Nat2N.inj_succ, N.pow_succ_r', (N.mul_comm 16).
    rewrite N.Div0.mod_mul_r.
    replace (2 ^ (4 * N.of_nat k))%N with (16 ^ N.of_nat k)%N.
    + change (2 ^ 4)%N with 16%N. lia.
    + change 16%N with (2 ^ 4)%N. by rewrite <- N.pow_mul_r.
Qed.

Lemma unhex_small (k : nat) (c : N) (r : str) :
  (c < 16 ^ N.of_nat k)%N →
  unhex (take k (hexdigits k c ++ r)) = c ∧
  drop k (hexdigits k c ++ r) = r.
Proof.
  intros Hc. split.
  - rewrite take_app_length' by by rewrite length_hexdigits.
    rewrite unhex_hexdigits. by apply N.mod_small.
  - by rewrite drop_app_length' by by rewrite length_hexdigits.
Qed.

Section repr.
Variable isprintable : N → bool.

Lemma unrepr_escape (quote e : N) (ds r : str) :
  quote = 34%N ∨ quote = 39%N →
  unrepr_char quote ((92%N :: e :: ds) ++ r)
  = if (e =? 116)%N then Some (9%N, ds ++ r)
    else if (e =? 110)%N then Some (10%N, ds ++ r)
    else if (e =? 114)%N then Some (13%N, ds ++ r)
    else if (e =? 120)%N then Some (unhex (take 2 (ds ++ r)), drop 2 (ds ++ r))
    else if (e =? 117)%N then Some (unhex (take 4 (ds ++ r)), drop 4 (ds ++ r))
    else if (e =? 85)%N then Some (unhex (take 8 (ds ++ r)), drop 8 (ds ++ r))
    else Some (e, ds ++ r).
Proof. intros [-> | ->]; reflexivity. Qed.

Lemma unrepr_plain (quote c : N) (r : str) :
  c ≠ quote → c ≠ 92%N → unrepr_char quote ([c] ++ r) = Some (c, r).
Proof.
  intros H1%N.eqb_neq H2%N.eqb_neq. simpl. by rewrite H1, H2.
Qed.

Lemma unrepr_hex (quote e : N) (k : nat) (c : N) (r : str) :
  quote = 34%N ∨ quote = 39%N →
  (e = 120%N ∧ k = 2%nat) ∨ (e = 117%N ∧ k = 4%nat) ∨ (e = 85%N ∧ k = 8%nat) →
  (c < 16 ^ N.of_nat k)%N →
  unrepr_char quote ((92%N :: e :: hexdigits k c) ++ r) = Some (c, r).
Proof.
  intros Hq Hk Hc. rewrite unrepr_escape by done.
  destruct (unhex_small k c r Hc) as [H1 H2].
  destruct Hk as [[-> ->]|[[-> ->]|[-> ->]]]; cbn [N.eqb Pos.eqb];
    by rewrite H1, H2.
Qed.

Lemma unrepr_repr_char (quote c : N) (r : str) :
  quote = 34%N ∨ quote = 39%N → (c ≤ 1114111)%N →
  unrepr_char quote (repr_char isprintable quote c ++ r) = Some (c, r).
Proof.
  intros Hq Hc. unfold repr_char.
  destruct (N.eqb_spec c quote) as [Hcq|Hcq].
  { subst c. rewrite (unrepr_escape quote quote []) by done.
    destruct Hq as [-> | ->]; reflexivity. }
  destruct (N.eqb_spec c 92) as [H92|H92].
  { subst c. rewrite (unrepr_escape quote 92 []) by done. reflexivity. }
  cbn [orb].
  destruct (N.eqb_spec c 9) as [H9|H9].
  { subst c. by rewrite (unrepr_escape quote 116 []). }
  destruct (N.eqb_spec c 10) as [H10|H10].
  { subst c. by rewrite (unrepr_escape quote 110 []). }
  destruct (N.eqb_spec c 13) as [H13|H13].
  { subst c. by rewrite (unrepr_escape quote 114 []). }
  destruct ((c <? 32) || (c =? 127))%N eqn:Hctl.
  { apply unrepr_hex; [done|auto|].
    apply orb_true_iff in Hctl as [?%N.ltb_lt| ?%N.eqb_eq]; simpl; lia. }
  destruct (c <? 127)%N; [by apply unrepr_plain|].
  destruct (isprintable c); [by apply unrepr_plain|].
  destruct (N.leb_spec c 255).
  { apply unrepr_hex; [done|auto|]. simpl; lia. }
  destruct (N.leb_spec c 65535).
  { apply unrepr_hex; [done|auto|]. simpl; lia. }
  apply unrepr_hex; [done|auto|]. simpl; lia.
Qed.

Lemma repr_chars_inj (quote : N) (s1 s2 r1 r2 : str) :
  quote = 34%N ∨ quote = 39%N → code_points s1 → code_points s2 →
  concat (repr_char isprintable quote <$> s1) ++ quote :: r1
  = concat (repr_char isprintable quote <$> s2) ++ quote :: r2 →
  s1 = s2 ∧ r1 = r2.
Proof.
  intros Hq H1. revert s2. induction H1 as [|c1 s1 Hc1 _ IH]; intros s2 H2 H.
  - destruct H2 as [|c2 s2 Hc2 _].
    + simpl in H. by injection H as ->.
    + apply (f_equal (unrepr_char quote)) in H.
      rewrite fmap_cons in H. cbn [concat] in H.
      rewrite <- app_assoc, unrepr_repr_char in H by done.
      simpl in H. by rewrite N.eqb_refl in H.
  - destruct H2 as [|c2 s2 Hc2 H2].
    + apply (f_equal (unrepr_char quote)) in H.
      rewrite fmap_cons in H. cbn [concat] in H.
      rewrite <- app_assoc, unrepr_repr_char in H by done.
      simpl in H. by rewrite N.eqb_refl in H.
    + apply (f_equal (unrepr_char quote)) in H.
      rewrite !fmap_cons in H. cbn [concat] in H.
      rewrite <- !app_assoc, !unrepr_repr_char in H by done.
      injection H as -> H. apply IH in H as [-> ->]; done.
Qed.

Lemma repr_quote_cases (s : str) :
  repr_quote s = 34%N ∨ repr_quote s = 39%N.
Proof. unfold repr_quote. destruct (_ && _); auto. Qed.

Lemma repr_str_inj (s1 s2 r1 r2 : str) :
  code_points s1 → code_points s2 →
  repr_str isprintable s1 ++ r1 = repr_str isprintable s2 ++ r2 →
  s1 = s2 ∧ r1 = r2.
Proof.
  intros H1 H2 H. unfold repr_str in H. simpl in H.
  injection H as Hq H. rewrite <- Hq, <- !app_assoc in H.
  eapply repr_chars_inj; [apply repr_quote_cases|done..].
Qed.

Lemma repr_str_head (s r : str) :
  ∃ q t, repr_str isprintable s ++ r = q :: t ∧ (q = 34%N ∨ q = 39%N).
Proof.
  unfold repr_str. simpl. eexists _, _. split; [done|].
  apply repr_quote_cases.
Qed.

Lemma str_of_list_items (l : list str) (rest : str) :
  str_of_list isprintable l ++ rest
  = 91%N :: match l with
            | [] => 93%N :: rest
            | _ :: _ => items_text isprintable l rest
            end.
Proof.
  unfold str_of_list. simpl. f_equal. rewrite <- app_assoc. simpl.
  destruct l as [|x l]; [done|].
  revert x. induction l as [|y l IH]; intros x.
  - simpl. by rewrite <- app_assoc.
  - rewrite !fmap_cons.
    change (join [44%N; 32%N] (?a :: ?b :: ?c))
      with (a ++ [44%N; 32%N] ++ join [44%N; 32%N] (b :: c)).
    rewrite <- !app_assoc. rewrite <- fmap_cons, IH. done.
Qed.

Lemma items_text_inj (l1 l2 : list str) (r1 r2 : str) :
  l1 ≠ [] → l2 ≠ [] → Forall code_points l1 → Forall code_points l2 →
  items_text isprintable l1 r1 = items_text isprintable l2 r2 →
  l1 = l2 ∧ r1 = r2.
Proof.
  intros Hne1 Hne2 H1. revert l2 Hne2.
  induction H1 as [|x1 l1 Hx1 Hl1 IH]; [done|].
  intros l2 Hne2 H2 H. destruct H2 as [|x2 l2 Hx2 Hl2]; [done|].
  cbn [items_text] in H. apply repr_str_inj in H as [-> H]; [|done..].
  destruct l1 as [|y1 l1], l2 as [|y2 l2]; try done.
  - by injection H as ->.
  - apply (f_equal (drop 2)) in H. cbn [drop] in H.
    apply IH in H as [-> ->]; done.
Qed.

Lemma items_text_head (x : str) (l : list str) (r : str) :
  ∃ q t, items_text isprintable (x :: l) r = q :: t ∧ (q = 34%N ∨ q = 39%N).
Proof. cbn [items_text]. apply repr_str_head. Qed.

Lemma str_of_list_inj (l1 l2 : list str) (r1 r2 : str) :
  Forall code_points l1 → Forall code_points l2 →
  str_of_list isprintable l1 ++ r1 = str_of_list isprintable l2 ++ r2 →
  l1 = l2 ∧ r1 = r2.
Proof.
  intros H1 H2 H. rewrite !str_of_list_items in H.
  apply (f_equal (drop 1)) in H. cbn [drop] in H.
  destruct l1 as [|x1 l1], l2 as [|x2 l2].
  - by injection H as ->.
  - destruct (items_text_head x2 l2 r2) as (q & t & Hq & Hcase).
    rewrite Hq in H. injection H as <- _. by destruct Hcase.
  - destruct (items_text_head x1 l1 r1) as (q & t & Hq & Hcase).
    rewrite Hq in H. injection H as -> _. by destruct Hcase.
  - by apply items_text_inj.
Qed.

End repr.

End ReprFacts.
Import ReprFacts.

(** * The claims *)

(** ** C1: what [__getitem__] returns *)

(** C1, as stated, fails: the sample at position 0 of the example dataset
    holds the image, the target mask, the void mask and the metadata; no key
    holds the background mask. *)
Lemma getitem_drops_background : ¬ getitem_claim ex_world' ex_ds 0.
Proof.
  intros (s & p & Hs & Hp & _ & _ & _ & _ & _ & (k & Hbg) & _).
  assert (_make_img_gt_point_pair ex_world' ex_ds 0
          = Ok (Pair img_a [[0; 1; 0; 0]] [[0; 0; 0; 0]] [[0; 0; 1; 1]]
                  [[0; 0; 0; 0]] [[1; 0; 0; 0]])) as Hp'
    by (vm_compute; reflexivity).
  rewrite Hp' in Hp. injection Hp as <-. simpl in Hbg.
  assert (∃ m, __getitem__ ex_world' ex_ds 0 ≫= (λ s, Ok (map_to_list s))
          = Ok [("gt", VArray [[0; 1; 0; 0]]); ("meta", VMeta m);
                ("image", VImage img_a);
                ("void_pixels", VArray [[0; 0; 0; 0]])]) as [m Hs'].
  { eexists. vm_compute. reflexivity. }
  rewrite Hs in Hs'. simpl in Hs'. injection Hs' as Hs'.
  apply elem_of_map_to_list in Hbg. rewrite Hs' in Hbg.
  rewrite !elem_of_cons in Hbg.
  destruct Hbg as [H|[H|[H|[H|H]]]]; try discriminate H.
  by apply elem_of_nil in H.
Qed.

(** C1 (amended): at every valid position of a constructed dataset whose
    catalog agrees with the rasters, [__getitem__] returns the transform, if
    any, of a dict that holds the image under [image], the target mask
    under [gt], the void mask under [void_pixels] and, when [retname] is
    set, the identifier, the instance position, its category and the image
    height and width under [meta]; the other-class, same-class and
    background masks are computed and dropped. *)
Theorem getitem_returns_image_target_void (w : world)
    (split0 : str + list str) (transform0 : option (sample → sample))
    (area_thres0 : Z) (preprocess default0 retname0 : bool) (ds : dataset)
    (w' : world) (index : Z) :
  __init__ w split0 transform0 area_thres0 preprocess default0 retname0
  = (Ok ds, w') →
  catalog_agrees w' ds →
  0 ≤ index < __len__ ds →
  ∃ p entry id cats category,
    _make_img_gt_point_pair w' ds index = Ok p ∧
    getitem (obj_list ds) index = Ok entry ∧
    getitem (im_ids ds) entry.1 = Ok id ∧
    obj_dict ds !! id = Some cats ∧
    getitem cats entry.2 = Ok category ∧
    __getitem__ w' ds index
    = Ok (returned transform0
            (sample_of retname0 p
               (Meta id (str_of_int entry.2) category
                  (shape0 (p_img p), shape1 (p_img p))))).
Proof.
  intros (Hwf & _ & Hret & Htr & _)%init_well_formed Hag Hindex.
  destruct (make_pair_total w' ds index Hwf Hag) as [p Hp].
  { unfold __len__ in Hindex. lia. }
  apply make_pair_inv in Hp as Hinv.
  destruct Hinv as (entry & _ & _ & _ & He & _).
  apply getitem_elem_of in He as Hin.
  apply (obj_list_entry w' ds entry Hwf) in Hin
    as (_ & _ & id & cats & category & Hid & _ & Hcats & Hcat & _).
  exists p, entry, id, cats, category. split_and!; [done..|].
  unfold __getitem__, sample_of, returned, dict_get.
  rewrite Hp, Hret, Htr. simpl.
  destruct retname0.
  - rewrite He. simpl. rewrite Hid. simpl. rewrite Hcats. simpl.
    rewrite Hcat. simpl. by destruct transform0.
  - simpl. by destruct transform0.
Qed.

(** Position 1 of the example dataset. *)
Lemma getitem_returns_image_target_void_witness :
  ∃ p entry id cats category,
    _make_img_gt_point_pair ex_world' ex_ds 1 = Ok p ∧
    getitem (obj_list ex_ds) 1 = Ok entry ∧
    getitem (im_ids ex_ds) entry.1 = Ok id ∧
    obj_dict ex_ds !! id = Some cats ∧
    getitem cats entry.2 = Ok category ∧
    __getitem__ ex_world' ex_ds 1
    = Ok (returned None
            (sample_of true p
               (Meta id (str_of_int entry.2) category
                  (shape0 (p_img p), shape1 (p_img p))))).
Proof.
  apply (getitem_returns_image_target_void ex_world (inl train) None 0 false
           false true ex_ds ex_world' 1).
  - vm_compute. reflexivity.
  - unfold catalog_agrees. apply (bool_decide_unpack _). vm_compute.
    reflexivity.
  - split; [lia|]. vm_compute. reflexivity.
Defined.

(** ** C2: what the index builder records *)

(** C2, as stated, fails: with the threshold -1 and the raster [[2]], whose
    largest value is 2 but which has no pixel of value 1, the builder finds
    0 > -1 pixels and raises IndexError at [tmp[0][0]]. *)
Lemma index_builder_negative_threshold :
  ¬ index_builder_claim [[2]] [[7]] (-1).
Proof.
  intros H. destruct (H ltac:(repeat constructor) 2) as (cats & Hc & _).
  - by apply n_objects_spec.
  - vm_compute in Hc. discriminate.
Qed.

(** C2 (amended): for rasters [R] and [C] of the same shape whose largest
    non-boundary value is [n], and a threshold [t] that no index 1..n without
    pixels exceeds (every [t >= 0]), the builder returns a list that holds,
    for each j = 1..n, the category at the row-major first pixel of value j
    when more than [t] pixels have value j, and -1 otherwise. *)
Theorem index_builder_records (R C : raster) (t n : Z) :
  same_shape R C →
  largest_non_boundary R n →
  (∀ j, 1 ≤ j ≤ n → pixel_count R j = 0%nat → 0 ≤ t) →
  ∃ cats, image_cat_ids R C t = Ok cats ∧ records_categories R C t n cats.
Proof.
  intros Hshape Hn Ht. unfold image_cat_ids.
  rewrite (n_objects_largest R n Hn). simpl.
  by apply cat_ids_upto_spec.
Qed.

(** A raster with two instances and the threshold 1. *)
Lemma index_builder_records_witness :
  ∃ cats, image_cat_ids [[0; 1; 2; 2]] [[0; 5; 9; 9]] 1 = Ok cats ∧
          records_categories [[0; 1; 2; 2]] [[0; 5; 9; 9]] 1 2 cats.
Proof.
  apply (index_builder_records [[0; 1; 2; 2]] [[0; 5; 9; 9]] 1 2).
  - repeat constructor.
  - apply n_objects_spec. reflexivity.
  - intros j _ _. lia.
Defined.

(** ** C3: a malformed cache file *)

(** C3, as stated, fails: with a cache file that holds only an opening
    brace, construction raises JSONDecodeError, while without the file it
    rebuilds the catalog and succeeds. *)
Lemma malformed_cache_raises_example :
  ¬ malformed_cache_claim ex_world_malformed (inl train) None 0 false false
      true.
Proof.
  intros H. specialize (H [123%N] eq_refl).
  assert (malformed [123%N]) as Hm.
  { intros kv Hkv. vm_compute in Hkv. discriminate. }
  apply H in Hm.
  apply (f_equal (λ r : result dataset * world,
                    match r.1 with Ok _ => true | Raise _ => false end))
    in Hm.
  vm_compute in Hm. discriminate.
Qed.

(** C3 (amended): when the manifests and the files they list load, a cache
    file that cannot be parsed as a mapping makes [_check_preprocess], and
    with it the construction, raise: the decoder's exception, or
    AttributeError for JSON that is not an object.  Nothing is rebuilt and no
    file is written.  Only an absent file makes the check answer False
    without raising. *)
Theorem malformed_cache_raises (w : world) (text : str)
    (split0 : str + list str) (transform0 : option (sample → sample))
    (area_thres0 : Z) (preprocess default0 retname0 : bool) :
  obj_list_file w = Some text →
  malformed text →
  (∃ acc, load_splits w (split_names split0) ([], [], [], []) = Ok acc) →
  ∃ e, (loads text = Raise e ∨ e = AttributeError) ∧
       (∀ self, _check_preprocess w self = Raise e) ∧
       __init__ w split0 transform0 area_thres0 preprocess default0 retname0
       = (Raise e, w) ∧
       (∀ self,
          _check_preprocess (remove_obj_list_file w) self = Ok (false, self)).
Proof.
  intros Htext Hmal [acc Hload].
  assert (∃ e, (loads text = Raise e ∨ e = AttributeError) ∧
               ∀ self, _check_preprocess w self = Raise e) as (e & He & Hcheck).
  { unfold _check_preprocess. rewrite Htext.
    destruct (loads text) as [v|e] eqn:Hv.
    - exists AttributeError. split; [by right|]. intros self. simpl.
      destruct v; try done. by destruct (Hmal kv).
    - exists e. split; [by left|]. done. }
  exists e. split_and!; [done..| |done].
  unfold __init__, init_objects. rewrite Hload.
  destruct acc as [[[ids imgs] cats] msks]. by rewrite Hcheck.
Qed.

(** The example directory with a cache file that holds an opening brace. *)
Lemma malformed_cache_raises_witness :
  ∃ e, (loads [123%N] = Raise e ∨ e = AttributeError) ∧
       (∀ self, _check_preprocess ex_world_malformed self = Raise e) ∧
       __init__ ex_world_malformed (inl train) None 0 false false true
       = (Raise e, ex_world_malformed) ∧
       (∀ self,
          _check_preprocess (remove_obj_list_file ex_world_malformed) self
          = Ok (false, self)).
Proof.
  apply (malformed_cache_raises ex_world_malformed [123%N]).
  - reflexivity.
  - intros kv Hkv. vm_compute in Hkv. discriminate.
  - eexists. vm_compute. reflexivity.
Defined.

(** ** C4: the cache file round trip *)

(** C4, as stated, fails: for an image named a\n (the letter a, a backslash,
    the letter n) the file holds the key between quotes as it is, and
    [json.load] reads the backslash and the n as a line feed: the parsed
    catalog has another key than the built one. *)
Lemma round_trip_backslash : ¬ round_trip_claim ex_world_bs ex_ds_bs.
Proof.
  intros H.
  destruct (H (dataset_of (_preprocess ex_world_bs ex_ds_bs))
              (_preprocess ex_world_bs ex_ds_bs).2)
    as (valid & self'' & Hcheck & Hdict).
  { vm_compute. reflexivity. }
  assert (_check_preprocess (_preprocess ex_world_bs ex_ds_bs).2 ex_ds_bs
          ≫= (λ r, Ok (obj_dict r.2 !! a_bs)) = Ok None) as Hkey
    by (vm_compute; reflexivity).
  rewrite Hcheck in Hkey. simpl in Hkey. rewrite Hdict in Hkey.
  vm_compute in Hkey. discriminate.
Qed.

(** C4 (amended): when no identifier holds a double quote, a backslash or a
    control character and [_preprocess] succeeds (the identifier list is
    then not empty), the check that reads the written file back parses
    exactly the catalog that was built, and it answers True when no
    identifier is loaded twice. *)
Theorem cache_round_trip (w : world) (self self' : dataset) (w' : world) :
  Forall plain_id (im_ids self) →
  _preprocess w self = (Ok self', w') →
  ∃ valid self'',
    _check_preprocess w' self = Ok (valid, self'') ∧
    obj_dict self'' = obj_dict self' ∧
    (NoDup (im_ids self) → valid = true).
Proof.
  intros Hplain H. unfold _preprocess in H.
  destruct (for_ _ _ _) as [d|] eqn:Hloop; [|done].
  destruct (cache_text self d) as [text|] eqn:Htext; [|done].
  injection H as <- <-.
  apply cache_text_spec in Htext as (Hne & Hall & ->).
  pose proof (preprocess_loop_keys _ _ _ _ Hloop) as Hkeys.
  assert (∀ id, id ∈ im_ids self ↔ is_Some (d !! id)) as Hdom.
  { intros id. split; [|apply Hkeys]. rewrite Forall_forall in Hall.
    apply Hall. }
  unfold _check_preprocess. simpl.
  rewrite loads_cache_text.
  2: { by destruct (im_ids self). }
  2: { rewrite Forall_fmap. eapply Forall_impl; [exact Hplain|]. done. }
  simpl. rewrite as_catalog_items, py_dict_items by done.
  eexists _, _. split_and!; [done..|].
  intros Hnd. apply bool_decide_eq_true_2, sorted_perm.
  by apply keys_perm.
Qed.

(** The cache file of the example dataset. *)
Lemma cache_round_trip_witness :
  ∃ valid self'',
    _check_preprocess (_preprocess ex_world ex_ds).2 ex_ds
    = Ok (valid, self'') ∧
    obj_dict self'' = obj_dict (dataset_of (_preprocess ex_world ex_ds)) ∧
    (NoDup (im_ids ex_ds) → valid = true).
Proof.
  apply (cache_round_trip ex_world ex_ds).
  - apply (bool_decide_unpack _). vm_compute. reflexivity.
  - vm_compute. reflexivity.
Defined.

(** ** C5: the length of the category list *)

(** C5, as stated, fails: the raster [[0; 2]] has one instance id, 2, and
    its category list has the two entries [-1; 9]. *)
Lemma cat_list_length_gap : ¬ cat_list_length_claim [[0; 2]] [[0; 9]] 0.
Proof.
  intros H. destruct (H ltac:(repeat constructor)) as (cats & Hc & Hlen).
  vm_compute in Hc. injection Hc as <-. vm_compute in Hlen. discriminate.
Qed.

(** C5 (amended): the list has as many entries as the largest non-boundary
    value [n] of the raster; that is the number of distinct instance ids
    when the ids present are exactly 1..n. *)
Theorem cat_list_length (R C : raster) (t n : Z) :
  same_shape R C →
  largest_non_boundary R n →
  (∀ j, 1 ≤ j ≤ n → pixel_count R j = 0%nat → 0 ≤ t) →
  ∃ cats, image_cat_ids R C t = Ok cats ∧
          length cats = Z.to_nat n ∧
          (instance_ids R = list_to_set (seqZ 1 n) →
           length cats = size (instance_ids R)).
Proof.
  intros Hshape Hn Ht. unfold image_cat_ids.
  rewrite (n_objects_largest R n Hn). simpl.
  destruct (cat_ids_upto_spec R C t n Hshape Ht) as (cats & Hc & Hlen & _).
  exists cats. split_and!; [done..|].
  intros ->. by rewrite size_seqZ_set.
Qed.

(** A raster whose instance ids are 1 and 2. *)
Lemma cat_list_length_witness :
  ∃ cats, image_cat_ids [[0; 1; 2; 2]] [[0; 5; 9; 9]] 0 = Ok cats ∧
          length cats = Z.to_nat 2 ∧
          (instance_ids [[0; 1; 2; 2]] = list_to_set (seqZ 1 2) →
           length cats = size (instance_ids [[0; 1; 2; 2]])).
Proof.
  apply (cat_list_length [[0; 1; 2; 2]] [[0; 5; 9; 9]] 0 2).
  - repeat constructor.
  - apply n_objects_spec. reflexivity.
  - intros j _ _. lia.
Defined.

(** ** C6: the size of the dataset *)

(** C6, as stated, fails: with the split [train] listed twice every image
    is loaded twice, so the object list has 6 entries while the lists of
    the catalog, which has one list per identifier, hold 3 entries other
    than -1 and 3 entries in all. *)
Lemma size_counts_repeated_images :
  ¬ size_claim ex_world (inr [train; train]) None 0 false false true.
Proof.
  intros H. destruct (H ex_ds_twice ex_init_twice.2) as (Hlen & _).
  - vm_compute. reflexivity.
  - vm_compute in Hlen. discriminate.
Qed.

(** C6 (amended): [__len__] is the number of entries other than -1 of the
    category lists of the loaded identifiers, one list per position of the
    identifier list, and is at most the number of all their entries; the
    object list is [objects_of] the identifier list and the catalog: the
    entries of each image in list order, image after image.  When no
    identifier is loaded twice these sums are the sums over the catalog. *)
Theorem size_counts_valid_entries (w : world) (split0 : str + list str)
    (transform0 : option (sample → sample)) (area_thres0 : Z)
    (preprocess default0 retname0 : bool) (ds : dataset) (w' : world) :
  __init__ w split0 transform0 area_thres0 preprocess default0 retname0
  = (Ok ds, w') →
  obj_list ds = objects_of (im_ids ds) (obj_dict ds) ∧
  __len__ ds
  = Z.of_nat (sum_list_with (λ id, count_valid (obj_dict ds !!! id))
                (im_ids ds)) ∧
  __len__ ds
  ≤ Z.of_nat (sum_list_with (λ id, length (obj_dict ds !!! id))
                (im_ids ds)) ∧
  (NoDup (im_ids ds) →
   __len__ ds = Z.of_nat (catalog_valid_count (obj_dict ds)) ∧
   __len__ ds ≤ Z.of_nat (catalog_instance_count (obj_dict ds))).
Proof.
  intros [Hwf _]%init_well_formed.
  pose proof Hwf as (_ & _ & _ & _ & _ & _ & Hobjs).
  assert (__len__ ds
          = Z.of_nat (sum_list_with (λ id, count_valid (obj_dict ds !!! id))
                        (im_ids ds))) as Hlen.
  { unfold __len__, len. by rewrite Hobjs, length_objects_of. }
  assert (sum_list_with (λ id, count_valid (obj_dict ds !!! id)) (im_ids ds)
          ≤ sum_list_with (λ id, length (obj_dict ds !!! id)) (im_ids ds))%nat
    as Hle.
  { apply sum_list_with_le. intros id. apply count_valid_le. }
  split_and!; [done|done|lia|].
  intros Hnd. unfold catalog_valid_count, catalog_instance_count.
  rewrite <- !(sum_over_ids _ (obj_dict ds) (im_ids ds) Hnd)
    by (intros id; by apply (well_formed_dom w')).
  lia.
Qed.

(** The example dataset with the threshold 1. *)
Lemma size_counts_valid_entries_witness :
  obj_list ex_ds_thres = objects_of (im_ids ex_ds_thres) (obj_dict ex_ds_thres) ∧
  __len__ ex_ds_thres
  = Z.of_nat (sum_list_with (λ id, count_valid (obj_dict ex_ds_thres !!! id))
                (im_ids ex_ds_thres)) ∧
  __len__ ex_ds_thres
  ≤ Z.of_nat (sum_list_with (λ id, length (obj_dict ex_ds_thres !!! id))
                (im_ids ex_ds_thres)) ∧
  (NoDup (im_ids ex_ds_thres) →
   __len__ ex_ds_thres
   = Z.of_nat (catalog_valid_count (obj_dict ex_ds_thres)) ∧
   __len__ ex_ds_thres
   ≤ Z.of_nat (catalog_instance_count (obj_dict ex_ds_thres))).
Proof.
  apply (size_counts_valid_entries ex_world (inl train) None 1 false false
           true ex_ds_thres ex_init_thres.2).
  vm_compute. reflexivity.
Defined.

(** ** C7: the masks of per-object mode are disjoint *)

(** C7: in per-object mode the target, same-class, other-class, void and
    background masks of an assembled sample are set at disjoint pixels: at
    every pixel, void or not, at most one of the five is 1.0. *)
Theorem per_object_masks_disjoint (w : world) (split0 : str + list str)
    (transform0 : option (sample → sample)) (area_thres0 : Z)
    (preprocess default0 retname0 : bool) (ds : dataset) (w' : world)
    (index : Z) (p : pair) :
  __init__ w split0 transform0 area_thres0 preprocess default0 retname0
  = (Ok ds, w') →
  default ds = false →
  _make_img_gt_point_pair w' ds index = Ok p →
  ∀ r c, (length (masks_set_at p r c) ≤ 1)%nat.
Proof.
  intros [Hwf _]%init_well_formed Hmode Hp r c.
  apply make_pair_inv in Hp
    as (entry & ipath & mpath & raw & He & _ & _ & _ & _ & Hvoid & Hbg & H).
  rewrite Hmode in H.
  destruct H as (id & cats & obj_cat & top & Fs & Fo & _ & _ & _ & _ &
                 Ht & Hs & Ho & HFs & HFo).
  apply getitem_elem_of in He.
  apply (obj_list_entry w' ds entry Hwf) in He as (_ & Hobj & _).
  unfold masks_set_at. rewrite Ht, Hs, Ho, Hvoid, Hbg.
  change (length (filter (λ m : raster, pixel m r c = Some 1%Z)
    ((λ F, map (map (λ x, float_of_bool (F x))) raw) <$>
       [ (λ x, void_zeroed x =? entry.2 + 1)%Z;
         (λ x, Fs (void_zeroed x));
         (λ x, Fo (void_zeroed x));
         (λ x, x =? 255)%Z;
         (λ x, (void_zeroed x =? 0)%Z && negb (x =? 255)%Z) ])) ≤ 1)%nat.
  destruct (pixel raw r c) as [x|] eqn:Hx.
  2: { rewrite filter_masks_none by done. simpl. lia. }
  rewrite (filter_masks raw r c x) by done.
  assert (∀ v, v < 1 → Fs v = false) as HFs0.
  { intros v Hv. destruct (Fs v) eqn:E; [|done]. apply HFs in E. lia. }
  assert (∀ v, v < 1 → Fo v = false) as HFo0.
  { intros v Hv. destruct (Fo v) eqn:E; [|done]. apply HFo in E. lia. }
  assert (Fs (entry.2 + 1) = false) as HFst.
  { destruct (Fs _) eqn:E; [|done]. apply HFs in E. lia. }
  assert (Fo (entry.2 + 1) = false) as HFot.
  { destruct (Fo _) eqn:E; [|done]. apply HFo in E. lia. }
  assert (∀ v, Fs v = true → Fo v = false) as Hexcl.
  { intros v Hv%HFs. destruct (Fo v) eqn:E; [|done].
    apply HFo in E as (_ & _ & c' & Hc' & Hne'). destruct Hv as (_ & _ & Hv).
    congruence. }
  rewrite length_filter_bool. cbn [sum_list_with].
  assert ((x =? 255) = true ∧ void_zeroed x = 0 ∨
          (x =? 255) = false ∧ void_zeroed x = x) as [[HV Hvz]|[HV Hvz]].
  { unfold void_zeroed. destruct (x =? 255); tauto. }
  - rewrite Hvz, HV, HFs0, HFo0 by lia.
    assert ((0 =? entry.2 + 1) = false) as -> by (apply Z.eqb_neq; lia).
    simpl. lia.
  - rewrite Hvz, HV.
    destruct (Z.eqb_spec x (entry.2 + 1)) as [Hxt|Hxt].
    + rewrite Hxt, HFst, HFot.
      assert ((entry.2 + 1 =? 0) = false) as -> by (apply Z.eqb_neq; lia).
      simpl. lia.
    + destruct (Z.eqb_spec x 0) as [Hx0|Hx0].
      * rewrite HFs0, HFo0 by lia. simpl. lia.
      * destruct (Fs x) eqn:E.
        -- rewrite (Hexcl x E). simpl. lia.
        -- destruct (Fo x); simpl; lia.
Qed.

(** The pixel at row 0, column 2 of the sample at position 0. *)
Lemma per_object_masks_disjoint_witness :
  (length (masks_set_at ex_pair_thres 0 2) ≤ 1)%nat.
Proof.
  apply (per_object_masks_disjoint ex_world (inl train) None 1 false false
           true ex_ds_thres ex_init_thres.2 0).
  - vm_compute. reflexivity.
  - reflexivity.
  - vm_compute. reflexivity.
Defined.

(** ** C8: the masks of default mode *)

(** C8: in default mode an assembled sample has, pixel for pixel, the raw
    raster with 255 replaced by 0 as its target, 1 exactly at the pixels
    whose void-zeroed value is 0 and that are not void as its background,
    and 0 everywhere in both distractor masks. *)
Theorem default_mode_masks (w : world) (self : dataset) (index : Z)
    (p : pair) :
  default self = true →
  _make_img_gt_point_pair w self index = Ok p →
  ∃ entry mpath raw,
    getitem (obj_list self) index = Ok entry ∧
    getitem (masks self) entry.1 = Ok mpath ∧
    object_masks w !! mpath = Some raw ∧
    ∀ r c,
      pixel (p_target p) r c = void_zeroed <$> pixel raw r c ∧
      pixel (p_background p) r c
        = (λ x, float_of_bool (bool_decide (void_zeroed x = 0 ∧ x ≠ 255)))
            <$> pixel raw r c ∧
      pixel (p_other_classes p) r c = (λ _, 0) <$> pixel raw r c ∧
      pixel (p_other_same_class p) r c = (λ _, 0) <$> pixel raw r c.
Proof.
  intros Hdefault Hp.
  apply make_pair_inv in Hp
    as (entry & ipath & mpath & raw & He & _ & _ & Hm & Hraw & _ & Hbg & H).
  rewrite Hdefault in H. destruct H as (Ht & Hoc & Hsc).
  exists entry, mpath, raw. split_and!; [done..|].
  intros r c. rewrite Ht, Hbg, Hoc, Hsc, !pixel_map. split_and!; try done.
  destruct (pixel raw r c) as [x|]; [|done]. simpl. do 2 f_equal.
  destruct (Z.eqb_spec (void_zeroed x) 0), (Z.eqb_spec x 255); simpl;
    symmetry; (apply bool_decide_eq_true_2 || apply bool_decide_eq_false_2);
    tauto.
Qed.

(** The sample at position 2 of the example dataset in default mode. *)
Lemma default_mode_masks_witness :
  ∃ entry mpath raw,
    getitem (obj_list ex_ds_default) 2 = Ok entry ∧
    getitem (masks ex_ds_default) entry.1 = Ok mpath ∧
    object_masks ex_world' !! mpath = Some raw ∧
    ∀ r c,
      pixel [[0; 1; 1]] r c = void_zeroed <$> pixel raw r c ∧
      pixel [[0; 0; 0]] r c
        = (λ x, float_of_bool (bool_decide (void_zeroed x = 0 ∧ x ≠ 255)))
            <$> pixel raw r c ∧
      pixel [[0; 0; 0]] r c = (λ _, 0) <$> pixel raw r c ∧
      pixel [[0; 0; 0]] r c = (λ _, 0) <$> pixel raw r c.
Proof.
  apply (default_mode_masks ex_world' ex_ds_default 2
           (Pair img_b [[0; 1; 1]] [[1; 0; 0]] [[0; 0; 0]] [[0; 0; 0]]
              [[0; 0; 0]])).
  - reflexivity.
  - vm_compute. reflexivity.
Defined.

(** ** C9: construction needs two objects *)

(** C9: a construction that succeeds has at least two objects, and one that
    reaches line 100 with fewer than two objects raises IndexError there. *)
Theorem init_needs_two_objects (w : world) (split0 : str + list str)
    (transform0 : option (sample → sample)) (area_thres0 : Z)
    (preprocess default0 retname0 : bool) :
  (∀ ds w',
     __init__ w split0 transform0 area_thres0 preprocess default0 retname0
     = (Ok ds, w') → 2 ≤ __len__ ds) ∧
  (∀ ds w',
     init_objects w split0 transform0 area_thres0 preprocess default0
       retname0 = (Ok ds, w') →
     __len__ ds < 2 →
     __init__ w split0 transform0 area_thres0 preprocess default0 retname0
     = (Raise IndexError, w')).
Proof.
  split.
  - intros ds w' [_ [p Hp]]%init_spec.
    apply make_pair_inv in Hp as (entry & _ & _ & _ & He & _).
    apply getitem_range in He. unfold __len__. lia.
  - intros ds w' Hobjs Hlen. unfold __init__. rewrite Hobjs. simpl.
    unfold _make_img_gt_point_pair.
    destruct (getitem (obj_list ds) 1) as [entry|e] eqn:He.
    + apply getitem_range in He. unfold __len__ in Hlen. lia.
    + simpl. f_equal. f_equal. unfold getitem in He.
      repeat case_match; congruence.
Qed.

(** The example dataset has three objects; with the threshold 2 it has none. *)
Lemma init_needs_two_objects_witness :
  2 ≤ __len__ ex_ds ∧
  __init__ ex_world (inl train) None 2 false false true
  = (Raise IndexError,
     (init_objects ex_world (inl train) None 2 false false true).2).
Proof.
  split.
  - apply (proj1 (init_needs_two_objects ex_world (inl train) None 0 false
                    false true) ex_ds ex_world').
    vm_compute. reflexivity.
  - apply (proj2 (init_needs_two_objects ex_world (inl train) None 2 false
                    false true)
             (dataset_of
                (init_objects ex_world (inl train) None 2 false false true))
             (init_objects ex_world (inl train) None 2 false false true).2).
    + vm_compute. reflexivity.
    + vm_compute. reflexivity.
Defined.

(** ** C10: a filtered instance is an other-class distractor *)

(** C10: in per-object mode, every pixel of an instance k other than the
    target whose catalog entry is -1 is set in the other-class mask and not
    in the same-class mask, the target's own entry being other than -1. *)
Theorem filtered_instance_is_other_class (w : world)
    (split0 : str + list str) (transform0 : option (sample → sample))
    (area_thres0 : Z) (preprocess default0 retname0 : bool) (ds : dataset)
    (w' : world) (index : Z) (p : pair) :
  __init__ w split0 transform0 area_thres0 preprocess default0 retname0
  = (Ok ds, w') →
  default ds = false →
  _make_img_gt_point_pair w' ds index = Ok p →
  ∃ entry mpath raw id cats obj_cat,
    getitem (obj_list ds) index = Ok entry ∧
    getitem (masks ds) entry.1 = Ok mpath ∧
    object_masks w' !! mpath = Some raw ∧
    getitem (im_ids ds) entry.1 = Ok id ∧
    obj_dict ds !! id = Some cats ∧
    getitem cats entry.2 = Ok obj_cat ∧ obj_cat ≠ -1 ∧
    ∀ k r c,
      1 ≤ k → k ≠ 255 → k ≠ entry.2 + 1 →
      cats !! Z.to_nat (k - 1) = Some (-1) →
      pixel raw r c = Some k →
      pixel (p_other_classes p) r c = Some 1 ∧
      pixel (p_other_same_class p) r c = Some 0.
Proof.
  intros [Hwf _]%init_well_formed Hmode Hp.
  apply make_pair_inv in Hp
    as (entry & ipath & mpath & raw & He & _ & _ & Hm & Hraw & _ & _ & H).
  rewrite Hmode in H.
  destruct H as (id & cats & obj_cat & top & Fs & Fo & Hid & Hcats & Hcat &
                 Htop & _ & Hs & Ho & HFs & HFo).
  exists entry, mpath, raw, id, cats, obj_cat.
  assert (obj_cat ≠ -1) as Hne.
  { apply getitem_elem_of in He as Hin.
    apply (obj_list_entry w' ds entry Hwf) in Hin
      as (_ & _ & id' & cats' & c' & Hid' & _ & Hcats' & Hc' & Hne).
    congruence. }
  split_and!; [done..|].
  intros k r c Hk1 Hk255 Hktarget Hkcat Hpix.
  assert (void_zeroed k = k) as Hvz.
  { unfold void_zeroed. by destruct (Z.eqb_spec k 255). }
  assert (k ≤ top) as Hktop.
  { apply np_max_spec in Htop as [_ Hub]. apply Hub.
    eapply pixel_elem_of. rewrite pixel_map, Hpix. simpl. by rewrite Hvz. }
  rewrite Hs, Ho, !pixel_map, Hpix. simpl. rewrite Hvz.
  assert (Fo k = true) as ->.
  { apply HFo. split_and!; [lia..|done|]. exists (-1). split; [done|].
    congruence. }
  destruct (Fs k) eqn:HFsk; [|done].
  apply HFs in HFsk as (_ & _ & Hsame). congruence.
Qed.

(** Instance 1 of image [a] is filtered by the threshold 1. *)
Lemma filtered_instance_is_other_class_witness :
  ∃ entry mpath raw id cats obj_cat,
    getitem (obj_list ex_ds_thres) 0 = Ok entry ∧
    getitem (masks ex_ds_thres) entry.1 = Ok mpath ∧
    object_masks ex_init_thres.2 !! mpath = Some raw ∧
    getitem (im_ids ex_ds_thres) entry.1 = Ok id ∧
    obj_dict ex_ds_thres !! id = Some cats ∧
    getitem cats entry.2 = Ok obj_cat ∧ obj_cat ≠ -1 ∧
    ∀ k r c,
      1 ≤ k → k ≠ 255 → k ≠ entry.2 + 1 →
      cats !! Z.to_nat (k - 1) = Some (-1) →
      pixel raw r c = Some k →
      pixel (p_other_classes ex_pair_thres) r c = Some 1 ∧
      pixel (p_other_same_class ex_pair_thres) r c = Some 0.
Proof.
  apply (filtered_instance_is_other_class ex_world (inl train) None 1 false
           false true ex_ds_thres ex_init_thres.2 0 ex_pair_thres).
  - vm_compute. reflexivity.
  - reflexivity.
  - vm_compute. reflexivity.
Defined.

(** * Further properties of the code *)

(** ** Reading the manifests: lines 39-78 *)

(** X1: the order in which the caller lists the splits does not matter: two
    lists that are permutations of each other give the same construction,
    result and files. *)
Theorem split_order_irrelevant (w : world) (l1 l2 : list str)
    (transform0 : option (sample → sample)) (area_thres0 : Z)
    (preprocess default0 retname0 : bool) :
  l1 ≡ₚ l2 →
  __init__ w (inr l1) transform0 area_thres0 preprocess default0 retname0
  = __init__ w (inr l2) transform0 area_thres0 preprocess default0 retname0.
Proof.
  intros Hperm. unfold __init__, init_objects, split_names.
  by rewrite (sorted_perm l1 l2 Hperm).
Qed.

(** The splits [val; train] and [train; val]. *)
Lemma split_order_irrelevant_witness :
  __init__ ex_world_splits (inr [val; train]) None 0 false false true
  = __init__ ex_world_splits (inr [train; val]) None 0 false false true.
Proof.
  apply (split_order_irrelevant ex_world_splits [val; train] [train; val]).
  apply perm_swap.
Defined.

(** X2: the loop over the splits gets through exactly when every manifest
    exists and every line of every manifest has its image, class raster and
    instance raster; the four lists are then the lines of the manifests, in
    the order of the splits, repeated lines included. *)
Theorem manifests_give_identifiers (w : world) (splits : list str)
    (acc : list str * list str * list str * list str) :
  load_splits w splits ([], [], [], []) = Ok acc ↔
  ∃ texts,
    Forall2 (λ splt text, split_files w !! splt = Some text) splits texts ∧
    Forall (files_exist w) (concat (splitlines <$> texts)) ∧
    acc = (concat (splitlines <$> texts), concat (splitlines <$> texts),
           concat (splitlines <$> texts), concat (splitlines <$> texts)).
Proof.
  assert (∀ L acc,
    load_splits w splits (L, L, L, L) = Ok acc ↔
    ∃ texts,
      Forall2 (λ splt text, split_files w !! splt = Some text) splits texts ∧
      Forall (files_exist w) (concat (splitlines <$> texts)) ∧
      acc = (L ++ concat (splitlines <$> texts),
             L ++ concat (splitlines <$> texts),
             L ++ concat (splitlines <$> texts),
             L ++ concat (splitlines <$> texts))) as Hloop.
  { clear acc. intros L acc.
    revert L. induction splits as [|splt splits IH]; intros L; simpl.
    - split.
      + intros [= <-]. exists []. rewrite app_nil_r. by repeat constructor.
      + intros (texts & Hall%Forall2_nil_inv_l & _ & ->). subst texts.
        simpl. by rewrite app_nil_r.
    - unfold read_file. split.
      + destruct (split_files w !! splt) as [text|] eqn:Htext; [|done]. simpl.
        rewrite add_lines_spec by apply splitlines_no_newline.
        case_bool_decide as Hf; [|done]. simpl.
        intros (texts & Hall & Hfs & ->)%IH.
        exists (text :: texts). simpl. split_and!.
        * by constructor.
        * by apply Forall_app.
        * by rewrite <- !(assoc_L (++)).
      + intros (texts & Hall & Hfs & ->).
        apply Forall2_cons_inv_l in Hall as (text & texts' & Htext & Hall & ->).
        rewrite Htext. simpl in *. apply Forall_app in Hfs as [Hf Hfs].
        rewrite add_lines_spec by apply splitlines_no_newline.
        rewrite bool_decide_eq_true_2 by done. simpl.
        apply IH. exists texts'. split_and!; [done..|].
        by rewrite <- !(assoc_L (++)). }
  apply (Hloop []).
Qed.

(** X3: a manifest that holds one identifier per line, each line ended by a
    newline or by a carriage return and a newline, loads those identifiers
    in order, or fails the assertion when a file of one of them is
    missing. *)
Theorem manifest_lines_are_identifiers (w : world) (splt eol : str)
    (lines : list str) :
  split_files w !! splt = Some (text_of_lines eol lines) →
  eol = [10%N] ∨ eol = [13%N; 10%N] →
  Forall one_line lines →
  load_splits w [splt] ([], [], [], [])
  = if bool_decide (Forall (files_exist w) lines)
    then Ok (lines, lines, lines, lines)
    else Raise AssertionError.
Proof.
  intros Htext Heol Hlines. simpl. unfold read_file. rewrite Htext. simpl.
  rewrite splitlines_text_of_lines by done.
  rewrite (add_lines_spec w lines []).
  - by case_bool_decide.
  - eapply Forall_impl; [exact Hlines|]. intros l Hl Hin.
    unfold one_line in Hl. rewrite Forall_forall in Hl.
    by specialize (Hl _ Hin).
Qed.

(** The manifest [train.txt] of the example directory. *)
Lemma manifest_lines_are_identifiers_witness :
  load_splits ex_world [train] ([], [], [], [])
  = if bool_decide (Forall (files_exist ex_world) [a; b])
    then Ok ([a; b], [a; b], [a; b], [a; b])
    else Raise AssertionError.
Proof.
  apply (manifest_lines_are_identifiers ex_world train [10%N] [a; b]).
  - reflexivity.
  - left. reflexivity.
  - apply (bool_decide_unpack _). vm_compute. reflexivity.
Defined.

(** X4: when the loop over the splits does not get through, construction
    raises FileNotFoundError (a missing manifest) or AssertionError (a
    missing file of a line) and leaves the directory as it is. *)
Theorem unreadable_manifest_fails (w : world) (split0 : str + list str)
    (transform0 : option (sample → sample)) (area_thres0 : Z)
    (preprocess default0 retname0 : bool) :
  (∀ acc, load_splits w (split_names split0) ([], [], [], []) ≠ Ok acc) →
  ∃ e, (e = FileNotFoundError ∨ e = AssertionError) ∧
       __init__ w split0 transform0 area_thres0 preprocess default0 retname0
       = (Raise e, w).
Proof.
  intros Hno. unfold __init__, init_objects.
  destruct (load_splits _ _ _) as [acc|e] eqn:Hload; [by destruct (Hno acc)|].
  exists e. split; [|done]. by eapply load_splits_raise.
Qed.

(** The example directory has no manifest for the split [val]. *)
Lemma unreadable_manifest_fails_witness :
  ∃ e, (e = FileNotFoundError ∨ e = AssertionError) ∧
       __init__ ex_world (inl val) None 0 false false true
       = (Raise e, ex_world).
Proof.
  apply (unreadable_manifest_fails ex_world (inl val) None 0 false false
           true).
  intros acc H. vm_compute in H. discriminate H.
Defined.

(** ** The cache file: lines 81-83 and 123-164 *)

(** X5: a construction in a directory without cache file, or with the
    preprocess flag, writes the cache file and ends with a catalog that has
    exactly the loaded identifiers as keys and, for each of them, the
    category list that the index builder computes from its rasters with the
    area threshold of the construction. *)
Theorem rebuilt_catalog_agrees (w : world) (split0 : str + list str)
    (transform0 : option (sample → sample)) (area_thres0 : Z)
    (preprocess default0 retname0 : bool) (ds : dataset) (w' : world) :
  __init__ w split0 transform0 area_thres0 preprocess default0 retname0
  = (Ok ds, w') →
  obj_list_file w = None ∨ preprocess = true →
  (∃ text, w' = write_obj_list_file w text) ∧
  (∀ id, id ∈ im_ids ds ↔ is_Some (obj_dict ds !! id)) ∧
  ∀ id cats, obj_dict ds !! id = Some cats →
    ∃ R C, object_masks w !! id = Some R ∧ class_masks w !! id = Some C ∧
           image_cat_ids R C area_thres0 = Ok cats.
Proof.
  intros [Hinit _]%init_spec Hre.
  apply init_objects_spec in Hinit as Hspec.
  destruct Hspec as (Hwf & Hthres & _ & _ & _ & Hag).
  specialize (Hag Hre).
  apply init_objects_inv in Hinit
    as (lines & valid & d1 & d & objs & num & Hload & Hcheck & Hobjs & Hds &
        Hcase).
  assert (∃ text, w' = write_obj_list_file w text) as [text ->].
  { destruct Hcase as [[_ Hp]|(Hno & _ & _)].
    - apply preprocess_spec in Hp as (? & text & _ & _ & _ & -> & _);
        [by eexists|done..].
    - apply orb_false_iff in Hno as [Hvalid%negb_false_iff ->].
      destruct Hre as [Hnone|[=]]. subst valid.
      apply check_preprocess_spec in Hcheck
        as [(_ & [=] & _)|(? & ? & ? & ? & _)]. congruence. }
  split_and!.
  - by eexists.
  - intros id. by apply (well_formed_dom (write_obj_list_file w text)).
  - intros id cats Hcats. destruct (Hag id cats Hcats) as [_ Hbuild].
    unfold built_cat_ids in Hbuild. simpl in Hbuild.
    destruct (object_masks w !! id) as [R|]; [|done].
    destruct (class_masks w !! id) as [C|]; [|done].
    simpl in Hbuild. injection Hbuild as Hbuild. rewrite Hthres in Hbuild.
    by exists R, C.
Qed.

(** The example construction. *)
Lemma rebuilt_catalog_agrees_witness :
  (∃ text, ex_world' = write_obj_list_file ex_world text) ∧
  (∀ id, id ∈ im_ids ex_ds ↔ is_Some (obj_dict ex_ds !! id)) ∧
  ∀ id cats, obj_dict ex_ds !! id = Some cats →
    ∃ R C, object_masks ex_world !! id = Some R ∧
           class_masks ex_world !! id = Some C ∧
           image_cat_ids R C 0 = Ok cats.
Proof.
  apply (rebuilt_catalog_agrees ex_world (inl train) None 0 false false true
           ex_ds ex_world').
  - vm_compute. reflexivity.
  - left. reflexivity.
Defined.



(** X7: a cache file that passes the check is trusted: a construction
    without the preprocess flag leaves the file as it is and takes its
    category lists as the catalog, whatever the rasters hold. *)
Theorem valid_cache_is_trusted (w : world) (split0 : str + list str)
    (transform0 : option (sample → sample)) (area_thres0 : Z)
    (default0 retname0 : bool) (ds : dataset) (w' : world)
    (self1 : dataset) :
  __init__ w split0 transform0 area_thres0 false default0 retname0
  = (Ok ds, w') →
  _check_preprocess w ds = Ok (true, self1) →
  w' = w ∧ obj_dict ds = obj_dict self1.
Proof.
  intros [Hinit _]%init_spec Hvalid.
  apply init_objects_inv in Hinit
    as (lines & valid & d1 & d & objs & num & Hload & Hcheck & Hobjs & -> &
        Hcase).
  simpl in Hcheck.
  assert (is_Some (obj_list_file w)) as Hfile.
  { apply check_preprocess_spec in Hvalid
      as [(_ & [=] & _)|(? & ? & ? & -> & _)]. by eexists. }
  rewrite (check_preprocess_ids w
             (unindexed area_thres0 default0 retname0 (split_names split0)
                transform0 lines)), Hcheck in Hvalid by done.
  simpl in Hvalid. injection Hvalid as -> <-.
  destruct Hcase as [[[=] _]|(_ & -> & ->)]. done.
Qed.

(** A second construction in the directory that the first one left. *)
Lemma valid_cache_is_trusted_witness :
  ex_world' = ex_world' ∧ obj_dict ex_ds = obj_dict ex_ds.
Proof.
  apply (valid_cache_is_trusted ex_world' (inl train) None 0 false true
           ex_ds ex_world' ex_ds).
  - vm_compute. reflexivity.
  - vm_compute. reflexivity.
Defined.



(** X9: preprocessing is done only once: after a construction that
    succeeded, with identifiers that are distinct and hold no double quote,
    backslash or control character, the same construction without the
    preprocess flag gives the same dataset and writes nothing. *)
Theorem preprocessing_is_done_once (w : world) (split0 : str + list str)
    (transform0 : option (sample → sample)) (area_thres0 : Z)
    (preprocess default0 retname0 : bool) (ds : dataset) (w' : world) :
  __init__ w split0 transform0 area_thres0 preprocess default0 retname0
  = (Ok ds, w') →
  Forall plain_id (im_ids ds) →
  NoDup (im_ids ds) →
  __init__ w' split0 transform0 area_thres0 false default0 retname0
  = (Ok ds, w').
Proof.
  intros [Hinit [p Hp]]%init_spec Hplain Hnd.
  apply init_objects_inv in Hinit
    as (lines & valid & d1 & d & objs & num & Hload & Hcheck & Hobjs & -> &
        Hcase).
  simpl in Hplain, Hnd.
  set (self := unindexed area_thres0 default0 retname0 (split_names split0)
                 transform0 lines) in *.
  assert (_check_preprocess w' self = Ok (true, set_obj_dict d self)
          ∧ load_splits w' (split_names split0) ([], [], [], [])
            = Ok (lines, lines, lines, lines)) as [Hcheck' Hload'].
  { destruct Hcase as [[_ Hpre]|(Hre & -> & ->)].
    - apply preprocess_spec in Hpre as Hw; [|done..].
      destruct Hw as (? & text & _ & _ & _ & -> & _).
      rewrite load_splits_write. split; [|done].
      rewrite (check_written_cache w (set_obj_dict d1 self) _ _ self)
        by done.
      simpl. by rewrite bool_decide_eq_true_2.
    - split; [|done]. rewrite Hcheck.
      apply orb_false_iff in Hre as [->%negb_false_iff _]. done. }
  unfold __init__, init_objects. rewrite Hload'.
  change (Dataset area_thres0 default0 retname0 (split_names split0)
            transform0 lines lines lines lines ∅ []) with self.
  rewrite Hcheck'. simpl. rewrite Hobjs. simpl.
  by rewrite Hp.
Qed.

(** The example construction, and the same construction again. *)
Lemma preprocessing_is_done_once_witness :
  __init__ ex_world' (inl train) None 0 false false true = (Ok ex_ds, ex_world').
Proof.
  apply (preprocessing_is_done_once ex_world (inl train) None 0 false false
           true ex_ds ex_world').
  - vm_compute. reflexivity.
  - apply (bool_decide_unpack _). vm_compute. reflexivity.
  - apply (bool_decide_unpack _). vm_compute. reflexivity.
Defined.

(** X10: a construction whose splits list no identifier, in a directory
    without cache file, raises IndexError at line 159 after the cache file
    was opened for writing: it leaves an empty cache file, and the same
    construction then raises the decoder's exception. *)
Theorem empty_split_leaves_empty_cache (w : world) (split0 : str + list str)
    (transform0 : option (sample → sample)) (area_thres0 : Z)
    (preprocess default0 retname0 : bool) :
  load_splits w (split_names split0) ([], [], [], []) = Ok ([], [], [], []) →
  obj_list_file w = None →
  __init__ w split0 transform0 area_thres0 preprocess default0 retname0
  = (Raise IndexError, write_obj_list_file w []) ∧
  __init__ (write_obj_list_file w []) split0 transform0 area_thres0
    preprocess default0 retname0
  = (Raise JSONDecodeError, write_obj_list_file w []).
Proof.
  intros Hload Hnone. split.
  - unfold __init__, init_objects. rewrite Hload.
    unfold _check_preprocess. rewrite Hnone. reflexivity.
  - unfold __init__, init_objects. rewrite load_splits_write, Hload.
    reflexivity.
Qed.

(** A manifest without lines. *)
Lemma empty_split_leaves_empty_cache_witness :
  __init__ ex_world_empty (inl train) None 0 false false true
  = (Raise IndexError, write_obj_list_file ex_world_empty []) ∧
  __init__ (write_obj_list_file ex_world_empty []) (inl train) None 0 false
    false true
  = (Raise JSONDecodeError, write_obj_list_file ex_world_empty []).
Proof.
  apply (empty_split_leaves_empty_cache ex_world_empty (inl train) None 0
           false false true).
  - reflexivity.
  - reflexivity.
Defined.

(** ** The index builder: lines 137-156 *)

(** X11: an instance raster that holds nothing but the boundary label 255,
    or no pixel at all, makes the index builder raise IndexError; a raster
    of background and boundary pixels gives the empty category list. *)
Theorem index_builder_edge_rasters (R C : raster) (t : Z) :
  ((∀ v, v ∈ flatten R → v = 255) → image_cat_ids R C t = Raise IndexError) ∧
  (0 ∈ flatten R → (∀ v, v ∈ flatten R → v = 0 ∨ v = 255) →
   image_cat_ids R C t = Ok []).
Proof.
  split.
  - intros H. unfold image_cat_ids. by rewrite n_objects_boundary_only.
  - intros H0 H. unfold image_cat_ids.
    rewrite (n_objects_largest R 0); [done|].
    split_and!; [done..|]. intros v Hv Hne. destruct (H v Hv); lia.
Qed.

(** A raster of one boundary pixel, and one of a background and a boundary
    pixel. *)
Lemma index_builder_edge_rasters_witness :
  image_cat_ids [[255]] [[0]] 0 = Raise IndexError ∧
  image_cat_ids [[0; 255]] [[0; 0]] 0 = Ok [].
Proof.
  split.
  - apply (proj1 (index_builder_edge_rasters [[255]] [[0]] 0)).
    intros v Hv. apply list_elem_of_singleton in Hv. exact Hv.
  - apply (proj2 (index_builder_edge_rasters [[0; 255]] [[0; 0]] 0)).
    + left.
    + intros v Hv. apply elem_of_cons in Hv as [Hv|Hv]; [by left|].
      apply list_elem_of_singleton in Hv. by right.
Defined.

(** X12: raising the area threshold only filters: the category list keeps
    its length, every entry either stays or becomes -1, and the number of
    entries other than -1 does not grow. *)
Theorem raising_threshold_only_filters (R C : raster) (t t' : Z)
    (cats : list Z) :
  image_cat_ids R C t = Ok cats → t ≤ t' →
  ∃ cats', image_cat_ids R C t' = Ok cats' ∧
           length cats' = length cats ∧
           (∀ jj c, cats' !! jj = Some c → c = -1 ∨ cats !! jj = Some c) ∧
           (count_valid cats' ≤ count_valid cats)%nat.
Proof.
  intros H Hle. unfold image_cat_ids in *.
  apply bind_ok in H as (n & Hn & H). rewrite Hn. simpl.
  unfold cat_ids_upto in *. apply mapM_ok in H.
  destruct (Forall2_results _ (instance_category R C t')
              (λ y y', y' = -1 ∨ y' = y) _ _ H) as (cats' & H' & Hrel).
  { intros jj v Hv. by eapply instance_category_raise. }
  exists cats'. split_and!.
  - by apply mapM_ok.
  - symmetry. by eapply Forall2_length.
  - intros jj c Hc.
    destruct (Forall2_lookup_r _ _ _ _ _ Hrel Hc) as (y & Hy & [->| ->]);
      [by left|by right].
  - by apply count_valid_filtered.
Qed.

(** The rasters of image [a] with the thresholds 0 and 1. *)
Lemma raising_threshold_only_filters_witness :
  ∃ cats', image_cat_ids [[0; 1; 2; 2]] [[0; 5; 9; 9]] 1 = Ok cats' ∧
           length cats' = length [5; 9] ∧
           (∀ jj c, cats' !! jj = Some c →
                    c = -1 ∨ [5; 9] !! jj = Some c) ∧
           (count_valid cats' ≤ count_valid [5%Z; 9%Z])%nat.
Proof.
  apply (raising_threshold_only_filters [[0; 1; 2; 2]] [[0; 5; 9; 9]] 0 1
           [5; 9]).
  - reflexivity.
  - lia.
Defined.

(** ** The list of objects: lines 86-98 *)

(** X13: the object list of a constructed dataset holds every pair of an
    image position and a position of its category list whose entry is other
    than -1, each pair once, and nothing else. *)
Theorem obj_list_lists_each_object_once (w : world)
    (split0 : str + list str) (transform0 : option (sample → sample))
    (area_thres0 : Z) (preprocess default0 retname0 : bool) (ds : dataset)
    (w' : world) :
  __init__ w split0 transform0 area_thres0 preprocess default0 retname0
  = (Ok ds, w') →
  NoDup (obj_list ds) ∧
  ∀ ii jj, (ii, jj) ∈ obj_list ds ↔
    0 ≤ ii ∧ 0 ≤ jj ∧
    ∃ id cats c, im_ids ds !! Z.to_nat ii = Some id ∧
                 obj_dict ds !! id = Some cats ∧
                 cats !! Z.to_nat jj = Some c ∧ c ≠ -1.
Proof.
  intros [Hwf _]%init_well_formed.
  destruct Hwf as (_ & _ & _ & _ & Hall & _ & ->).
  split; [apply NoDup_objects_of|]. intros ii jj.
  rewrite elem_of_objects_of. simpl. split.
  - intros (H1 & H2 & id & c & Hid & Hc & Hne). split_and!; [done..|].
    rewrite Forall_forall in Hall.
    destruct (Hall id) as [cats Hcats]; [by eapply list_elem_of_lookup_2|].
    exists id, cats, c. rewrite lookup_total_alt, Hcats in Hc. done.
  - intros (H1 & H2 & id & cats & c & Hid & Hcats & Hc & Hne).
    split_and!; [done..|]. exists id, c.
    by rewrite lookup_total_alt, Hcats.
Qed.

(** The example dataset with the threshold 1. *)
Lemma obj_list_lists_each_object_once_witness :
  NoDup (obj_list ex_ds_thres) ∧
  ∀ ii jj, (ii, jj) ∈ obj_list ex_ds_thres ↔
    0 ≤ ii ∧ 0 ≤ jj ∧
    ∃ id cats c, im_ids ex_ds_thres !! Z.to_nat ii = Some id ∧
                 obj_dict ex_ds_thres !! id = Some cats ∧
                 cats !! Z.to_nat jj = Some c ∧ c ≠ -1.
Proof.
  apply (obj_list_lists_each_object_once ex_world (inl train) None 1 false
           false true ex_ds_thres ex_init_thres.2).
  vm_compute. reflexivity.
Defined.

(** X14: the number of images that line 98 prints is the number of
    identifier positions whose category list has an entry other than -1; it
    exceeds neither the number of identifiers nor the number of objects. *)
Theorem num_images_counts_images_with_objects (self : dataset)
    (objs : list (Z * Z)) (num : Z) :
  build_obj_list self = Ok (objs, num) →
  num = Z.of_nat (length (filter
          (λ id, count_valid (obj_dict self !!! id) ≠ 0%nat) (im_ids self))) ∧
  num ≤ len (im_ids self) ∧ num ≤ len objs.
Proof.
  intros H. pose proof H as [_ Hobjs]%build_obj_list_spec.
  unfold build_obj_list, range in H.
  apply (add_images_count self [] (im_ids self)) in H; [|done].
  simpl in H. subst num. split; [done|]. split.
  - unfold len. apply inj_le, length_filter.
  - subst objs. unfold len. apply inj_le. rewrite length_objects_of.
    induction (im_ids self) as [|id ids IH]; [done|].
    rewrite filter_cons. simpl. case_decide; simpl; lia.
Qed.

(** The example dataset: two images, three objects. *)
Lemma num_images_counts_images_with_objects_witness :
  2 = Z.of_nat (length (filter
        (λ id, count_valid (obj_dict ex_ds !!! id) ≠ 0%nat) (im_ids ex_ds))) ∧
  2 ≤ len (im_ids ex_ds) ∧ 2 ≤ len [(0, 0); (0, 1); (1, 0)].
Proof.
  apply (num_images_counts_images_with_objects ex_ds
           [(0, 0); (0, 1); (1, 0)] 2).
  vm_compute. reflexivity.
Defined.

(** X15: a larger area threshold never gives a larger dataset: of two
    constructions in the same directory that both rebuild the catalog, the
    one with the larger threshold loads the same identifiers and has at
    most as many objects. *)
Theorem larger_threshold_smaller_dataset (w : world)
    (split0 : str + list str) (tr tr' : option (sample → sample))
    (t t' : Z) (pre pre' dflt dflt' ret ret' : bool) (ds ds' : dataset)
    (w1 w2 : world) :
  __init__ w split0 tr t pre dflt ret = (Ok ds, w1) →
  __init__ w split0 tr' t' pre' dflt' ret' = (Ok ds', w2) →
  obj_list_file w = None ∨ (pre = true ∧ pre' = true) →
  t ≤ t' →
  im_ids ds' = im_ids ds ∧ __len__ ds' ≤ __len__ ds.
Proof.
  intros H H' Hre Hle.
  assert (obj_list_file w = None ∨ pre = true) as Hre1 by tauto.
  assert (obj_list_file w = None ∨ pre' = true) as Hre2 by tauto.
  assert (im_ids ds' = im_ids ds) as Hids.
  { apply init_spec in H as [H _]. apply init_spec in H' as [H' _].
    apply init_objects_inv in H
      as (lines & ? & ? & ? & ? & ? & Hload & _ & _ & -> & _).
    apply init_objects_inv in H'
      as (lines' & ? & ? & ? & ? & ? & Hload' & _ & _ & -> & _).
    simpl. congruence. }
  split; [done|].
  apply init_well_formed in H as Hwf. destruct Hwf as [Hwf _].
  apply init_well_formed in H' as Hwf'. destruct Hwf' as [Hwf' _].
  destruct Hwf as (_ & _ & _ & _ & _ & _ & Hobjs).
  destruct Hwf' as (_ & _ & _ & _ & _ & _ & Hobjs').
  unfold __len__, len. rewrite Hobjs, Hobjs', !length_objects_of, Hids.
  apply inj_le, sum_list_with_le_in, Forall_forall. intros id Hid.
  destruct (rebuilt_entry _ _ _ _ _ _ _ _ _ id H Hre1 Hid)
    as (R & C & cats & HR & HC & Hcats & Hbuild).
  rewrite <- Hids in Hid.
  destruct (rebuilt_entry _ _ _ _ _ _ _ _ _ id H' Hre2 Hid)
    as (R' & C' & cats' & HR' & HC' & Hcats' & Hbuild').
  assert (R' = R) as -> by congruence.
  assert (C' = C) as -> by congruence.
  rewrite !lookup_total_alt, Hcats, Hcats'. simpl.
  unfold image_cat_ids in Hbuild, Hbuild'.
  apply bind_ok in Hbuild as (n & Hn & Hbuild).
  rewrite Hn in Hbuild'. simpl in Hbuild'.
  unfold cat_ids_upto in *. apply mapM_ok in Hbuild, Hbuild'.
  destruct (Forall2_results _ (instance_category R C t')
              (λ y y', y' = -1 ∨ y' = y) _ _ Hbuild) as (k & Hk & Hrel).
  { intros jj v Hv. by eapply instance_category_raise. }
  assert (k = cats') as ->.
  { apply mapM_ok in Hk, Hbuild'. congruence. }
  by apply count_valid_filtered.
Qed.

(** The example directory with the thresholds 0 and 1. *)
Lemma larger_threshold_smaller_dataset_witness :
  im_ids ex_ds_thres = im_ids ex_ds ∧ __len__ ex_ds_thres ≤ __len__ ex_ds.
Proof.
  apply (larger_threshold_smaller_dataset ex_world (inl train) None None 0 1
           false false false false true true ex_ds ex_ds_thres ex_world'
           ex_init_thres.2).
  - vm_compute. reflexivity.
  - vm_compute. reflexivity.
  - left. reflexivity.
  - lia.
Defined.

(** ** Samples: lines 106-121 and 166-197 *)

(** X16: [__getitem__] follows the indexing of Python lists: a position
    outside [-len, len) raises IndexError, and a negative position counts
    from the end of the object list. *)
Theorem getitem_follows_list_indexing (w : world) (self : dataset)
    (index : Z) :
  (index < - __len__ self ∨ __len__ self ≤ index →
   __getitem__ w self index = Raise IndexError) ∧
  (0 ≤ index < __len__ self →
   __getitem__ w self (index - __len__ self) = __getitem__ w self index).
Proof.
  unfold __len__, __getitem__, _make_img_gt_point_pair. split.
  - intros H. by rewrite getitem_outside.
  - intros H. by rewrite getitem_negative.
Qed.

(** The positions 3 and -2 of the example dataset, which has three
    objects. *)
Lemma getitem_follows_list_indexing_witness :
  __getitem__ ex_world' ex_ds 3 = Raise IndexError ∧
  __getitem__ ex_world' ex_ds (1 - __len__ ex_ds)
  = __getitem__ ex_world' ex_ds 1.
Proof.
  split.
  - apply (proj1 (getitem_follows_list_indexing ex_world' ex_ds 3)).
    right. vm_compute. discriminate.
  - apply (proj2 (getitem_follows_list_indexing ex_world' ex_ds 1)).
    split; [lia|]. vm_compute. reflexivity.
Defined.

(** X17: the five masks of an assembled sample have the shape of the
    instance raster of the image; the void, distractor and background masks
    hold only 0.0 and 1.0, and so does the target in per-object mode. *)
Theorem masks_have_raster_shape (w : world) (self : dataset) (index : Z)
    (p : pair) :
  _make_img_gt_point_pair w self index = Ok p →
  ∃ entry mpath raw,
    getitem (obj_list self) index = Ok entry ∧
    getitem (masks self) entry.1 = Ok mpath ∧
    object_masks w !! mpath = Some raw ∧
    Forall (λ m, same_shape m raw)
      [p_target p; p_void_pixels p; p_other_classes p; p_other_same_class p;
       p_background p] ∧
    Forall binary
      [p_void_pixels p; p_other_classes p; p_other_same_class p;
       p_background p] ∧
    (default self = false → binary (p_target p)).
Proof.
  intros Hp.
  apply make_pair_inv in Hp
    as (entry & ipath & mpath & raw & He & _ & _ & Hm & Hraw & Hvoid & Hbg & H).
  exists entry, mpath, raw. split_and!; [done..| | |].
  - rewrite !Forall_cons, Forall_nil, Hvoid, Hbg. destruct (default self).
    + destruct H as (-> & -> & ->). split_and!; try done; apply same_shape_map.
    + destruct H as (? & ? & ? & ? & ? & ? & _ & _ & _ & _ & -> & -> & -> & _).
      split_and!; try done; apply same_shape_map.
  - rewrite !Forall_cons, Forall_nil, Hvoid, Hbg.
    assert (binary (p_other_classes p) ∧ binary (p_other_same_class p))
      as [? ?]; [|split_and!; try done; apply binary_mask].
    destruct (default self).
    + destruct H as (_ & -> & ->). split; apply (binary_mask (λ _, false)).
    + destruct H as (? & ? & ? & ? & Fs & Fo & _ & _ & _ & _ & _ & -> & -> & _).
      split.
      * apply (binary_mask (λ x, Fo (void_zeroed x))).
      * apply (binary_mask (λ x, Fs (void_zeroed x))).
  - intros Hmode. rewrite Hmode in H.
    destruct H as (? & ? & ? & ? & ? & ? & _ & _ & _ & _ & -> & _).
    apply binary_mask.
Qed.

(** The sample at position 0 of the example dataset. *)
Lemma masks_have_raster_shape_witness :
  ∃ entry mpath raw,
    getitem (obj_list ex_ds) 0 = Ok entry ∧
    getitem (masks ex_ds) entry.1 = Ok mpath ∧
    object_masks ex_world' !! mpath = Some raw ∧
    Forall (λ m, same_shape m raw)
      [p_target ex_pair; p_void_pixels ex_pair; p_other_classes ex_pair;
       p_other_same_class ex_pair; p_background ex_pair] ∧
    Forall binary
      [p_void_pixels ex_pair; p_other_classes ex_pair;
       p_other_same_class ex_pair; p_background ex_pair] ∧
    (default ex_ds = false → binary (p_target ex_pair)).
Proof.
  apply (masks_have_raster_shape ex_world' ex_ds 0 ex_pair).
  vm_compute. reflexivity.
Defined.

(** X18: in default mode the assembled sample does not depend on the
    object: two positions of the object list that name the same image give
    the same image and masks, or the same exception. *)
Theorem default_mode_repeats_images (w : world) (self : dataset) (i j : Z)
    (e1 e2 : Z * Z) :
  default self = true →
  getitem (obj_list self) i = Ok e1 →
  getitem (obj_list self) j = Ok e2 →
  e1.1 = e2.1 →
  _make_img_gt_point_pair w self i = _make_img_gt_point_pair w self j.
Proof.
  intros Hmode H1 H2 Heq. unfold _make_img_gt_point_pair.
  rewrite H1, H2. simpl. by rewrite Heq, Hmode.
Qed.

(** The two objects of image [a] in default mode. *)
Lemma default_mode_repeats_images_witness :
  _make_img_gt_point_pair ex_world' ex_ds_default 0
  = _make_img_gt_point_pair ex_world' ex_ds_default 1.
Proof.
  apply (default_mode_repeats_images ex_world' ex_ds_default 0 1 (0, 0)
           (0, 1)).
  - reflexivity.
  - vm_compute. reflexivity.
  - vm_compute. reflexivity.
  - reflexivity.
Defined.

(** X19: in per-object mode, when the instance rasters hold bytes, the
    five masks cover the image: at every pixel exactly one of target,
    same-class, other-class, void and background is 1.0. *)
Theorem per_object_masks_cover (w : world) (split0 : str + list str)
    (transform0 : option (sample → sample)) (area_thres0 : Z)
    (preprocess default0 retname0 : bool) (ds : dataset) (w' : world)
    (index : Z) (p : pair) :
  __init__ w split0 transform0 area_thres0 preprocess default0 retname0
  = (Ok ds, w') →
  default ds = false →
  uint8_masks w' →
  _make_img_gt_point_pair w' ds index = Ok p →
  ∀ r c, is_Some (pixel (p_target p) r c) →
         length (masks_set_at p r c) = 1%nat.
Proof.
  intros [Hwf _]%init_well_formed Hmode Hbytes Hp r c Hpix.
  apply make_pair_inv in Hp as Hinv.
  destruct Hinv
    as (entry & ipath & mpath & raw & He & _ & _ & Hm & Hraw & Hvoid & Hbg & H).
  rewrite Hmode in H.
  destruct H as (id & cats & obj_cat & top & Fs & Fo & Hid & Hcats & _ & Htop &
                 Ht & Hs & Ho & HFs & HFo).
  pose proof (make_pair_reads_catalog _ _ _ _ _ _ _ _ _ _ Hp Hmode He Hm Hraw
                Hid Hcats Htop) as Hread.
  apply getitem_elem_of in He.
  apply (obj_list_entry w' ds entry Hwf) in He as (_ & Hobj & _).
  rewrite Ht, pixel_map in Hpix.
  destruct (pixel raw r c) as [x|] eqn:Hx; [|by destruct Hpix].
  assert (0 ≤ x ≤ 255) as Hbyte.
  { specialize (Hbytes mpath raw Hraw). simpl in Hbytes.
    unfold uint8_raster in Hbytes. rewrite Forall_forall in Hbytes.
    apply Hbytes. by eapply pixel_elem_of. }
  unfold masks_set_at. rewrite Ht, Hs, Ho, Hvoid, Hbg.
  change (length (filter (λ m : raster, pixel m r c = Some 1%Z)
    ((λ F, map (map (λ x, float_of_bool (F x))) raw) <$>
       [ (λ x, void_zeroed x =? entry.2 + 1)%Z;
         (λ x, Fs (void_zeroed x));
         (λ x, Fo (void_zeroed x));
         (λ x, x =? 255)%Z;
         (λ x, (void_zeroed x =? 0)%Z && negb (x =? 255)%Z) ])) = 1)%nat.
  rewrite (filter_masks raw r c x) by done.
  assert (∀ v, v < 1 → Fs v = false) as HFs0.
  { intros v Hv. destruct (Fs v) eqn:E; [|done]. apply HFs in E. lia. }
  assert (∀ v, v < 1 → Fo v = false) as HFo0.
  { intros v Hv. destruct (Fo v) eqn:E; [|done]. apply HFo in E. lia. }
  assert (Fs (entry.2 + 1) = false) as HFst.
  { destruct (Fs _) eqn:E; [|done]. apply HFs in E. lia. }
  assert (Fo (entry.2 + 1) = false) as HFot.
  { destruct (Fo _) eqn:E; [|done]. apply HFo in E. lia. }
  rewrite length_filter_bool. cbn [sum_list_with].
  assert ((x =? 255) = true ∧ void_zeroed x = 0 ∨
          (x =? 255) = false ∧ void_zeroed x = x) as [[HV Hvz]|[HV Hvz]].
  { unfold void_zeroed. destruct (x =? 255); tauto. }
  - rewrite Hvz, HV, HFs0, HFo0 by lia.
    assert ((0 =? entry.2 + 1) = false) as -> by (apply Z.eqb_neq; lia).
    done.
  - rewrite Hvz, HV.
    destruct (Z.eqb_spec x (entry.2 + 1)) as [Hxt|Hxt].
    + rewrite Hxt, HFst, HFot.
      assert ((entry.2 + 1 =? 0) = false) as -> by (apply Z.eqb_neq; lia).
      done.
    + destruct (Z.eqb_spec x 0) as [Hx0|Hx0].
      * rewrite HFs0, HFo0 by lia. done.
      * assert (1 ≤ x ≤ top) as Hrange.
        { split; [lia|]. apply np_max_spec in Htop as [_ Hub]. apply Hub.
          eapply pixel_elem_of. rewrite pixel_map, Hx. simpl.
          by rewrite Hvz. }
        destruct (Hread x Hrange) as [cx Hcx].
        destruct (decide (cx = obj_cat)) as [->|Hne].
        -- assert (Fs x = true) as -> by (apply HFs; done).
           assert (Fo x = false) as ->.
           { destruct (Fo x) eqn:E; [|done].
             apply HFo in E as (_ & _ & c' & Hc' & Hne'). congruence. }
           done.
        -- assert (Fo x = true) as -> by (apply HFo; eauto).
           assert (Fs x = false) as ->.
           { destruct (Fs x) eqn:E; [|done].
             apply HFs in E as (_ & _ & E). congruence. }
           done.
Qed.

(** The pixel at row 0, column 1 of the sample at position 0 of the example
    dataset. *)
Lemma per_object_masks_cover_witness :
  length (masks_set_at ex_pair 0 1) = 1%nat.
Proof.
  apply (per_object_masks_cover ex_world (inl train) None 0 false false true
           ex_ds ex_world' 0 ex_pair).
  - vm_compute. reflexivity.
  - reflexivity.
  - apply (bool_decide_unpack _). vm_compute. reflexivity.
  - vm_compute. reflexivity.
  - by eexists.
Defined.

(** X20: in per-object mode, when the catalog agrees with the rasters and
    the instance rasters hold bytes, the target mask of every sample has
    more pixels set than the area threshold. *)
Theorem target_exceeds_threshold (w : world) (split0 : str + list str)
    (transform0 : option (sample → sample)) (area_thres0 : Z)
    (preprocess default0 retname0 : bool) (ds : dataset) (w' : world)
    (index : Z) (p : pair) :
  __init__ w split0 transform0 area_thres0 preprocess default0 retname0
  = (Ok ds, w') →
  catalog_agrees w' ds →
  default ds = false →
  uint8_masks w' →
  _make_img_gt_point_pair w' ds index = Ok p →
  area_thres0 < Z.of_nat (pixel_count (p_target p) 1).
Proof.
  intros (Hwf & _ & _ & _ & Hthres)%init_well_formed Hag Hmode Hbytes Hp.
  apply make_pair_inv in Hp
    as (entry & ipath & mpath & raw & He & _ & _ & Hm & Hraw & _ & _ & H).
  rewrite Hmode in H.
  destruct H as (id & cats & obj_cat & top & Fs & Fo & Hid & Hcats & Hcat & _ &
                 Ht & _).
  apply getitem_elem_of in He.
  apply (obj_list_entry w' ds entry Hwf) in He
    as (_ & Hobj & id' & cats' & c & Hid' & _ & Hcats' & Hc & Hne).
  assert (id' = id) as -> by congruence.
  assert (cats' = cats) as -> by congruence.
  assert (c = obj_cat) as -> by congruence.
  destruct Hwf as (_ & Hmasks & _). rewrite Hmasks, Hid in Hm.
  injection Hm as Hm. subst mpath.
  destruct (Hag id cats Hcats) as [_ Hbuild].
  unfold built_cat_ids in Hbuild.
  assert (object_masks w' !! id = Some (raw : raster)) as HR by exact Hraw.
  rewrite HR in Hbuild. simpl in Hbuild.
  destruct (class_masks w' !! id) as [cl|]; [|done]. simpl in Hbuild.
  injection Hbuild as Hbuild. rewrite Hthres in Hbuild.
  apply getitem_ok in Hc; [|done].
  destruct (image_cat_ids_entry _ _ _ _ _ _ Hbuild Hobj Hc)
    as (Hentry & n & (Hn1 & Hn2 & _) & Hlt).
  apply instance_category_inv in Hentry as [Harea _]; [|done].
  assert (n ≤ 255) as Hn255.
  { specialize (Hbytes id raw Hraw). simpl in Hbytes.
    unfold uint8_raster in Hbytes. rewrite Forall_forall in Hbytes.
    by apply Hbytes. }
  rewrite Ht, pixel_count_mask. unfold pixel_count in Harea.
  erewrite filter_ext_in; [exact Harea|].
  intros x _. simpl. rewrite Z.eqb_eq. unfold void_zeroed.
  destruct (Z.eqb_spec x 255); lia.
Qed.

(** The sample at position 0 of the example dataset with the threshold 1:
    its target has two pixels. *)
Lemma target_exceeds_threshold_witness :
  1 < Z.of_nat (pixel_count (p_target ex_pair_thres) 1).
Proof.
  apply (target_exceeds_threshold ex_world (inl train) None 1 false false
           true ex_ds_thres ex_init_thres.2 0 ex_pair_thres).
  - vm_compute. reflexivity.
  - unfold catalog_agrees. apply (bool_decide_unpack _). vm_compute.
    reflexivity.
  - reflexivity.
  - apply (bool_decide_unpack _). vm_compute. reflexivity.
  - vm_compute. reflexivity.
Defined.

(** X21: when the catalog agrees with the rasters, the category that
    [__getitem__] puts in the metadata is the value of the class raster at
    the first pixel, in row-major order, of the target instance, and it is
    not -1. *)
Theorem meta_category_is_class_of_first_pixel (w : world)
    (split0 : str + list str) (area_thres0 : Z)
    (preprocess default0 : bool) (ds : dataset) (w' : world) (index : Z)
    (s : sample) :
  __init__ w split0 None area_thres0 preprocess default0 true = (Ok ds, w') →
  catalog_agrees w' ds →
  __getitem__ w' ds index = Ok s →
  ∃ m entry R C pos,
    s !! "meta" = Some (VMeta m) ∧
    getitem (obj_list ds) index = Ok entry ∧
    getitem (im_ids ds) entry.1 = Ok (meta_image m) ∧
    meta_object m = str_of_int entry.2 ∧
    object_masks w' !! meta_image m = Some R ∧
    class_masks w' !! meta_image m = Some C ∧
    first_pixel R (entry.2 + 1) pos ∧
    pixel C pos.1 pos.2 = Some (meta_category m) ∧
    meta_category m ≠ -1.
Proof.
  intros (Hwf & _ & Hret & Htr & Hthres)%init_well_formed Hag Hs.
  unfold __getitem__ in Hs. rewrite Hret, Htr in Hs.
  apply bind_ok in Hs as (p & Hp & Hs).
  apply bind_ok in Hs as (s1 & Hs1 & [= <-]).
  apply bind_ok in Hs1 as (entry & He & Hs1).
  apply bind_ok in Hs1 as (id & Hid & Hs1).
  apply bind_ok in Hs1 as (cats & Hcats & Hs1).
  apply bind_ok in Hs1 as (category & Hcat & [= <-]).
  unfold dict_get in Hcats.
  destruct (obj_dict ds !! id) as [cats'|] eqn:Hd; [|done].
  injection Hcats as ->.
  apply getitem_elem_of in He as Hin.
  apply (obj_list_entry w' ds entry Hwf) in Hin
    as (_ & Hobj & id' & cats' & c & Hid' & _ & Hcats' & Hc & Hne).
  assert (id' = id) as -> by congruence.
  assert (cats' = cats) as -> by congruence.
  assert (c = category) as -> by congruence.
  destruct (Hag id cats Hd) as [_ Hbuild].
  unfold built_cat_ids in Hbuild.
  destruct (object_masks w' !! id) as [R|] eqn:HR; [|done].
  destruct (class_masks w' !! id) as [C|] eqn:HC; [|done].
  simpl in Hbuild. injection Hbuild as Hbuild.
  apply getitem_ok in Hc; [|done].
  destruct (image_cat_ids_entry _ _ _ _ _ _ Hbuild Hobj Hc) as (Hentry & _).
  apply instance_category_inv in Hentry as [_ (pos & Hpos & Hpix)]; [|done].
  eexists (Meta id _ category _), entry, R, C, pos. simpl.
  split_and!; done.
Qed.

(** The sample at position 0 of the example dataset. *)
Lemma meta_category_is_class_of_first_pixel_witness :
  ∃ m entry R C pos,
    ex_sample !! "meta" = Some (VMeta m) ∧
    getitem (obj_list ex_ds) 0 = Ok entry ∧
    getitem (im_ids ex_ds) entry.1 = Ok (meta_image m) ∧
    meta_object m = str_of_int entry.2 ∧
    object_masks ex_world' !! meta_image m = Some R ∧
    class_masks ex_world' !! meta_image m = Some C ∧
    first_pixel R (entry.2 + 1) pos ∧
    pixel C pos.1 pos.2 = Some (meta_category m) ∧
    meta_category m ≠ -1.
Proof.
  apply (meta_category_is_class_of_first_pixel ex_world (inl train) 0 false
           false ex_ds ex_world' 0 ex_sample).
  - vm_compute. reflexivity.
  - unfold catalog_agrees. apply (bool_decide_unpack _). vm_compute.
    reflexivity.
  - vm_compute. reflexivity.
Defined.

(** ** The names of the files: lines 27-33, 46-54 and 62-68 *)

(** X22: two configurations, with split names that do not start with a
    slash, have the same cache file exactly when their area thresholds are
    equal and their split names, joined by underscores, are equal. *)
Theorem cache_file_shared_iff (base_dir : str) (split1 split2 : list str)
    (t1 t2 : Z) :
  relative (join Paths.underscore split1) →
  relative (join Paths.underscore split2) →
  Paths.obj_list_file base_dir split1 t1
  = Paths.obj_list_file base_dir split2 t2 ↔
  join Paths.underscore split1 = join Paths.underscore split2 ∧ t1 = t2.
Proof.
  intros H1 H2. rewrite !obj_list_file_eq by done. unfold cache_name. split.
  - intros H. do 5 apply app_inv_head in H.
    rewrite !app_assoc in H. apply app_inv_tail in H.
    rewrite <- !app_assoc in H.
    apply area_th_str_end in H as Ht. subst t2. split; [|done].
    rewrite !app_assoc in H. by do 2 apply app_inv_tail in H.
  - by intros [-> ->].
Qed.

(** The splits [a; b] and the split [a_b]. *)
Lemma cache_file_shared_iff_witness :
  Paths.obj_list_file VOC2012 [a; b] 0 = Paths.obj_list_file VOC2012 [a_b] 0 ↔
  join Paths.underscore [a; b] = join Paths.underscore [a_b] ∧ 0 = 0.
Proof.
  apply (cache_file_shared_iff VOC2012 [a; b] [a_b] 0 0).
  - reflexivity.
  - reflexivity.
Defined.

(** X23: with split names that do not start with a slash, the cache file is
    none of the files that construction reads: not the manifest of one of
    its splits, and no image, class raster or instance raster. *)
Theorem cache_file_is_no_input_file (base_dir : str) (split : list str)
    (t : Z) :
  Forall relative split →
  (∀ splt, splt ∈ split →
     Paths.obj_list_file base_dir split t
     ≠ Paths.manifest_file base_dir splt) ∧
  (∀ line,
     Paths.obj_list_file base_dir split t
     ∉ [Paths._image base_dir line; Paths._cat base_dir line;
        Paths._mask base_dir line]).
Proof.
  intros Hrel. split.
  - intros splt Hin.
    rewrite obj_list_file_eq by by apply relative_join.
    rewrite manifest_file_eq by (rewrite Forall_forall in Hrel; by apply Hrel).
    intros H. do 5 apply app_inv_head in H. unfold cache_name in H.
    rewrite !app_assoc in H. apply app_inv_tail in H.
    apply (f_equal length) in H. rewrite !length_app in H.
    pose proof (length_join_ge Paths.underscore splt split Hin).
    simpl in H. lia.
  - intros line Hin.
    assert (last (Paths.obj_list_file base_dir split t) = Some 116%N) as Hlast.
    { unfold Paths.obj_list_file, Paths.os_path_join. cbn [foldl].
      rewrite last_join_component by by destruct (join _ _).
      by rewrite !last_app. }
    assert (∀ dir, last (Paths.os_path_join dir [line ++ Paths.dot_jpg])
                   = Some 103%N
                ∧ last (Paths.os_path_join dir [line ++ Paths.dot_png])
                   = Some 103%N) as Himg.
    { intros dir. unfold Paths.os_path_join. cbn [foldl].
      rewrite !last_join_component by by destruct line.
      split; by rewrite last_app. }
    unfold Paths._image, Paths._cat, Paths._mask in Hin.
    rewrite !elem_of_cons, elem_of_nil in Hin.
    destruct Hin as [Hin|[Hin|[Hin|[]]]]; rewrite Hin in Hlast;
      [rewrite (proj1 (Himg _)) in Hlast|
       rewrite (proj2 (Himg _)) in Hlast..]; done.
Qed.

(** The split [train] and the image [a]. *)
Lemma cache_file_is_no_input_file_witness :
  Paths.obj_list_file VOC2012 [train] 0 ≠ Paths.manifest_file VOC2012 train ∧
  Paths.obj_list_file VOC2012 [train] 0
  ∉ [Paths._image VOC2012 a; Paths._cat VOC2012 a; Paths._mask VOC2012 a].
Proof.
  destruct (cache_file_is_no_input_file VOC2012 [train] 0) as [H1 H2].
  - apply (bool_decide_unpack _). vm_compute. reflexivity.
  - split; [apply H1; left|apply H2].
Defined.

(** X24: lines that do not start with a slash name files of their own: the
    image, the class raster and the instance raster of a line are three
    files, and those of two lines differ.  A line that starts with a slash
    names the same files whatever the base directory is. *)
Theorem lines_name_distinct_files (base_dir l1 l2 : str) :
  (relative l1 → relative l2 →
   (Paths._image base_dir l1 = Paths._image base_dir l2 → l1 = l2) ∧
   (Paths._cat base_dir l1 = Paths._cat base_dir l2 → l1 = l2) ∧
   (Paths._mask base_dir l1 = Paths._mask base_dir l2 → l1 = l2) ∧
   Paths._cat base_dir l1 ≠ Paths._mask base_dir l2) ∧
  Paths._image base_dir l1 ≠ Paths._cat base_dir l2 ∧
  Paths._image base_dir l1 ≠ Paths._mask base_dir l2 ∧
  (¬ relative l1 → ∀ base_dir',
     Paths._image base_dir l1 = Paths._image base_dir' l1 ∧
     Paths._cat base_dir l1 = Paths._cat base_dir' l1 ∧
     Paths._mask base_dir l1 = Paths._mask base_dir' l1).
Proof.
  assert (∀ dir dir' line line',
            Paths.os_path_join dir [line ++ Paths.dot_jpg]
            ≠ Paths.os_path_join dir' [line' ++ Paths.dot_png]) as Hext.
  { intros dir dir' line line' H. unfold Paths.os_path_join in H.
    cbn [foldl] in H.
    destruct (join_component_suffix dir (line ++ Paths.dot_jpg)) as [p Hp].
    destruct (join_component_suffix dir' (line' ++ Paths.dot_png))
      as [p' Hp'].
    rewrite Hp, Hp' in H.
    apply (f_equal reverse) in H. rewrite !reverse_app in H. done. }
  split_and!.
  - intros Hl1 Hl2.
    unfold Paths._image, Paths._cat, Paths._mask, Paths._image_dir,
      Paths._cat_dir, Paths._mask_dir.
    rewrite !dir_join by (done || by apply relative_app_nil).
    split_and!.
    + intros H. do 3 apply app_inv_head in H. by apply app_inv_tail in H.
    + intros H. do 3 apply app_inv_head in H. by apply app_inv_tail in H.
    + intros H. do 3 apply app_inv_head in H. by apply app_inv_tail in H.
    + intros H. apply app_inv_head in H. done.
  - apply Hext.
  - apply Hext.
  - intros Habs base_dir'.
    assert (Paths.startswith_sep l1 = true) as Hs.
    { unfold relative in Habs. by destruct (Paths.startswith_sep l1). }
    assert (∀ dir ext, Paths.os_path_join dir [l1 ++ ext] = l1 ++ ext)
      as Habs'.
    { intros dir ext. unfold Paths.os_path_join. cbn [foldl].
      unfold Paths.join_component. destruct l1 as [|c l]; [done|].
      simpl in *. by rewrite Hs. }
    unfold Paths._image, Paths._cat, Paths._mask.
    by rewrite !Habs'.
Qed.

(** The lines [a] and [b], and the line [/data/VOC2012] with another base
    directory. *)
Lemma lines_name_distinct_files_witness :
  ((Paths._image VOC2012 a = Paths._image VOC2012 b → a = b) ∧
   (Paths._cat VOC2012 a = Paths._cat VOC2012 b → a = b) ∧
   (Paths._mask VOC2012 a = Paths._mask VOC2012 b → a = b) ∧
   Paths._cat VOC2012 a ≠ Paths._mask VOC2012 b) ∧
  Paths._image [] VOC2012 = Paths._image a VOC2012.
Proof.
  split.
  - apply (proj1 (lines_name_distinct_files VOC2012 a b)); reflexivity.
  - apply (proj2 (proj2 (proj2 (lines_name_distinct_files [] VOC2012 a)))).
    intros H. discriminate H.
Defined.

(** ** [__str__]: lines 199-200 *)

(** X25: the text of [__str__] identifies the split list and the area
    threshold: two datasets whose split names are Python strings have the
    same text only when they have the same splits and the same threshold,
    whatever the Unicode database calls printable. *)
Theorem str_identifies_split_and_threshold (isprintable : N → bool)
    (self1 self2 : dataset) :
  Forall code_points (split self1) →
  Forall code_points (split self2) →
  __str__ isprintable self1 = __str__ isprintable self2 →
  split self1 = split self2 ∧ area_thres self1 = area_thres self2.
Proof.
  intros H1 H2 H. unfold __str__ in H.
  apply app_inv_head in H.
  apply str_of_list_inj in H as [Hs H]; [|done..].
  split; [done|]. apply app_inv_head in H.
  apply app_inv_tail in H.
  by rewrite <- (int_of_str_of_int (area_thres self1)), H, int_of_str_of_int.
Qed.

(** The example dataset in per-object and in default mode. *)
Lemma str_identifies_split_and_threshold_witness :
  split ex_ds = split ex_ds_default ∧
  area_thres ex_ds = area_thres ex_ds_default.
Proof.
  apply (str_identifies_split_and_threshold (λ _, true) ex_ds ex_ds_default).
  - apply (bool_decide_unpack _). vm_compute. reflexivity.
  - apply (bool_decide_unpack _). vm_compute. reflexivity.
  - vm_compute. reflexivity.
Defined.

(** ** [ToTensor.__call__]: lines 205-211 *)

(** X26: [ToTensor] cannot be applied to the samples of this dataset: a
    sample that [__getitem__] returns without a transform has no key
    [input], and the call raises KeyError. *)
Theorem ToTensor_rejects_dataset_samples (w : world) (self : dataset)
    (index : Z) (s : sample) :
  transform self = None →
  __getitem__ w self index = Ok s →
  ToTensor.__call__ s = Raise KeyError.
Proof.
  intros Htr Hs. unfold __getitem__ in Hs. rewrite Htr in Hs.
  apply bind_ok in Hs as (p & _ & Hs).
  apply bind_ok in Hs as (s1 & Hs1 & [= <-]).
  destruct (retname self).
  - apply bind_ok in Hs1 as (entry & _ & Hs1).
    apply bind_ok in Hs1 as (id & _ & Hs1).
    apply bind_ok in Hs1 as (cats & _ & Hs1).
    apply bind_ok in Hs1 as (category & _ & [= <-]). done.
  - injection Hs1 as <-. done.
Qed.

(** The sample at position 0 of the example dataset. *)
Lemma ToTensor_rejects_dataset_samples_witness :
  ToTensor.__call__ ex_sample = Raise KeyError.
Proof.
  apply (ToTensor_rejects_dataset_samples ex_world' ex_ds 0 ex_sample).
  - reflexivity.
  - vm_compute. reflexivity.
Defined.



(** * Examples *)

Example unique_example :
  unique [[0; 2; 255]; [2; 1; 0]] = [0; 1; 2; 255].
Proof. reflexivity. Qed.

Example image_cat_ids_example :
  image_cat_ids [[0; 1; 255]; [2; 2; 0]] [[0; 5; 255]; [9; 9; 0]] 0
  = Ok [5; 9].
Proof. reflexivity. Qed.

Example image_cat_ids_threshold :
  image_cat_ids [[0; 1; 255]; [2; 2; 0]] [[0; 5; 255]; [9; 9; 0]] 1
  = Ok [-1; 9].
Proof. reflexivity. Qed.

Example image_cat_ids_gap :
  image_cat_ids [[2]] [[7]] (-1) = Raise IndexError.
Proof. reflexivity. Qed.

Example dumps_example : dumps [5; 0; -1; 120] = py "[5, 0, -1, 120]".
Proof. reflexivity. Qed.

Example loads_array :
  loads (py " [5, 0, -1 ,120 ] ")
  = Ok (JArr [JInt 5; JInt 0; JInt (-1); JInt 120]).
Proof. vm_compute. reflexivity. Qed.

(** The raster values 0, 1, 2 and 255 with both instances of category 5:
    the category list is [5; 5] and, for the object at position 0, instance
    2 is a same-class distractor. *)
Example same_class_scenario :
  image_cat_ids [[0; 1; 2; 255]] [[0; 5; 5; 255]] 0 = Ok [5; 5] ∧
  _make_img_gt_point_pair
    (World ∅ {[ a := img_a ]} {[ a := [[0; 1; 2; 255]] ]}
       {[ a := [[0; 5; 5; 255]] ]} None)
    (Dataset 0 false true [train] None [a] [a] [a] [a] {[ a := [5; 5] ]}
       [(0, 0); (0, 1)]) 0
  = Ok (Pair img_a [[0; 1; 0; 0]] [[0; 0; 0; 1]] [[0; 0; 0; 0]]
          [[0; 0; 1; 0]] [[1; 0; 0; 0]]).
Proof. split; vm_compute; reflexivity. Qed.

(** The same raster with instance 2 of category 9: instance 2 is an
    other-class distractor. *)
Example other_class_scenario :
  image_cat_ids [[0; 1; 2; 255]] [[0; 5; 9; 255]] 0 = Ok [5; 9] ∧
  _make_img_gt_point_pair
    (World ∅ {[ a := img_a ]} {[ a := [[0; 1; 2; 255]] ]}
       {[ a := [[0; 5; 9; 255]] ]} None)
    (Dataset 0 false true [train] None [a] [a] [a] [a] {[ a := [5; 9] ]}
       [(0, 0); (0, 1)]) 0
  = Ok (Pair img_a [[0; 1; 0; 0]] [[0; 0; 0; 1]] [[0; 0; 1; 0]]
          [[0; 0; 0; 0]] [[1; 0; 0; 0]]).
Proof. split; vm_compute; reflexivity. Qed.

(** An image whose only instance is below the threshold has no object. *)
Example filtered_image_scenario :
  image_cat_ids [[0; 1]] [[0; 5]] 1 = Ok [-1] ∧
  objects_of [a] {[ a := [-1] ]} = [].
Proof. split; vm_compute; reflexivity. Qed.

(** The second construction reads the cache file the first one wrote. *)
Example second_construction_uses_cache :
  (__init__ ex_world' (inl train) None 0 false false true).1 = Ok ex_ds ∧
  (__init__ ex_world' (inl train) None 0 false false true).2 = ex_world'.
Proof. split; vm_compute; reflexivity. Qed.

(** The text of the example dataset. *)
Example str_example :
  __str__ (λ _, true) ex_ds = py "VOC2012(split=['train'],area_thres=0)".
Proof. vm_compute. reflexivity. Qed.

(** A name with a single quote, and one with a newline and three characters
    that the table calls unprintable. *)
Example str_of_list_example :
  str_of_list (λ _, false) [py "it's"; [97; 10; 233; 8364; 128512]%N]
  = [91%N; 34%N] ++ py "it's" ++ [34%N]
      ++ py ", 'a\n\xe9\u20ac\U0001f600']".
Proof. vm_compute. reflexivity. Qed.

(** The cache file of two splits with the threshold 5. *)
Example obj_list_file_example :
  Paths.obj_list_file VOC2012 [train; val] 5
  = py "/data/VOC2012/ImageSets/Segmentation/train_val_instances_area_thres-5.txt".
Proof. vm_compute. reflexivity. Qed.

(** A base directory that ends with a slash. *)
Example image_path_example :
  Paths._image (py "data/") a = py "data/JPEGImages/a.jpg".
Proof. vm_compute. reflexivity. Qed.

(** The image [a], 1 x 4 x 3, with its channels first: 3 x 1 x 4. *)
Example transpose_example :
  ToTensor.transpose_2_0_1 img_a
  = [[[10; 11; 12; 13]]; [[20; 21; 22; 23]]; [[30; 31; 32; 33]]].
Proof. reflexivity. Qed.
